(** * Newsletter sync: cron routes, broadcast detail route and feed

    A shallow embedding of the route handlers that make up the
    synchronisation pipeline and serve what it stores:

    - [CronHistorical.GET]  the first cron route (emails fetched
      incrementally and correlated with broadcasts by subject and from);
    - [Cron.GET]            the current cron route (broadcast details carry
      their HTML inline);
    - [BroadcastDetail.GET] the route that serves one stored broadcast;
    - [Feed.GET]            the route that serves the stored broadcasts
      as an RSS feed.

    Handlers are asynchronous but strictly sequential (every call is
    awaited), so a handler is a function from the blob store it starts in
    to its outcome and the chronological log of its effects.

    What lies outside the route files is taken as follows. The upstream
    API is a snapshot: a function from requests to answers, an answer
    being ok with its JSON body or a non-2xx status (a transport failure
    of [fetch] is not modelled). The blob store is a finite map from keys
    to bodies; [put] always overwrites and does not fail. The HTML to
    Markdown converter is a parameter [turndown : string -> string], and
    so is [JSON.parse] on a body that was written as a raw string (a
    [JsonReader]). The [while] loop of the email fetch runs on fuel. *)

From stdpp Require Import gmap strings list pretty.
From Stdlib Require Import Ascii.

Open Scope Z_scope.

(** ** Data model (the TypeScript interfaces) *)

Module Audience.
Record t := mk { id : string; name : string; created_at : string }.
End Audience.

Module Broadcast.
(** The interface of the current cron route; the historical route
    declares a prefix of it and reads the same JSON objects. *)
Record t := mk {
  id : string;
  audience_id : string;
  name : option string;
  subject : option string;
  from : option string;
  html : option string;
  text : option string;
  reply_to : option string;
  preview_text : option string;
  status : option string;
  created_at : string;
  sent_at : option string;
  scheduled_at : option string }.

(** [{ ...b, html: h }] *)
Definition with_html (b : t) (h : string) : t :=
  mk (id b) (audience_id b) (name b) (subject b) (from b) (Some h) (text b)
     (reply_to b) (preview_text b) (status b) (created_at b) (sent_at b)
     (scheduled_at b).
End Broadcast.

Module Email.
Record t := mk {
  id : string;
  from : string;
  subject : string;
  html : option string;
  created_at : string }.
End Email.

(** JavaScript truthiness of a [string | undefined]: [undefined] and the
    empty string are falsy. *)
Definition truthy (v : option string) : bool :=
  match v with
  | Some s => negb (String.eqb s "")
  | None => false
  end.

(** ** The blob store

    Bodies written with [JSON.stringify] are kept as the value that was
    stringified ([JSON.stringify] is a function of the value, so equal
    values are equal bytes, and [response.json()] gives the value back);
    [BText] is a body written as a raw string (an email id), which may
    or may not happen to be JSON text. *)
Inductive Blob :=
| BAudiences (l : list Audience.t)
| BAudience (a : Audience.t)
| BBroadcasts (l : list Broadcast.t)
| BBroadcast (b : Broadcast.t)
| BContent (b : Broadcast.t) (content : string)   (* { ...b, content } *)
| BEmails (l : list Email.t)
| BEmail (e : Email.t)
| BText (s : string).

Abbreviation Store := (gmap string Blob).

(** [response.json()] of a body that was written as a raw string.
    [JSON.parse] is a library function; a reader gives, for a raw text,
    what the routes read of the value it parses to. *)
Record JsonReader := mkJsonReader {
  (** [data.html] of the parsed text: [None] when [JSON.parse] throws or
      gives [null] (reading a property of [null] throws), [Some None]
      when the value has no html field (or a falsy one that is not a
      text). *)
  htmlOfText : string -> option (option string);
  (** the parsed text used as [Broadcast[]], its elements read by field
      name: [None] when [JSON.parse] throws or the value is not an
      array (it has no [map]). *)
  broadcastsOfText : string -> option (list Broadcast.t) }.

(** ** The upstream API *)

Inductive Url :=
| UAudiences                       (* /audiences?limit=100 *)
| UBroadcasts                      (* /broadcasts?limit=100 *)
| UEmails (before : option string) (* /emails?limit=100[&before=...] *)
| UBroadcast (id : string)         (* /broadcasts/<id> *)
| UEmail (id : string).            (* /emails/<id> *)

(** A response is [ok] with its JSON body, or carries a non-2xx status. *)
Inductive Response (A : Type) :=
| Ok (json : A)
| NotOk (status : Z).
Arguments Ok {A} json.
Arguments NotOk {A} status.

(** The body of a list endpoint: [{ data?, has_more? }]. *)
Record Page (A : Type) := mkPage { data : option (list A); has_more : option bool }.
Arguments mkPage {A} data has_more.
Arguments data {A} p.
Arguments has_more {A} p.

(** An upstream snapshot: what the provider answers to each request. *)
Record Upstream := mkUpstream {
  audiences : Response (Page Audience.t);
  broadcasts : Response (Page Broadcast.t);
  emails : option string -> Response (Page Email.t);
  broadcast : string -> Response Broadcast.t;
  email : string -> Response Email.t }.

(** ** Effects *)

Inductive Event :=
| EvFetch (u : Url)                    (* a call to the upstream API *)
| EvSleep (ms : Z)                     (* [await sleep(ms)] *)
| EvPut (key : string) (body : Blob).  (* [await put(key, body, ...)] *)

Definition write (s : Store) (e : Event) : Store :=
  match e with
  | EvPut key body => <[key := body]> s
  | _ => s
  end.

(** The store after the writes of a log, oldest first. *)
Definition replay (t : list Event) (s : Store) : Store := foldl write s t.

Inductive Result (A : Type) :=
| Return (a : A)
| Throw (message : string)   (* [throw new Error(message)] *)
| Diverge.                   (* the loop did not finish within the fuel *)
Arguments Return {A} a.
Arguments Throw {A} message.
Arguments Diverge {A}.

(** A computation sees the store it starts in and yields its result and
    its log; the store it leaves is [replay log store]. *)
Definition IO (A : Type) : Type := Store -> Result A * list Event.

Definition ret {A} (a : A) : IO A := fun _ => (Return a, []).

Definition bind {A B} (m : IO A) (f : A -> IO B) : IO B :=
  fun s =>
    match m s with
    | (Return a, t) =>
        match f a (replay t s) with
        | (r, t') => (r, t ++ t')
        end
    | (Throw e, t) => (Throw e, t)
    | (Diverge, t) => (Diverge, t)
    end.

Declare Scope io_scope.
Delimit Scope io_scope with io.
Notation "x <- m ;; k" := (bind m (fun x => k))
  (at level 100, m at next level, right associativity) : io_scope.
Notation "m ;; k" := (bind m (fun _ => k))
  (at level 100, right associativity) : io_scope.
Open Scope io_scope.

Definition throw {A} (message : string) : IO A := fun _ => (Throw message, []).

Definition diverge {A} : IO A := fun _ => (Diverge, []).

(** [try { m } catch (e) { h e.message }] *)
Definition try_catch {A} (m : IO A) (h : string -> IO A) : IO A :=
  fun s =>
    match m s with
    | (Throw e, t) =>
        match h e (replay t s) with
        | (r, t') => (r, t ++ t')
        end
    | other => other
    end.

(** [for (const x of l) { body x }] *)
Fixpoint for_of {A} (l : list A) (body : A -> IO unit) : IO unit :=
  match l with
  | [] => ret tt
  | x :: rest => body x ;; for_of rest body
  end.

Definition sleep (ms : Z) : IO unit := fun _ => (Return tt, [EvSleep ms]).

(** Every [put] of the routes passes [addRandomSuffix: false] and
    [allowOverwrite: true]: the body is written under exactly [key] and
    replaces what was there. *)
Definition put (key : string) (body : Blob) : IO unit :=
  fun _ => (Return tt, [EvPut key body]).

(** Modelled from the spec: [head] of the blob SDK, which is not part of
    the sources. [head(key)] then [fetch(blob.url)] give the body stored
    under [key]; as in the specification's [read(key) -> value | NotFound],
    a missing key gives no descriptor (the case the handlers test with
    [blob?.url]) rather than an exception. *)
Definition read (key : string) : IO (option Blob) := fun s => (Return (s !! key), []).

Definition fetch {A} (u : Url) (answer : Response A) : IO (Response A) :=
  fun _ => (Return answer, [EvFetch u]).

Definition log_of {A} (m : IO A) (s : Store) : list Event := snd (m s).
Definition result_of {A} (m : IO A) (s : Store) : Result A := fst (m s).
Definition store_after {A} (m : IO A) (s : Store) : Store := replay (log_of m s) s.

(** ** HTTP surface of the handlers *)

Record Request := mkRequest { authorization : option string }.

Record Env := mkEnv {
  CRON_SECRET : option string;
  RESEND_API_KEY : option string;
  RESEND_AUDIENCE_ID : option string }.

Inductive Body :=
| ErrorJson (error : string) (details : option string)
| SuccessJson (audiences broadcasts : nat) (emails : option (nat * nat))
| Plain (text : string).

Record HttpResponse := mkHttp {
  status : Z;
  headers : list (string * string);
  body : Body }.

(** [`Bearer ${v}`]: an undefined value prints as [undefined]. *)
Definition bearer (v : option string) : string := "Bearer " +:+ default "undefined" v.

Definition authorized (env : Env) (request : Request) : bool :=
  bool_decide (authorization request = Some (bearer (CRON_SECRET env))).

Definition unauthorized : HttpResponse := mkHttp 401 [] (ErrorJson "Unauthorized" None).

Definition missing_config : HttpResponse :=
  mkHttp 500 [] (ErrorJson "Missing RESEND_API_KEY or RESEND_AUDIENCE_ID" None).

Definition sync_failed (message : string) : HttpResponse :=
  mkHttp 500 [] (ErrorJson "Failed to sync data" (Some message)).

(** ** The API client shared by both cron routes

    [fetchAudiences], [fetchBroadcasts] and [fetchBroadcastDetails] are
    textually the same in the two route files. *)

(** [data.data || []] *)
Definition items {A} (json : Page A) : list A := default [] (data json).

Definition fetchAudiences (up : Upstream) : IO (list Audience.t) :=
  response <- fetch UAudiences (audiences up) ;;
  match response with
  | NotOk status => throw ("Failed to fetch audiences: " +:+ pretty status)
  | Ok json =>
      sleep 500 ;;
      ret (items json)
  end.

Definition fetchBroadcasts (up : Upstream) (audienceId : string)
  : IO (list Broadcast.t) :=
  response <- fetch UBroadcasts (broadcasts up) ;;
  match response with
  | NotOk status => throw ("Failed to fetch broadcasts: " +:+ pretty status)
  | Ok json =>
      sleep 500 ;;
      let allBroadcasts := items json in
      ret (List.filter (fun b => String.eqb (Broadcast.audience_id b) audienceId)
             allBroadcasts)
  end.

Definition fetchBroadcastDetails (up : Upstream) (broadcastId : string)
  : IO (option Broadcast.t) :=
  response <- fetch (UBroadcast broadcastId) (broadcast up broadcastId) ;;
  match response with
  | NotOk _ =>
      sleep 500 ;;
      ret None
  | Ok json =>
      sleep 500 ;;
      ret (Some json)
  end.

(** ** The historical cron route *)

Module CronHistorical.

Definition fetchEmailDetails (up : Upstream) (emailId : string)
  : IO (option Email.t) :=
  response <- fetch (UEmail emailId) (email up emailId) ;;
  match response with
  | NotOk _ =>
      sleep 500 ;;
      ret None
  | Ok json =>
      sleep 500 ;;
      ret (Some json)
  end.

(** What the first [try] block leaves in [existingEmails]: the body
    under [rss_emails] parsed as [Email[]]. A missing blob leaves the
    first-run default, and so does a body that is not JSON (the [catch]
    is empty). The routes only ever write an email list under that key;
    over a store holding JSON of another shape there, the code keeps the
    parsed value (and the merge throws when it is not iterable), which
    this definition does not follow: it reads the default. *)
Definition storedEmails (s : Store) : list Email.t :=
  match s !! "rss_emails" with
  | Some (BEmails l) => l
  | _ => []
  end.

Definition readExistingEmails : IO (list Email.t) :=
  fun s => (Return (storedEmails s), []).

(** What the second [try] block leaves in [lastEmailId]: the text under
    [rss_last_email_id], or [undefined] when there is none. The routes
    only ever write a raw email id under that key; over a store holding
    a JSON body there, the code takes the JSON text for the cursor,
    which this definition does not follow: it reads no cursor. *)
Definition storedLastEmailId (s : Store) : option string :=
  match s !! "rss_last_email_id" with
  | Some (BText id) => Some id
  | _ => None
  end.

Definition readLastEmailId : IO (option string) :=
  fun s => (Return (storedLastEmailId s), []).

(** The [before] parameter of one loop iteration: sent only when
    [currentLastId] is truthy. *)
Definition beforeParam (currentLastId : option string) : option string :=
  if truthy currentLastId then currentLastId else None.

Definition lastId (emails : list Email.t) : option string :=
  Email.id <$> last emails.

(** The [while (hasMore)] loop, entered with [hasMore = true]; one unit
    of fuel per iteration. *)
Fixpoint emailsLoop (fuel : nat) (up : Upstream) (lastEmailId : option string)
    (currentLastId : option string) (newEmails : list Email.t)
  : IO (list Email.t) :=
  match fuel with
  | O => diverge
  | S fuel' =>
      let before := beforeParam currentLastId in
      response <- fetch (UEmails before) (emails up before) ;;
      match response with
      | NotOk status => throw ("Failed to fetch emails: " +:+ pretty status)
      | Ok json =>
          let emails := items json in
          match emails with
          | [] => ret newEmails                            (* break *)
          | _ :: _ =>
              let newEmails := newEmails ++ emails in
              if truthy lastEmailId then
                sleep 500 ;;
                ret newEmails                              (* hasMore = false *)
              else
                let hasMore := default false (has_more json) in
                let currentLastId :=
                  if hasMore then lastId emails else currentLastId in
                sleep 500 ;;
                if hasMore
                then emailsLoop fuel' up lastEmailId currentLastId newEmails
                else ret newEmails
          end
      end
  end.

Definition fetchEmailsIncrementally (fuel : nat) (up : Upstream)
  : IO (list Email.t * list Email.t) :=
  existingEmails <- readExistingEmails ;;
  lastEmailId <- readLastEmailId ;;
  newEmails <- emailsLoop fuel up lastEmailId lastEmailId [] ;;
  let allEmails := newEmails ++ existingEmails in
  ret (newEmails, allEmails).

(** The predicate passed to [emails.find]. *)
Definition sameSubjectAndFrom (broadcastDetails : Broadcast.t) (email : Email.t)
  : bool :=
  bool_decide (Some (Email.subject email) = Broadcast.subject broadcastDetails)
  && bool_decide (Some (Email.from email) = Broadcast.from broadcastDetails).

Definition findMatchingEmail (broadcastDetails : Broadcast.t)
    (emails : list Email.t) : option Email.t :=
  List.find (sameSubjectAndFrom broadcastDetails) emails.

Definition infoKey (broadcastId : string) : string :=
  "rss_broadcast_" +:+ broadcastId +:+ "_info".

Definition infoMdKey (broadcastId : string) : string :=
  "rss_broadcast_" +:+ broadcastId +:+ "_info_md".

(** One iteration of the [for] loop of [matchAndStore]. *)
Definition matchOne (turndown : string -> string) (up : Upstream)
    (emails : list Email.t) (broadcast : Broadcast.t) : IO unit :=
  broadcastDetails <- fetchBroadcastDetails up (Broadcast.id broadcast) ;;
  match broadcastDetails with
  | None => ret tt
  | Some broadcastDetails =>
      if negb (truthy (Broadcast.subject broadcastDetails))
         || negb (truthy (Broadcast.from broadcastDetails))
      then ret tt
      else
        match findMatchingEmail broadcastDetails emails with
        | None => ret tt
        | Some matchingEmail =>
            emailDetails <- fetchEmailDetails up (Email.id matchingEmail) ;;
            match emailDetails with
            | None => ret tt
            | Some emailDetails =>
                if truthy (Email.html emailDetails) then
                  let html := default "" (Email.html emailDetails) in
                  put (infoKey (Broadcast.id broadcast))
                      (BBroadcast (Broadcast.with_html broadcastDetails html)) ;;
                  let markdown := turndown html in
                  put (infoMdKey (Broadcast.id broadcast))
                      (BContent broadcastDetails markdown)
                else ret tt
            end
        end
  end.

Definition matchAndStore (turndown : string -> string) (up : Upstream)
    (broadcasts : list Broadcast.t) (emails : list Email.t) : IO unit :=
  for_of broadcasts (matchOne turndown up emails).

(** The body of the [try] block. *)
Definition sync (turndown : string -> string) (fuel : nat) (up : Upstream)
    (audienceId : string) : IO HttpResponse :=
  audiences <- fetchAudiences up ;;
  put "rss_audiences" (BAudiences audiences) ;;
  for_of audiences
    (fun audience => put ("rss_audience_" +:+ Audience.id audience) (BAudience audience)) ;;
  broadcasts <- fetchBroadcasts up audienceId ;;
  put "rss_broadcasts" (BBroadcasts broadcasts) ;;
  for_of broadcasts
    (fun broadcast => put ("rss_broadcast_" +:+ Broadcast.id broadcast) (BBroadcast broadcast)) ;;
  fetched <- fetchEmailsIncrementally fuel up ;;
  let '(newEmails, allEmails) := fetched in
  put "rss_emails" (BEmails allEmails) ;;
  for_of newEmails
    (fun email => put ("rss_email_" +:+ Email.id email) (BEmail email)) ;;
  match allEmails with
  | first :: _ => put "rss_last_email_id" (BText (Email.id first))
  | [] => ret tt
  end ;;
  matchAndStore turndown up broadcasts newEmails ;;
  ret (mkHttp 200 []
         (SuccessJson (length audiences) (length broadcasts)
            (Some (length newEmails, length allEmails)))).

Definition GET (turndown : string -> string) (fuel : nat) (env : Env)
    (up : Upstream) (request : Request) : IO HttpResponse :=
  if negb (authorized env request) then ret unauthorized
  else if negb (truthy (RESEND_API_KEY env)) || negb (truthy (RESEND_AUDIENCE_ID env))
  then ret missing_config
  else
    let audienceId := default "" (RESEND_AUDIENCE_ID env) in
    try_catch (sync turndown fuel up audienceId)
              (fun message => ret (sync_failed message)).

End CronHistorical.

(** ** The current cron route *)

Module Cron.

Definition infoKey (broadcastId : string) : string :=
  "rss_broadcast_" +:+ broadcastId +:+ "_info".

Definition infoMdKey (broadcastId : string) : string :=
  "rss_broadcast_" +:+ broadcastId +:+ "_info_md".

(** One iteration of the [for] loop of [fetchAndStoreBroadcastsWithHtml]. *)
Definition storeOne (turndown : string -> string) (up : Upstream)
    (broadcast : Broadcast.t) : IO unit :=
  broadcastDetails <- fetchBroadcastDetails up (Broadcast.id broadcast) ;;
  match broadcastDetails with
  | None => ret tt
  | Some broadcastDetails =>
      if truthy (Broadcast.html broadcastDetails) then
        put (infoKey (Broadcast.id broadcast)) (BBroadcast broadcastDetails) ;;
        let markdown := turndown (default "" (Broadcast.html broadcastDetails)) in
        put (infoMdKey (Broadcast.id broadcast)) (BContent broadcastDetails markdown)
      else ret tt
  end.

Definition fetchAndStoreBroadcastsWithHtml (turndown : string -> string)
    (up : Upstream) (broadcasts : list Broadcast.t) : IO unit :=
  for_of broadcasts (storeOne turndown up).

Definition sync (turndown : string -> string) (up : Upstream)
    (audienceId : string) : IO HttpResponse :=
  audiences <- fetchAudiences up ;;
  put "rss_audiences" (BAudiences audiences) ;;
  for_of audiences
    (fun audience => put ("rss_audience_" +:+ Audience.id audience) (BAudience audience)) ;;
  broadcasts <- fetchBroadcasts up audienceId ;;
  put "rss_broadcasts" (BBroadcasts broadcasts) ;;
  for_of broadcasts
    (fun broadcast => put ("rss_broadcast_" +:+ Broadcast.id broadcast) (BBroadcast broadcast)) ;;
  fetchAndStoreBroadcastsWithHtml turndown up broadcasts ;;
  ret (mkHttp 200 [] (SuccessJson (length audiences) (length broadcasts) None)).

Definition GET (turndown : string -> string) (env : Env) (up : Upstream)
    (request : Request) : IO HttpResponse :=
  if negb (authorized env request) then ret unauthorized
  else if negb (truthy (RESEND_API_KEY env)) || negb (truthy (RESEND_AUDIENCE_ID env))
  then ret missing_config
  else
    let audienceId := default "" (RESEND_AUDIENCE_ID env) in
    try_catch (sync turndown up audienceId)
              (fun message => ret (sync_failed message)).

End Cron.

(** ** The broadcast detail route *)

Module BroadcastDetail.

(** [data.html] of a parsed body; [None] when [response.json()] or the
    read of the field throws. Arrays and objects without the field give
    [undefined]; a raw text is read as the reader says. *)
Definition htmlField (json : JsonReader) (stored : Blob) : option (option string) :=
  match stored with
  | BBroadcast b => Some (Broadcast.html b)
  | BContent b _ => Some (Broadcast.html b)
  | BEmail e => Some (Email.html e)
  | BAudience _ | BAudiences _ | BBroadcasts _ | BEmails _ => Some None
  | BText text => htmlOfText json text
  end.

Definition infoKey (id : string) : string := "rss_broadcast_" +:+ id +:+ "_info".

Definition GET (json : JsonReader) (id : string) : IO HttpResponse :=
  try_catch
    (contentBlob <- read (infoKey id) ;;
     match contentBlob with
     | None => ret (mkHttp 404 [] (Plain "Broadcast not found"))
     | Some stored =>
         match htmlField json stored with
         | None => throw "Unexpected token"
         | Some html =>
             if truthy html
             then ret (mkHttp 200 [("Content-Type", "text/html")]
                         (Plain (default "" html)))
             else ret (mkHttp 404 [] (Plain "HTML content not available"))
         end
     end)
    (fun _ => ret (mkHttp 500 [] (Plain "Failed to fetch broadcast"))).

End BroadcastDetail.

(** ** The feed route *)

Module Feed.

(** The environment variables the feed reads. *)
Record Config := mkConfig {
  VERCEL_URL : option string;
  RSS_FEED_TITLE : option string;
  RSS_FEED_DESCRIPTION : option string }.

Definition quote : string := String "034"%char EmptyString.

Definition newline : string := String "010"%char EmptyString.

(** [str.replace(/c/g, replacement)] for one character [c] and a
    replacement without [$]. Strings are sequences of bytes here; the
    five characters replaced are ASCII, so in a UTF-8 text no part of
    another character is taken for one of them. *)
Fixpoint replaceAll (c : ascii) (replacement : string) (str : string) : string :=
  match str with
  | EmptyString => EmptyString
  | String a rest =>
      if Ascii.eqb a c then replacement +:+ replaceAll c replacement rest
      else String a (replaceAll c replacement rest)
  end.

Definition escapeXml (str : string) : string :=
  replaceAll "'"%char "&apos;"
    (replaceAll "034"%char "&quot;"
       (replaceAll ">"%char "&gt;"
          (replaceAll "<"%char "&lt;"
             (replaceAll "&"%char "&amp;" str)))).

(** [a || b] where [a] is a [string | undefined | null]. *)
Definition orElse (a : option string) (b : string) : string :=
  if truthy a then default b a else b.

Definition baseUrl (config : Config) : string :=
  if truthy (VERCEL_URL config)
  then "https://" +:+ default "" (VERCEL_URL config)
  else "http://localhost:3001".

(** The callback of [broadcasts.map] in [generateRSS];
    [toUTCString d] stands for [new Date(d).toUTCString()]. *)
Definition renderItem (toUTCString : string -> string) (config : Config)
    (broadcast : Broadcast.t) : string :=
  let title :=
    orElse (Broadcast.subject broadcast)
      (orElse (Broadcast.name broadcast) ("Broadcast " +:+ Broadcast.id broadcast)) in
  let pubDate :=
    toUTCString (orElse (Broadcast.sent_at broadcast) (Broadcast.created_at broadcast)) in
  let link := baseUrl config +:+ "/api/broadcast/" +:+ Broadcast.id broadcast in
  let description :=
    if truthy (Broadcast.html broadcast)
    then "<![CDATA[" +:+ default "" (Broadcast.html broadcast) +:+ "]]>"
    else "" in
  "    <item>" +:+ newline
  +:+ "      <title>" +:+ escapeXml title +:+ "</title>" +:+ newline
  +:+ "      <link>" +:+ link +:+ "</link>" +:+ newline
  +:+ "      <guid>" +:+ link +:+ "</guid>" +:+ newline
  +:+ "      <pubDate>" +:+ pubDate +:+ "</pubDate>"
  +:+ (if truthy (Some description)
       then newline +:+ "      <description>" +:+ description +:+ "</description>"
       else "")
  +:+ newline
  +:+ "    </item>".

Definition generateRSS (toUTCString : string -> string) (config : Config)
    (broadcasts : list Broadcast.t) : string :=
  let items := String.concat newline (map (renderItem toUTCString config) broadcasts) in
  let feedTitle := orElse (RSS_FEED_TITLE config) "Newsletter Feed" in
  let feedDescription :=
    orElse (RSS_FEED_DESCRIPTION config) "RSS feed of newsletter broadcasts" in
  "<?xml version=" +:+ quote +:+ "1.0" +:+ quote
  +:+ " encoding=" +:+ quote +:+ "UTF-8" +:+ quote +:+ "?>" +:+ newline
  +:+ "<rss version=" +:+ quote +:+ "2.0" +:+ quote +:+ ">" +:+ newline
  +:+ "  <channel>" +:+ newline
  +:+ "    <title>" +:+ escapeXml feedTitle +:+ "</title>" +:+ newline
  +:+ "    <description>" +:+ escapeXml feedDescription +:+ "</description>" +:+ newline
  +:+ "    <link>" +:+ baseUrl config +:+ "</link>" +:+ newline
  +:+ items +:+ newline
  +:+ "  </channel>" +:+ newline
  +:+ "</rss>".

(** The fields the feed reads of an element of the stored array, when
    the array is not one of broadcasts (JavaScript reads them by name). *)
Definition ofAudience (a : Audience.t) : Broadcast.t :=
  Broadcast.mk (Audience.id a) "" (Some (Audience.name a)) None None None None None
    None None (Audience.created_at a) None None.

Definition ofEmail (e : Email.t) : Broadcast.t :=
  Broadcast.mk (Email.id e) "" None (Some (Email.subject e)) (Some (Email.from e))
    (Email.html e) None None None None (Email.created_at e) None None.

(** [await response.json()] used as an array: [None] when the body is
    not JSON text, or is JSON that is not an array (it has no [map]). *)
Definition asBroadcasts (json : JsonReader) (stored : Blob)
  : option (list Broadcast.t) :=
  match stored with
  | BBroadcasts l => Some l
  | BAudiences l => Some (map ofAudience l)
  | BEmails l => Some (map ofEmail l)
  | BAudience _ | BBroadcast _ | BContent _ _ | BEmail _ => None
  | BText text => broadcastsOfText json text
  end.

(** [{ ...broadcast, html }] where [html] may be [undefined]. *)
Definition setHtml (b : Broadcast.t) (html : option string) : Broadcast.t :=
  Broadcast.mk (Broadcast.id b) (Broadcast.audience_id b) (Broadcast.name b)
    (Broadcast.subject b) (Broadcast.from b) html (Broadcast.text b)
    (Broadcast.reply_to b) (Broadcast.preview_text b) (Broadcast.status b)
    (Broadcast.created_at b) (Broadcast.sent_at b) (Broadcast.scheduled_at b).

(** The callback of [broadcasts.map] in [GET]: the stored broadcast with
    the html of its info record; any failure leaves the broadcast as it
    is (the [catch] is empty). *)
Definition withContent (json : JsonReader) (broadcast : Broadcast.t)
  : IO Broadcast.t :=
  try_catch
    (contentBlob <- read ("rss_broadcast_" +:+ Broadcast.id broadcast +:+ "_info") ;;
     match contentBlob with
     | Some stored =>
         match BroadcastDetail.htmlField json stored with
         | Some html => ret (setHtml broadcast html)
         | None => throw "Unexpected token"
         end
     | None => ret broadcast
     end)
    (fun _ => ret broadcast).

(** [await Promise.all(promises)]; the promises of this route only read
    the store, so the order in which they settle does not matter. *)
Fixpoint all {A} (promises : list (IO A)) : IO (list A) :=
  match promises with
  | [] => ret []
  | promise :: rest =>
      a <- promise ;;
      others <- all rest ;;
      ret (a :: others)
  end.

Definition GET (json : JsonReader) (toUTCString : string -> string)
    (config : Config) : IO HttpResponse :=
  try_catch
    (broadcastsBlob <- read "rss_broadcasts" ;;
     match broadcastsBlob with
     | None =>
         ret (mkHttp 404 [] (ErrorJson "No broadcasts found. Run the cron job first." None))
     | Some stored =>
         match asBroadcasts json stored with
         | None => throw "Unexpected token"
         | Some broadcasts =>
             broadcastsWithContent <- all (map (withContent json) broadcasts) ;;
             let rss := generateRSS toUTCString config broadcastsWithContent in
             ret (mkHttp 200 [("Content-Type", "application/xml")] (Plain rss))
         end
     end)
    (fun _ => ret (mkHttp 500 [] (ErrorJson "Failed to generate RSS feed" None))).

End Feed.

(** ** Vocabulary for the statements *)

(** The upstream calls of a log, in order. *)
Definition fetches (t : list Event) : list Url :=
  omap (fun e => match e with EvFetch u => Some u | _ => None end) t.

(** The storage writes of a log, in order. *)
Definition puts (t : list Event) : list (string * Blob) :=
  omap (fun e => match e with EvPut k v => Some (k, v) | _ => None end) t.

(** The body a log leaves under [key], if it writes there at all. *)
Fixpoint last_write (key : string) (t : list Event) : option Blob :=
  match t with
  | [] => None
  | e :: t' =>
      match last_write key t' with
      | Some v => Some v
      | None =>
          match e with
          | EvPut k v => if decide (k = key) then Some v else None
          | _ => None
          end
      end
  end.

(** A computation that never looks at the store. *)
Definition oblivious {A} (m : IO A) : Prop := forall s s', m s = m s'.

(** Modelled from the spec: what the provider answers to a list call
    with [limit] (section 6: the endpoints are paginated via [limit] and
    [before], with a [has_more] flag) when it holds [all]: the first
    [limit] items, and whether more remain. *)
Definition firstPage {A} (limit : nat) (all : list A) : Page A :=
  mkPage (Some (take limit all)) (Some (bool_decide (limit < length all)%nat)).

(** The list kept by [fetchBroadcasts]. *)
Definition forAudience (audienceId : string) (all : list Broadcast.t) : list Broadcast.t :=
  List.filter (fun b => String.eqb (Broadcast.audience_id b) audienceId) all.

(** The log of steps 1 and 2 of a run (the same in both cron routes)
    when both list calls are answered ok: [A] are the audiences and [B]
    the broadcasts kept. *)
Definition audiencesLog (A : list Audience.t) : list Event :=
  [EvFetch UAudiences; EvSleep 500; EvPut "rss_audiences" (BAudiences A)]
  ++ map (fun a => EvPut ("rss_audience_" +:+ Audience.id a) (BAudience a)) A.

Definition broadcastsLog (B : list Broadcast.t) : list Event :=
  [EvFetch UBroadcasts; EvSleep 500; EvPut "rss_broadcasts" (BBroadcasts B)]
  ++ map (fun b => EvPut ("rss_broadcast_" +:+ Broadcast.id b) (BBroadcast b)) B.

(** The writes of step 3 of the historical route. *)
Definition emailsLog (N All : list Email.t) : list Event :=
  EvPut "rss_emails" (BEmails All)
  :: map (fun e => EvPut ("rss_email_" +:+ Email.id e) (BEmail e)) N
  ++ match All with
     | first :: _ => [EvPut "rss_last_email_id" (BText (Email.id first))]
     | [] => []
     end.

(** Full pagination in the words of the specification (4.2): starting
    from the request with no cursor, pages are requested one after the
    other, the cursor of a request being the id of the oldest item
    already seen, that is, of the last item of the page before it
    (pages come newest first), until a page is empty or reports no more
    pages. A page is recorded with the cursor it was requested with. *)
Inductive FullFetch (up : Upstream)
  : option string -> list (option string * list Email.t) -> Prop :=
| full_fetch_last cursor json :
    emails up cursor = Ok json ->
    items json = [] \/ default false (has_more json) = false ->
    FullFetch up cursor [(cursor, items json)]
| full_fetch_more cursor json oldest pages :
    emails up cursor = Ok json ->
    last (items json) = Some oldest ->
    default false (has_more json) = true ->
    FullFetch up (Some (Email.id oldest)) pages ->
    FullFetch up cursor ((cursor, items json) :: pages).

(** No request of the pagination has the empty text for cursor (the
    ids of the provider are not empty). *)
Definition cursors_present (pages : list (option string * list Email.t)) : Prop :=
  Forall (fun page => fst page <> Some "") pages.

(** The delay of the rate limit is applied after a call when the log
    goes on with a sleep of at least 500 ms before any other upstream
    call (and before the run ends). *)
Fixpoint delayed (after : list Event) : bool :=
  match after with
  | [] => false
  | EvSleep ms :: _ => 500 <=? ms
  | EvFetch _ :: _ => false
  | EvPut _ _ :: rest => delayed rest
  end.

(** Every upstream call of the log is followed by that delay. *)
Fixpoint every_call_delayed (t : list Event) : bool :=
  match t with
  | [] => true
  | EvFetch _ :: rest => delayed rest && every_call_delayed rest
  | _ :: rest => every_call_delayed rest
  end.

(** The time spent sleeping by a log, in milliseconds (a timer with a
    negative delay fires at once). *)
Fixpoint slept (t : list Event) : Z :=
  match t with
  | [] => 0
  | EvSleep ms :: rest => Z.max 0 ms + slept rest
  | _ :: rest => slept rest
  end.

(** What follows a call in the code, by request and answer. *)
Inductive Pace :=
| Sleeps        (* [await sleep(500)] comes right after the call *)
| Aborts        (* the function throws: the run ends there *)
| Unspecified.  (* an ok emails page that is empty *)

Definition pace (up : Upstream) (u : Url) : Pace :=
  match u with
  | UAudiences => match audiences up with Ok _ => Sleeps | NotOk _ => Aborts end
  | UBroadcasts => match broadcasts up with Ok _ => Sleeps | NotOk _ => Aborts end
  | UEmails before =>
      match emails up before with
      | Ok json => match items json with [] => Unspecified | _ :: _ => Sleeps end
      | NotOk _ => Aborts
      end
  | UBroadcast _ | UEmail _ => Sleeps
  end.

Fixpoint rate_limited (up : Upstream) (t : list Event) : bool :=
  match t with
  | [] => true
  | EvFetch u :: rest =>
      match pace up u with
      | Sleeps =>
          match rest with
          | EvSleep ms :: _ => (ms =? 500) && rate_limited up rest
          | _ => false
          end
      | Aborts => match rest with [] => true | _ :: _ => false end
      | Unspecified => rate_limited up rest
      end
  | _ :: rest => rate_limited up rest
  end.

(** A log after which any continuation is judged on its own. *)
Definition settled (up : Upstream) (t : list Event) : Prop :=
  forall t', rate_limited up (t ++ t') = rate_limited up t'.

(** The broadcasts a run keeps, as a function of the configuration and
    the upstream snapshot. *)
Definition kept (env : Env) (up : Upstream) : list Broadcast.t :=
  match broadcasts up with
  | Ok json => forAudience (default "" (RESEND_AUDIENCE_ID env)) (items json)
  | NotOk _ => []
  end.

(** No kept broadcast has for id the id of another one followed by
    [_info] or [_info_md]: the summary key [rss_broadcast_<id>] of one is
    never the info key of another. *)
Definition info_keys_apart (B : list Broadcast.t) : Prop :=
  forall b b', b ∈ B -> b' ∈ B ->
    Broadcast.id b' <> Broadcast.id b +:+ "_info"
    /\ Broadcast.id b' <> Broadcast.id b +:+ "_info_md".

(** The five characters [escapeXml] replaces, the four of them that are
    markup delimiters, and what stands for a character in the escaped
    text. *)
Definition special (a : ascii) : bool :=
  Ascii.eqb a "&" || Ascii.eqb a "<" || Ascii.eqb a ">"
  || Ascii.eqb a "034" || Ascii.eqb a "'".

Definition delimiter (a : ascii) : bool :=
  Ascii.eqb a "<" || Ascii.eqb a ">" || Ascii.eqb a "034" || Ascii.eqb a "'".

Definition entity (a : ascii) : string :=
  if Ascii.eqb a "&" then "&amp;"
  else if Ascii.eqb a "<" then "&lt;"
  else if Ascii.eqb a ">" then "&gt;"
  else if Ascii.eqb a "034" then "&quot;"
  else if Ascii.eqb a "'" then "&apos;"
  else String a EmptyString.

(** One pass over a string, each character replaced by [f] of it. *)
Fixpoint flatMap (f : ascii -> string) (str : string) : string :=
  match str with
  | EmptyString => EmptyString
  | String a rest => f a +:+ flatMap f rest
  end.

(** What the feed shows for a stored broadcast: the broadcast with the
    html field of the record under its info key, or the broadcast as it
    is when there is no such record or reading it throws. *)
Definition withStoredHtml (json : JsonReader) (s : Store) (b : Broadcast.t)
  : Broadcast.t :=
  match s !! ("rss_broadcast_" +:+ Broadcast.id b +:+ "_info") with
  | Some stored =>
      match BroadcastDetail.htmlField json stored with
      | Some html => Feed.setHtml b html
      | None => b
      end
  | None => b
  end.

(** [x] is the last element of [l] with its key. *)
Definition last_with_key {A} (key : A -> string) (l : list A) (x : A) : Prop :=
  exists before after,
    l = before ++ x :: after /\ Forall (fun y => key y <> key x) after.

(** ** Sample data for the examples *)

Module Sample.

Definition audience : Audience.t := Audience.mk "a1" "Readers" "2024-01-01T00:00Z".

(** An item of the broadcasts list. *)
Definition summary (id audience_id : string) : Broadcast.t :=
  Broadcast.mk id audience_id (Some "Weekly") None None None None None None None
    "2024-01-01T00:00Z" None None.

(** The details of a broadcast as the historical API gave them. *)
Definition details (id : string) : Broadcast.t :=
  Broadcast.mk id "a1" (Some "Weekly") (Some "Hi") (Some "x@y.com") None None None
    None (Some "sent") "2024-01-01T00:00Z" (Some "2024-01-02T00:00Z") None.

Definition email (id : string) : Email.t :=
  Email.mk id "x@y.com" "Hi" (Some "<p>Hi</p>") "2024-01-02T00:00Z".

Definition env : Env := mkEnv (Some "s3cret") (Some "re_key") (Some "a1").

Definition request : Request := mkRequest (Some "Bearer s3cret").

(** A stand-in for the HTML to Markdown converter. *)
Definition markdown (html : string) : string := html.

Definition page (l : list Email.t) : Response (Page Email.t) :=
  Ok (mkPage (Some l) (Some false)).

(** A mailbox holding [e2] (newest) and [e1], where [before=<id>]
    answers with the emails that are newer than [<id>]. *)
Definition newerThan (before : option string) : Response (Page Email.t) :=
  match before with
  | None => page [email "e2"; email "e1"]
  | Some id => if String.eqb id "e1" then page [email "e2"] else page []
  end.

(** The same mailbox, where [before=<id>] answers with the emails that
    are older than [<id>] (what paginating with the id of the last
    item of a page relies on). *)
Definition olderThan (before : option string) : Response (Page Email.t) :=
  match before with
  | None => page [email "e2"; email "e1"]
  | Some id => if String.eqb id "e2" then page [email "e1"] else page []
  end.

(** A mailbox of three emails served in two pages: the first page
    reports more, and the request with the id of its last email for
    cursor gives the rest. *)
Definition twoPages (before : option string) : Response (Page Email.t) :=
  match before with
  | None => Ok (mkPage (Some [email "e3"; email "e2"]) (Some true))
  | Some id =>
      if String.eqb id "e2" then Ok (mkPage (Some [email "e1"]) (Some false))
      else page []
  end.

(** A mailbox with nothing to return. *)
Definition nothing (before : option string) : Response (Page Email.t) := page [].

Definition upstream (all : list Broadcast.t)
    (emails : option string -> Response (Page Email.t))
    (broadcast : string -> Response Broadcast.t) : Upstream :=
  mkUpstream (Ok (mkPage (Some [audience]) None)) (Ok (mkPage (Some all) None))
    emails broadcast (fun id => Ok (email id)).

Definition twoAudiences : list Broadcast.t := [summary "b1" "a1"; summary "b2" "a2"].

(** The broadcasts [b0] to [b100] of audience [a1]: one more than a
    list call returns. *)
Definition manyBroadcasts : list Broadcast.t :=
  map (fun n => summary ("b" +:+ pretty n) "a1") (seq 0 101).

Definition ok (id : string) : Response Broadcast.t := Ok (details id).

Definition notFound (id : string) : Response Broadcast.t := NotOk 404.

(** A store in which a run wrote the merged collection and was cut
    before it moved the cursor. *)
Definition cutBeforeCursor : Store :=
  <["rss_emails" := BEmails [email "e2"; email "e1"]]>
    (<["rss_last_email_id" := BText "e1"]> ∅).

(** The store after a complete run over the mailbox holding [e1] only. *)
Definition afterFirstEmail : Store :=
  <["rss_emails" := BEmails [email "e1"]]>
    (<["rss_last_email_id" := BText "e1"]> ∅).

(** The details of a broadcast as the current API gives them. *)
Definition okHtml (id : string) : Response Broadcast.t :=
  Ok (Broadcast.with_html (details id) "<p>Hi</p>").

(** Two broadcasts of the configured audience, and a provider whose
    detail call fails for the first of them only. *)
Definition oneAudience : list Broadcast.t := [summary "b1" "a1"; summary "b2" "a1"].

Definition firstFails (id : string) : Response Broadcast.t :=
  if String.eqb id "b1" then NotOk 404 else okHtml id.

(** A mailbox that reports more pages for ever. *)
Definition endless (before : option string) : Response (Page Email.t) :=
  Ok (mkPage (Some [email "e1"]) (Some true)).

(** A stand-in for [new Date(d).toUTCString()]. *)
Definition utc (d : string) : string := d.

(** A stand-in for [JSON.parse] on raw texts: [123] is JSON (a number,
    which has no html field and is not an array), [[]] is the empty
    array, and no other raw text of the examples is JSON. *)
Definition reader : JsonReader :=
  mkJsonReader
    (fun text => if String.eqb text "123" || String.eqb text "[]" then Some None else None)
    (fun text => if String.eqb text "[]" then Some [] else None).

Definition feedConfig : Feed.Config := Feed.mkConfig None None None.

(** A store holding one broadcast and its enriched record. *)
Definition published : Store :=
  <["rss_broadcasts" := BBroadcasts [summary "b1" "a1"]]>
    (<["rss_broadcast_b1_info" :=
         BBroadcast (Broadcast.with_html (details "b1") "<p>Hi</p>")]> ∅).

(** The same store with two more info records: the details of [b2],
    which carry no html, and for [b4] a raw text that is JSON. *)
Definition records : Store :=
  <["rss_broadcast_b2_info" := BBroadcast (details "b2")]>
    (<["rss_broadcast_b4_info" := BText "123"]> published).

(** A store whose collection is the raw text [[]], and a store holding
    a broadcast with an html of its own whose info record is the raw
    text [123]. *)
Definition rawCollection : Store := <["rss_broadcasts" := BText "[]"]> ∅.

Definition rawRecord : Store :=
  <["rss_broadcasts" := BBroadcasts [Broadcast.with_html (summary "b4" "a1") "<p>own</p>"]]>
    (<["rss_broadcast_b4_info" := BText "123"]> ∅).

End Sample.

(** ** Laws of the effect layer *)

Lemma replay_app t1 t2 s : replay (t1 ++ t2) s = replay t2 (replay t1 s).
Proof. apply foldl_app. Qed.

Lemma last_write_app key t1 t2 :
  last_write key (t1 ++ t2) =
  match last_write key t2 with Some v => Some v | None => last_write key t1 end.
Proof.
  induction t1 as [|e t1 IH]; simpl.
  - by destruct (last_write key t2).
  - rewrite IH. by destruct (last_write key t2).
Qed.

Lemma replay_lookup t s key :
  replay t s !! key =
  match last_write key t with Some v => Some v | None => s !! key end.
Proof.
  revert s. induction t as [|e t IH]; intros s; [done|].
  change (replay (e :: t) s) with (replay t (write s e)).
  rewrite IH. simpl. destruct (last_write key t); [done|].
  destruct e as [u|ms|k v]; simpl; try done.
  destruct (decide (k = key)) as [->|Hne].
  - apply lookup_insert_eq.
  - by apply lookup_insert_ne.
Qed.

Lemma replay_idempotent t s : replay t (replay t s) = replay t s.
Proof.
  apply map_eq. intros key. rewrite !replay_lookup.
  by destruct (last_write key t).
Qed.

(** Replaying a log over a store that already holds everything the log
    leaves behind changes nothing. *)
Lemma replay_absorbed t s :
  (forall key v, last_write key t = Some v -> s !! key = Some v) ->
  replay t s = s.
Proof.
  intros H. apply map_eq. intros key. rewrite replay_lookup.
  destruct (last_write key t) as [v|] eqn:E; [|done].
  symmetry. by apply H.
Qed.

Lemma last_write_none_puts key t :
  (forall v, (key, v) ∉ puts t) -> last_write key t = None.
Proof.
  induction t as [|e t IH]; intros H; [done|]. simpl.
  rewrite IH.
  - destruct e as [u|ms|k v]; try done.
    destruct (decide (k = key)) as [->|]; [|done].
    exfalso. apply (H v). unfold puts. simpl. left.
  - intros v Hin. apply (H v). unfold puts in *.
    destruct e; simpl; try done. by right.
Qed.

Lemma puts_app t1 t2 : puts (t1 ++ t2) = puts t1 ++ puts t2.
Proof. apply omap_app. Qed.

Lemma fetches_app t1 t2 : fetches (t1 ++ t2) = fetches t1 ++ fetches t2.
Proof. apply omap_app. Qed.

Lemma bind_run {A B} (m : IO A) (f : A -> IO B) s :
  bind m f s =
  match m s with
  | (Return a, t) => (fst (f a (replay t s)), t ++ snd (f a (replay t s)))
  | (Throw e, t) => (Throw e, t)
  | (Diverge, t) => (Diverge, t)
  end.
Proof.
  unfold bind. destruct (m s) as [[a|e|] t]; try done.
  by destruct (f a (replay t s)).
Qed.

Lemma try_catch_ret {A} (m : IO A) (k : string -> A) s :
  try_catch m (fun e => ret (k e)) s =
  match m s with
  | (Throw e, t) => (Return (k e), t)
  | other => other
  end.
Proof.
  unfold try_catch, ret. destruct (m s) as [[a|e|] t]; try done.
  by rewrite app_nil_r.
Qed.

Lemma for_of_put_run {A} (l : list A) (key : A -> string) (body : A -> Blob) s :
  for_of l (fun x => put (key x) (body x)) s =
  (Return tt, map (fun x => EvPut (key x) (body x)) l).
Proof.
  revert s. induction l as [|x l IH]; intros s; [done|].
  simpl. rewrite bind_run. unfold put at 1. by rewrite IH.
Qed.

Lemma puts_map_put {A} (l : list A) (key : A -> string) (body : A -> Blob) :
  puts (map (fun x => EvPut (key x) (body x)) l) = map (fun x => (key x, body x)) l.
Proof. induction l as [|x l IH]; [done|]. simpl. by rewrite <- IH. Qed.

Lemma fetches_map_put {A} (l : list A) (key : A -> string) (body : A -> Blob) :
  fetches (map (fun x => EvPut (key x) (body x)) l) = [].
Proof. induction l as [|x l IH]; [done|]. simpl. by rewrite <- IH. Qed.

Lemma oblivious_ret {A} (a : A) : oblivious (ret a).
Proof. done. Qed.

Lemma oblivious_throw {A} (message : string) : oblivious (@throw A message).
Proof. done. Qed.

Lemma oblivious_sleep ms : oblivious (sleep ms).
Proof. done. Qed.

Lemma oblivious_put key body : oblivious (put key body).
Proof. done. Qed.

Lemma oblivious_fetch {A} (u : Url) (answer : Response A) : oblivious (fetch u answer).
Proof. done. Qed.

Lemma oblivious_bind {A B} (m : IO A) (f : A -> IO B) :
  oblivious m -> (forall a, oblivious (f a)) -> oblivious (bind m f).
Proof.
  intros Hm Hf s s'. rewrite !bind_run, (Hm s s').
  destruct (m s') as [[a|e|] t]; try done.
  by rewrite (Hf a (replay t s) (replay t s')).
Qed.

Lemma oblivious_for_of {A} (l : list A) (body : A -> IO unit) :
  (forall x, oblivious (body x)) -> oblivious (for_of l body).
Proof.
  intros Hb. induction l as [|x l IH]; [done|].
  simpl. apply oblivious_bind; [apply Hb|]. intros _. apply IH.
Qed.

Lemma oblivious_try_catch {A} (m : IO A) (h : string -> IO A) :
  oblivious m -> (forall e, oblivious (h e)) -> oblivious (try_catch m h).
Proof.
  intros Hm Hh s s'. unfold try_catch. rewrite (Hm s s').
  destruct (m s') as [[a|e|] t]; try done.
  by rewrite (Hh e (replay t s) (replay t s')).
Qed.

Create HintDb oblivious.
#[local] Hint Resolve oblivious_ret oblivious_throw oblivious_sleep oblivious_put
  oblivious_fetch : oblivious.

(** Store obliviousness follows the shape of the code: every construct
    but [read] preserves it. *)
Ltac oblivious_step :=
  match goal with
  | |- oblivious (bind _ _) => apply oblivious_bind
  | |- oblivious (for_of _ _) => apply oblivious_for_of
  | |- oblivious (try_catch _ _) => apply oblivious_try_catch
  | |- oblivious (match ?x with _ => _ end) => destruct x
  | |- forall _, _ => intro
  | |- oblivious _ => solve [auto with oblivious]
  end.

Ltac oblivious_tac := repeat oblivious_step.

Lemma log_bind {A B} (m : IO A) (f : A -> IO B) s :
  log_of (bind m f) s =
  log_of m s ++
  match result_of m s with
  | Return a => log_of (f a) (replay (log_of m s) s)
  | _ => []
  end.
Proof.
  unfold log_of, result_of. rewrite bind_run.
  destruct (m s) as [[a|e|] t]; simpl; by rewrite ?app_nil_r.
Qed.

Lemma log_try_catch_prefix {A} (m : IO A) (h : string -> IO A) s :
  exists t, log_of (try_catch m h) s = log_of m s ++ t.
Proof.
  unfold log_of, try_catch. destruct (m s) as [[a|e|] t]; simpl.
  - exists []. by rewrite app_nil_r.
  - destruct (h e (replay t s)) as [r t']. by exists t'.
  - exists []. by rewrite app_nil_r.
Qed.

(** ** The trigger's authorization check *)

Lemma authorized_spec env request :
  authorized env request = true <->
  authorization request = Some (bearer (CRON_SECRET env)).
Proof. unfold authorized. apply bool_decide_eq_true. Qed.

Lemma GET_historical_authorized turndown fuel env up request :
  authorized env request = true ->
  truthy (RESEND_API_KEY env) = true ->
  truthy (RESEND_AUDIENCE_ID env) = true ->
  CronHistorical.GET turndown fuel env up request =
  try_catch
    (CronHistorical.sync turndown fuel up (default "" (RESEND_AUDIENCE_ID env)))
    (fun message => ret (sync_failed message)).
Proof. intros Ha Hk Hi. unfold CronHistorical.GET. by rewrite Ha, Hk, Hi. Qed.

Lemma GET_current_authorized turndown env up request :
  authorized env request = true ->
  truthy (RESEND_API_KEY env) = true ->
  truthy (RESEND_AUDIENCE_ID env) = true ->
  Cron.GET turndown env up request =
  try_catch
    (Cron.sync turndown up (default "" (RESEND_AUDIENCE_ID env)))
    (fun message => ret (sync_failed message)).
Proof. intros Ha Hk Hi. unfold Cron.GET. by rewrite Ha, Hk, Hi. Qed.

(** C8. A request whose Authorization header differs from
    [Bearer <CRON_SECRET>] is answered 401 by both cron routes, and the
    handler has then made no upstream call and no storage write: its log
    is empty and the store is the one it started in. *)
Theorem unauthorized_request_is_rejected_without_effects
    turndown fuel env up request (s : Store) :
  authorization request <> Some (bearer (CRON_SECRET env)) ->
  (result_of (CronHistorical.GET turndown fuel env up request) s = Return unauthorized
   /\ log_of (CronHistorical.GET turndown fuel env up request) s = []
   /\ store_after (CronHistorical.GET turndown fuel env up request) s = s)
  /\ (result_of (Cron.GET turndown env up request) s = Return unauthorized
      /\ log_of (Cron.GET turndown env up request) s = []
      /\ store_after (Cron.GET turndown env up request) s = s)
  /\ status unauthorized = 401.
Proof.
  intros Hne.
  assert (Hau : authorized env request = false).
  { destruct (authorized env request) eqn:E; [|done].
    by apply authorized_spec in E. }
  unfold store_after, log_of, result_of, CronHistorical.GET, Cron.GET.
  rewrite Hau. simpl. done.
Qed.

Lemma unauthorized_request_is_rejected_without_effects_witness :
  let env := mkEnv (Some "s3cret") (Some "key") (Some "aud") in
  let up := mkUpstream (NotOk 500) (NotOk 500) (fun _ => NotOk 500)
              (fun _ => NotOk 500) (fun _ => NotOk 500) in
  let request := mkRequest (Some "Bearer guess") in
  result_of (CronHistorical.GET (fun h => h) 3 env up request) ∅ = Return unauthorized
  /\ log_of (Cron.GET (fun h => h) env up request) ∅ = [].
Proof.
  intros env up request.
  pose proof (unauthorized_request_is_rejected_without_effects
                (fun h => h) 3%nat env up request ∅) as H.
  destruct H as [[H1 _] [[_ [H2 _]] _]]; [discriminate|].
  split; [exact H1 | exact H2].
Defined.

(** C9. With [CRON_SECRET] unset the header is compared with the literal
    string [Bearer undefined]: a request carrying exactly that header is
    authorized, and, the API key and audience id being configured, both
    handlers start the run (their first effect is the audiences call). *)
Theorem unset_secret_accepts_bearer_undefined
    turndown fuel env up request (s : Store) :
  CRON_SECRET env = None ->
  authorization request = Some "Bearer undefined" ->
  bearer (CRON_SECRET env) = "Bearer undefined"
  /\ authorized env request = true
  /\ (truthy (RESEND_API_KEY env) = true ->
      truthy (RESEND_AUDIENCE_ID env) = true ->
      (exists t, log_of (CronHistorical.GET turndown fuel env up request) s
                 = EvFetch UAudiences :: t)
      /\ (exists t, log_of (Cron.GET turndown env up request) s
                    = EvFetch UAudiences :: t)).
Proof.
  intros Hs Hh.
  assert (Hb : bearer (CRON_SECRET env) = "Bearer undefined") by (by rewrite Hs).
  assert (Ha : authorized env request = true).
  { apply authorized_spec. by rewrite Hb. }
  split; [done|]. split; [done|]. intros Hk Hi. split.
  - rewrite GET_historical_authorized by done.
    destruct (log_try_catch_prefix
                (CronHistorical.sync turndown fuel up (default "" (RESEND_AUDIENCE_ID env)))
                (fun message => ret (sync_failed message)) s) as [t ->].
    unfold CronHistorical.sync, fetchAudiences. rewrite !log_bind. simpl. eauto.
  - rewrite GET_current_authorized by done.
    destruct (log_try_catch_prefix
                (Cron.sync turndown up (default "" (RESEND_AUDIENCE_ID env)))
                (fun message => ret (sync_failed message)) s) as [t ->].
    unfold Cron.sync, fetchAudiences. rewrite !log_bind. simpl. eauto.
Qed.

Lemma unset_secret_accepts_bearer_undefined_witness :
  authorized (mkEnv None (Some "key") (Some "aud"))
             (mkRequest (Some "Bearer undefined")) = true.
Proof.
  pose proof (unset_secret_accepts_bearer_undefined (fun h => h) 1%nat
                (mkEnv None (Some "key") (Some "aud"))
                (mkUpstream (NotOk 500) (NotOk 500) (fun _ => NotOk 500)
                   (fun _ => NotOk 500) (fun _ => NotOk 500))
                (mkRequest (Some "Bearer undefined")) ∅ eq_refl eq_refl) as H.
  exact (proj1 (proj2 H)).
Defined.

(** ** The broadcast detail route *)

Lemma detail_route_run json id (s : Store) :
  BroadcastDetail.GET json id s =
  (Return
     match s !! BroadcastDetail.infoKey id with
     | None => mkHttp 404 [] (Plain "Broadcast not found")
     | Some stored =>
         match BroadcastDetail.htmlField json stored with
         | None => mkHttp 500 [] (Plain "Failed to fetch broadcast")
         | Some html =>
             if truthy html
             then mkHttp 200 [("Content-Type", "text/html")] (Plain (default "" html))
             else mkHttp 404 [] (Plain "HTML content not available")
         end
     end, []).
Proof.
  unfold BroadcastDetail.GET.
  rewrite try_catch_ret, bind_run. unfold read. cbn [fst snd replay foldl app].
  destruct (s !! BroadcastDetail.infoKey id) as [stored|]; [|done].
  destruct (BroadcastDetail.htmlField json stored) as [html|]; [|done].
  by destruct (truthy html).
Qed.

(** A stored record with a non-empty html field is served as HTML. *)
Lemma detail_route_serves_html json id (s : Store) stored html :
  s !! BroadcastDetail.infoKey id = Some stored ->
  BroadcastDetail.htmlField json stored = Some (Some html) ->
  html <> "" ->
  BroadcastDetail.GET json id s
  = (Return (mkHttp 200 [("Content-Type", "text/html")] (Plain html)), []).
Proof.
  intros Hs Hf Hne. unfold BroadcastDetail.GET.
  rewrite try_catch_ret, bind_run. unfold read. simpl.
  rewrite Hs. simpl. rewrite Hf. simpl.
  destruct (String.eqb_spec html ""); done.
Qed.

(** C10. The detail route answers 404 [Broadcast not found] when nothing
    is stored under the info key of the requested id, and also 404
    ([HTML content not available]) when a record is stored there that
    has no html field, or an empty one; it serves a record with a
    non-empty html field as [text/html], with status 200 and that HTML
    for body; and whenever it answers with the [text/html] content
    type, the stored record carries a non-empty html field and the body
    is that HTML, with status 200. *)
Theorem detail_route_404_unless_html json (id : string) (s : Store) :
  (s !! BroadcastDetail.infoKey id = None ->
   BroadcastDetail.GET json id s
   = (Return (mkHttp 404 [] (Plain "Broadcast not found")), []))
  /\ (forall stored,
        s !! BroadcastDetail.infoKey id = Some stored ->
        BroadcastDetail.htmlField json stored = Some None
        \/ BroadcastDetail.htmlField json stored = Some (Some "") ->
        BroadcastDetail.GET json id s
        = (Return (mkHttp 404 [] (Plain "HTML content not available")), []))
  /\ (forall stored html,
        s !! BroadcastDetail.infoKey id = Some stored ->
        BroadcastDetail.htmlField json stored = Some (Some html) ->
        html <> "" ->
        BroadcastDetail.GET json id s
        = (Return (mkHttp 200 [("Content-Type", "text/html")] (Plain html)), []))
  /\ (forall response,
        result_of (BroadcastDetail.GET json id) s = Return response ->
        headers response = [("Content-Type", "text/html")] ->
        exists stored html,
          s !! BroadcastDetail.infoKey id = Some stored
          /\ BroadcastDetail.htmlField json stored = Some (Some html)
          /\ html <> ""
          /\ response = mkHttp 200 [("Content-Type", "text/html")] (Plain html)).
Proof.
  split; [|split; [|split]].
  - intros Hs. by rewrite detail_route_run, Hs.
  - intros stored Hs [Hf|Hf]; by rewrite detail_route_run, Hs, Hf.
  - intros stored html. apply detail_route_serves_html.
  - intros response. unfold result_of. rewrite detail_route_run. cbn [fst].
    destruct (s !! _) as [stored|]; [|intros [= <-]; discriminate].
    destruct (BroadcastDetail.htmlField json stored) as [[html|]|] eqn:Ef; simpl;
      try (intros [= <-]; discriminate).
    destruct (String.eqb html "") eqn:Ee; simpl; intros [= <-]; [discriminate|].
    intros _. exists stored, html. repeat split; try done.
    intros ->. discriminate.
Qed.

Lemma detail_route_404_unless_html_witness :
  BroadcastDetail.GET Sample.reader "b3" Sample.records
  = (Return (mkHttp 404 [] (Plain "Broadcast not found")), [])
  /\ BroadcastDetail.GET Sample.reader "b2" Sample.records
     = (Return (mkHttp 404 [] (Plain "HTML content not available")), [])
  /\ BroadcastDetail.GET Sample.reader "b4" Sample.records
     = (Return (mkHttp 404 [] (Plain "HTML content not available")), [])
  /\ BroadcastDetail.GET Sample.reader "b1" Sample.records
     = (Return (mkHttp 200 [("Content-Type", "text/html")] (Plain "<p>Hi</p>")), []).
Proof.
  split; [|split; [|split]].
  - apply (proj1 (detail_route_404_unless_html Sample.reader "b3" Sample.records)).
    reflexivity.
  - apply (proj1 (proj2 (detail_route_404_unless_html Sample.reader "b2" Sample.records))
             (BBroadcast (Sample.details "b2"))); [reflexivity|left; reflexivity].
  - apply (proj1 (proj2 (detail_route_404_unless_html Sample.reader "b4" Sample.records))
             (BText "123")); [reflexivity|left; reflexivity].
  - apply (proj1 (proj2 (proj2
             (detail_route_404_unless_html Sample.reader "b1" Sample.records)))
             (BBroadcast (Broadcast.with_html (Sample.details "b1") "<p>Hi</p>")));
      [reflexivity|reflexivity|discriminate].
Defined.

(** ** Runs of the API client *)

Lemma fetchAudiences_run up s :
  fetchAudiences up s =
  match audiences up with
  | Ok json => (Return (items json), [EvFetch UAudiences; EvSleep 500])
  | NotOk status =>
      (Throw ("Failed to fetch audiences: " +:+ pretty status), [EvFetch UAudiences])
  end.
Proof. unfold fetchAudiences. rewrite bind_run. simpl. by destruct (audiences up). Qed.

Lemma fetchBroadcasts_run up audienceId s :
  fetchBroadcasts up audienceId s =
  match broadcasts up with
  | Ok json =>
      (Return (forAudience audienceId (items json)), [EvFetch UBroadcasts; EvSleep 500])
  | NotOk status =>
      (Throw ("Failed to fetch broadcasts: " +:+ pretty status), [EvFetch UBroadcasts])
  end.
Proof. unfold fetchBroadcasts. rewrite bind_run. simpl. by destruct (broadcasts up). Qed.

Lemma fetchBroadcastDetails_run up id s :
  fetchBroadcastDetails up id s =
  (Return (match broadcast up id with Ok json => Some json | NotOk _ => None end),
   [EvFetch (UBroadcast id); EvSleep 500]).
Proof. unfold fetchBroadcastDetails. rewrite bind_run. simpl. by destruct (broadcast up id). Qed.

Lemma fetchEmailDetails_run up id s :
  CronHistorical.fetchEmailDetails up id s =
  (Return (match email up id with Ok json => Some json | NotOk _ => None end),
   [EvFetch (UEmail id); EvSleep 500]).
Proof.
  unfold CronHistorical.fetchEmailDetails. rewrite bind_run. simpl.
  by destruct (email up id).
Qed.

(** One iteration of the current route's enrichment loop. *)
Lemma storeOne_run turndown up b s :
  Cron.storeOne turndown up b s =
  (Return tt,
   [EvFetch (UBroadcast (Broadcast.id b)); EvSleep 500]
   ++ match broadcast up (Broadcast.id b) with
      | Ok details =>
          if truthy (Broadcast.html details) then
            [EvPut (Cron.infoKey (Broadcast.id b)) (BBroadcast details);
             EvPut (Cron.infoMdKey (Broadcast.id b))
               (BContent details (turndown (default "" (Broadcast.html details))))]
          else []
      | NotOk _ => []
      end).
Proof.
  unfold Cron.storeOne. rewrite bind_run, fetchBroadcastDetails_run.
  destruct (broadcast up (Broadcast.id b)) as [details|st]; [|done].
  destruct (truthy (Broadcast.html details)); done.
Qed.

(** One iteration of the historical route's correlation loop. *)
Lemma matchOne_run turndown up emails b s :
  CronHistorical.matchOne turndown up emails b s =
  (Return tt,
   [EvFetch (UBroadcast (Broadcast.id b)); EvSleep 500]
   ++ match broadcast up (Broadcast.id b) with
      | Ok details =>
          if negb (truthy (Broadcast.subject details))
             || negb (truthy (Broadcast.from details))
          then []
          else
            match CronHistorical.findMatchingEmail details emails with
            | Some matching =>
                [EvFetch (UEmail (Email.id matching)); EvSleep 500]
                ++ match email up (Email.id matching) with
                   | Ok found =>
                       if truthy (Email.html found) then
                         let html := default "" (Email.html found) in
                         [EvPut (CronHistorical.infoKey (Broadcast.id b))
                            (BBroadcast (Broadcast.with_html details html));
                          EvPut (CronHistorical.infoMdKey (Broadcast.id b))
                            (BContent details (turndown html))]
                       else []
                   | NotOk _ => []
                   end
            | None => []
            end
      | NotOk _ => []
      end).
Proof.
  unfold CronHistorical.matchOne. rewrite bind_run, fetchBroadcastDetails_run.
  destruct (broadcast up (Broadcast.id b)) as [details|st]; [|done].
  cbn [fst snd].
  destruct (negb (truthy (Broadcast.subject details))
            || negb (truthy (Broadcast.from details))); [done|].
  destruct (CronHistorical.findMatchingEmail details emails) as [matching|]; [|done].
  rewrite bind_run, fetchEmailDetails_run.
  destruct (email up (Email.id matching)) as [found|st]; [|done].
  destruct (truthy (Email.html found)); done.
Qed.

Lemma for_of_run {A} (l : list A) (body : A -> IO unit) (log : A -> list Event) s :
  (forall x s', body x s' = (Return tt, log x)) ->
  for_of l body s = (Return tt, concat (map log l)).
Proof.
  intros Hb. revert s. induction l as [|x l IH]; intros s; [done|].
  simpl. rewrite bind_run, Hb. simpl. by rewrite IH.
Qed.

Lemma matchOne_closed turndown up emails b s :
  CronHistorical.matchOne turndown up emails b s =
  (Return tt, log_of (CronHistorical.matchOne turndown up emails b) ∅).
Proof. unfold log_of. by rewrite !matchOne_run. Qed.

Lemma storeOne_closed turndown up b s :
  Cron.storeOne turndown up b s = (Return tt, log_of (Cron.storeOne turndown up b) ∅).
Proof. unfold log_of. by rewrite !storeOne_run. Qed.

Lemma matchAndStore_run turndown up B N s :
  CronHistorical.matchAndStore turndown up B N s =
  (Return tt,
   concat (map (fun b => log_of (CronHistorical.matchOne turndown up N b) ∅) B)).
Proof. apply for_of_run. intros. apply matchOne_closed. Qed.

Lemma fetchAndStore_run turndown up B s :
  Cron.fetchAndStoreBroadcastsWithHtml turndown up B s =
  (Return tt, concat (map (fun b => log_of (Cron.storeOne turndown up b) ∅) B)).
Proof. apply for_of_run. intros. apply storeOne_closed. Qed.

(** The pagination loop neither reads nor writes the store. *)
Lemma emailsLoop_oblivious fuel up lastEmailId currentLastId newEmails :
  oblivious (CronHistorical.emailsLoop fuel up lastEmailId currentLastId newEmails).
Proof.
  revert currentLastId newEmails.
  induction fuel as [|fuel IH]; intros currentLastId newEmails s s'; [done|].
  simpl. rewrite !bind_run. unfold fetch. cbn [fst snd].
  destruct (emails up _) as [json|st]; [|done].
  destruct (items json) as [|e es]; [done|].
  destruct (truthy lastEmailId); [done|].
  rewrite !bind_run. unfold sleep. cbn [fst snd].
  destruct (default false (has_more json)); [|done].
  by rewrite (IH _ _ (replay [EvSleep 500] (replay [EvFetch (UEmails (CronHistorical.beforeParam currentLastId))] s))
               (replay [EvSleep 500] (replay [EvFetch (UEmails (CronHistorical.beforeParam currentLastId))] s'))).
Qed.

Lemma emailsLoop_puts fuel up lastEmailId currentLastId newEmails s :
  puts (log_of (CronHistorical.emailsLoop fuel up lastEmailId currentLastId newEmails) s) = [].
Proof.
  revert currentLastId newEmails s.
  induction fuel as [|fuel IH]; intros currentLastId newEmails s; [done|].
  simpl. rewrite log_bind. unfold fetch at 1 2. unfold result_of, log_of. cbn [fst snd].
  rewrite puts_app. simpl.
  destruct (emails up _) as [json|st]; [|done].
  destruct (items json) as [|e es]; [done|].
  destruct (truthy lastEmailId); [done|].
  rewrite bind_run. unfold sleep. cbn [fst snd]. rewrite puts_app. simpl.
  destruct (default false (has_more json)); [|done].
  apply IH.
Qed.

Lemma replay_no_puts t s : puts t = [] -> replay t s = s.
Proof.
  intros H. apply replay_absorbed. intros key v Hl.
  rewrite last_write_none_puts in Hl; [done|].
  intros v'. rewrite H. by inversion 1.
Qed.

(** ** The correlator *)

Lemma sameSubjectAndFrom_spec details email subject from :
  Broadcast.subject details = Some subject ->
  Broadcast.from details = Some from ->
  CronHistorical.sameSubjectAndFrom details email = true <->
  Email.subject email = subject /\ Email.from email = from.
Proof.
  intros Hs Hf. unfold CronHistorical.sameSubjectAndFrom.
  rewrite Hs, Hf, andb_true_iff, !bool_decide_eq_true. split.
  - intros [[= ->] [= ->]]. done.
  - intros [-> ->]. done.
Qed.

(** [find] returns the first element that satisfies the predicate. *)
Lemma find_first {A} (p : A -> bool) (l : list A) :
  match List.find p l with
  | Some x => exists before after,
      l = before ++ x :: after /\ p x = true /\ Forall (fun y => p y = false) before
  | None => Forall (fun y => p y = false) l
  end.
Proof.
  induction l as [|y l IH]; simpl; [done|].
  destruct (p y) eqn:Ey.
  - exists [], l. done.
  - destruct (List.find p l) as [x|].
    + destruct IH as (before & after & -> & Hx & Hb).
      exists (y :: before), after. repeat split; try done. by constructor.
    + by constructor.
Qed.

(** C3. For a broadcast whose subject and from are present, an email
    matches exactly when its subject and its from equal the
    broadcast's; the correlator selects an email iff the collection
    holds a matching one, and the email selected is the first matching
    one in the order of the collection. In the loop, the email whose
    details are then requested is the selected one. *)
Theorem correlator_selects_first_exact_match
    (details : Broadcast.t) (emails : list Email.t) (subject from : string) :
  Broadcast.subject details = Some subject ->
  Broadcast.from details = Some from ->
  (forall email,
     CronHistorical.sameSubjectAndFrom details email = true <->
     Email.subject email = subject /\ Email.from email = from)
  /\ (forall turndown up listed s,
        broadcast up (Broadcast.id listed) = Ok details ->
        subject <> "" -> from <> "" ->
        fetches (log_of (CronHistorical.matchOne turndown up emails listed) s)
        = UBroadcast (Broadcast.id listed)
          :: match CronHistorical.findMatchingEmail details emails with
             | Some selected => [UEmail (Email.id selected)]
             | None => []
             end)
  /\ match CronHistorical.findMatchingEmail details emails with
     | Some selected =>
         exists before after,
           emails = before ++ selected :: after
           /\ Email.subject selected = subject /\ Email.from selected = from
           /\ Forall (fun e => ~ (Email.subject e = subject /\ Email.from e = from))
                before
     | None =>
         Forall (fun e => ~ (Email.subject e = subject /\ Email.from e = from)) emails
     end.
Proof.
  intros Hs Hf.
  assert (Hno : forall l,
    Forall (fun y => CronHistorical.sameSubjectAndFrom details y = false) l ->
    Forall (fun e => ~ (Email.subject e = subject /\ Email.from e = from)) l).
  { intros l Hl. eapply Forall_impl; [exact Hl|]. intros e He Habs. simpl in He.
    apply (sameSubjectAndFrom_spec details e subject from Hs Hf) in Habs. congruence. }
  split; [intros email; by apply sameSubjectAndFrom_spec|].
  split.
  { intros turndown up listed s Hd Hsne Hfne.
    unfold log_of. rewrite matchOne_run, Hd, Hs, Hf. cbn [snd truthy].
    destruct (String.eqb_spec subject ""); [done|].
    destruct (String.eqb_spec from ""); [done|]. cbn [negb orb].
    destruct (CronHistorical.findMatchingEmail details emails) as [selected|]; [|done].
    destruct (email up (Email.id selected)) as [found|st]; [|done].
    by destruct (truthy (Email.html found)). }
  unfold CronHistorical.findMatchingEmail.
  pose proof (find_first (CronHistorical.sameSubjectAndFrom details) emails) as H.
  destruct (List.find _ emails) as [selected|].
  - destruct H as (before & after & -> & Hx & Hb).
    apply (sameSubjectAndFrom_spec details selected subject from Hs Hf) in Hx.
    exists before, after. destruct Hx. repeat split; try done. by apply Hno.
  - by apply Hno.
Qed.

Lemma correlator_selects_first_exact_match_witness :
  let details := Broadcast.mk "b1" "a1" None (Some "Hi") (Some "x@y.com") None None
                   None None None "2024-01-01" None None in
  let e1 := Email.mk "e1" "x@y.com" "Other" None "2024-01-03" in
  let e2 := Email.mk "e2" "x@y.com" "Hi" None "2024-01-02" in
  let e3 := Email.mk "e3" "x@y.com" "Hi" None "2024-01-01" in
  CronHistorical.findMatchingEmail details [e1; e2; e3] = Some e2
  /\ (CronHistorical.sameSubjectAndFrom details e3 = true <->
      Email.subject e3 = "Hi" /\ Email.from e3 = "x@y.com").
Proof.
  intros details e1 e2 e3. split; [reflexivity|].
  apply (proj1 (correlator_selects_first_exact_match details [e1; e2; e3]
                  "Hi" "x@y.com" eq_refl eq_refl)).
Defined.

(** ** Storage keys *)

Lemma elem_of_puts_map {A} (l : list A) (key : A -> string) (body : A -> Blob) k v :
  (k, v) ∈ puts (map (fun x => EvPut (key x) (body x)) l) ->
  exists x, x ∈ l /\ k = key x /\ v = body x.
Proof.
  rewrite puts_map_put, list_elem_of_fmap. intros (x & [= -> ->] & Hx). eauto.
Qed.

Lemma puts_audiencesLog A k v :
  (k, v) ∈ puts (audiencesLog A) ->
  k = "rss_audiences" \/ exists a, a ∈ A /\ k = "rss_audience_" +:+ Audience.id a.
Proof.
  unfold audiencesLog. rewrite puts_app, elem_of_app. intros [H|H].
  - left. apply list_elem_of_singleton in H. congruence.
  - right. apply elem_of_puts_map in H as (a & Ha & -> & _). eauto.
Qed.

Lemma puts_broadcastsLog B k v :
  (k, v) ∈ puts (broadcastsLog B) ->
  k = "rss_broadcasts" \/ exists b, b ∈ B /\ k = "rss_broadcast_" +:+ Broadcast.id b.
Proof.
  unfold broadcastsLog. rewrite puts_app, elem_of_app. intros [H|H].
  - left. apply list_elem_of_singleton in H. congruence.
  - right. apply elem_of_puts_map in H as (b & Hb & -> & _). eauto.
Qed.

Lemma puts_emailsLog N All k v :
  (k, v) ∈ puts (emailsLog N All) ->
  k = "rss_emails" \/ k = "rss_last_email_id"
  \/ exists e, e ∈ N /\ k = "rss_email_" +:+ Email.id e.
Proof.
  unfold emailsLog.
  change (EvPut "rss_emails" (BEmails All) :: ?t) with ([EvPut "rss_emails" (BEmails All)] ++ t).
  rewrite !puts_app, !elem_of_app. intros [H|[H|H]].
  - left. apply list_elem_of_singleton in H. congruence.
  - right. right. apply elem_of_puts_map in H as (e & He & -> & _). eauto.
  - right. left. destruct All as [|first rest]; [by inversion H|].
    apply list_elem_of_singleton in H. congruence.
Qed.

(** Steps 1 and 2 leave the email collection and the cursor alone. *)
Lemma storedEmails_after_lists A B s :
  CronHistorical.storedEmails (replay (audiencesLog A ++ broadcastsLog B) s)
  = CronHistorical.storedEmails s.
Proof.
  unfold CronHistorical.storedEmails. rewrite replay_lookup, last_write_none_puts; [done|].
  intros v. rewrite puts_app, elem_of_app.
  intros [H|H].
  - apply puts_audiencesLog in H as [H|(a & _ & H)]; simpl in H; discriminate.
  - apply puts_broadcastsLog in H as [H|(b & _ & H)]; simpl in H; discriminate.
Qed.

Lemma storedLastEmailId_after_lists A B s :
  CronHistorical.storedLastEmailId (replay (audiencesLog A ++ broadcastsLog B) s)
  = CronHistorical.storedLastEmailId s.
Proof.
  unfold CronHistorical.storedLastEmailId.
  rewrite replay_lookup, last_write_none_puts; [done|].
  intros v. rewrite puts_app, elem_of_app.
  intros [H|H].
  - apply puts_audiencesLog in H as [H|(a & _ & H)]; simpl in H; discriminate.
  - apply puts_broadcastsLog in H as [H|(b & _ & H)]; simpl in H; discriminate.
Qed.

(** ** Normal forms of the runs *)

Lemma put_run key body s : put key body s = (Return tt, [EvPut key body]).
Proof. done. Qed.

(** Steps 1 and 2, followed by any continuation [K]. *)
Lemma lists_run up audienceId
    (K : list Audience.t -> list Broadcast.t -> IO HttpResponse) s :
  (audiences <- fetchAudiences up ;;
   put "rss_audiences" (BAudiences audiences) ;;
   for_of audiences
     (fun audience => put ("rss_audience_" +:+ Audience.id audience) (BAudience audience)) ;;
   broadcasts <- fetchBroadcasts up audienceId ;;
   put "rss_broadcasts" (BBroadcasts broadcasts) ;;
   for_of broadcasts
     (fun broadcast => put ("rss_broadcast_" +:+ Broadcast.id broadcast) (BBroadcast broadcast)) ;;
   K audiences broadcasts) s =
  match audiences up with
  | NotOk st => (Throw ("Failed to fetch audiences: " +:+ pretty st), [EvFetch UAudiences])
  | Ok pa =>
      let A := items pa in
      match broadcasts up with
      | NotOk st =>
          (Throw ("Failed to fetch broadcasts: " +:+ pretty st),
           audiencesLog A ++ [EvFetch UBroadcasts])
      | Ok pb =>
          let B := forAudience audienceId (items pb) in
          let t0 := audiencesLog A ++ broadcastsLog B in
          (fst (K A B (replay t0 s)), t0 ++ snd (K A B (replay t0 s)))
      end
  end.
Proof.
  rewrite bind_run, fetchAudiences_run.
  destruct (audiences up) as [pa|st]; [|done].
  rewrite bind_run, put_run. cbn [fst snd].
  rewrite bind_run, for_of_put_run. cbn [fst snd].
  rewrite bind_run, fetchBroadcasts_run.
  destruct (broadcasts up) as [pb|st].
  2:{ cbn [fst snd]. unfold audiencesLog. by rewrite <- !app_assoc. }
  cbn [fst snd].
  rewrite bind_run, put_run. cbn [fst snd].
  rewrite bind_run, for_of_put_run. cbn [fst snd].
  rewrite <- !replay_app.
  unfold audiencesLog, broadcastsLog. by rewrite <- !app_assoc.
Qed.

Lemma fetchEmailsIncrementally_run fuel up s :
  CronHistorical.fetchEmailsIncrementally fuel up s =
  let cursor := CronHistorical.storedLastEmailId s in
  match CronHistorical.emailsLoop fuel up cursor cursor [] ∅ with
  | (Return N, tE) => (Return (N, N ++ CronHistorical.storedEmails s), tE)
  | (Throw e, tE) => (Throw e, tE)
  | (Diverge, tE) => (Diverge, tE)
  end.
Proof.
  unfold CronHistorical.fetchEmailsIncrementally,
    CronHistorical.readExistingEmails, CronHistorical.readLastEmailId.
  rewrite !bind_run. cbn [fst snd replay foldl app].
  rewrite (emailsLoop_oblivious fuel up _ _ [] s ∅).
  destruct (CronHistorical.emailsLoop _ _ _ _ _ ∅) as [[N|e|] tE]; try done.
  cbn. by rewrite app_nil_r.
Qed.

(** The whole [try] block of the current route. *)
Lemma sync_current_run turndown up audienceId s :
  Cron.sync turndown up audienceId s =
  match audiences up with
  | NotOk st => (Throw ("Failed to fetch audiences: " +:+ pretty st), [EvFetch UAudiences])
  | Ok pa =>
      let A := items pa in
      match broadcasts up with
      | NotOk st =>
          (Throw ("Failed to fetch broadcasts: " +:+ pretty st),
           audiencesLog A ++ [EvFetch UBroadcasts])
      | Ok pb =>
          let B := forAudience audienceId (items pb) in
          (Return (mkHttp 200 [] (SuccessJson (length A) (length B) None)),
           (audiencesLog A ++ broadcastsLog B)
           ++ concat (map (fun b => log_of (Cron.storeOne turndown up b) ∅) B))
      end
  end.
Proof.
  unfold Cron.sync. rewrite lists_run.
  destruct (audiences up) as [pa|st]; [|done].
  destruct (broadcasts up) as [pb|st]; [|done].
  cbn zeta. rewrite bind_run, fetchAndStore_run. cbn [fst snd ret].
  by rewrite app_nil_r.
Qed.

(** The whole [try] block of the historical route. *)
Lemma sync_historical_run turndown fuel up audienceId s :
  CronHistorical.sync turndown fuel up audienceId s =
  match audiences up with
  | NotOk st => (Throw ("Failed to fetch audiences: " +:+ pretty st), [EvFetch UAudiences])
  | Ok pa =>
      let A := items pa in
      match broadcasts up with
      | NotOk st =>
          (Throw ("Failed to fetch broadcasts: " +:+ pretty st),
           audiencesLog A ++ [EvFetch UBroadcasts])
      | Ok pb =>
          let B := forAudience audienceId (items pb) in
          let t0 := audiencesLog A ++ broadcastsLog B in
          let cursor := CronHistorical.storedLastEmailId s in
          match CronHistorical.emailsLoop fuel up cursor cursor [] ∅ with
          | (Return N, tE) =>
              let All := N ++ CronHistorical.storedEmails s in
              (Return (mkHttp 200 []
                         (SuccessJson (length A) (length B)
                            (Some (length N, length All)))),
               t0 ++ tE ++ emailsLog N All
               ++ log_of (CronHistorical.matchAndStore turndown up B N) ∅)
          | (Throw e, tE) => (Throw e, t0 ++ tE)
          | (Diverge, tE) => (Diverge, t0 ++ tE)
          end
      end
  end.
Proof.
  unfold CronHistorical.sync. rewrite lists_run.
  destruct (audiences up) as [pa|st]; [|done].
  destruct (broadcasts up) as [pb|st]; [|done].
  cbn zeta. rewrite bind_run, fetchEmailsIncrementally_run.
  rewrite storedLastEmailId_after_lists, storedEmails_after_lists. cbn zeta.
  destruct (CronHistorical.emailsLoop _ _ _ _ _ ∅) as [[N|e|] tE]; try done.
  cbn [fst snd].
  rewrite bind_run, put_run. cbn [fst snd].
  rewrite bind_run, for_of_put_run. cbn [fst snd].
  rewrite bind_run.
  assert (Hc : forall s',
    match N ++ CronHistorical.storedEmails s with
    | [] => ret tt
    | first :: _ => put "rss_last_email_id" (BText (Email.id first))
    end s' =
    (Return tt,
     match N ++ CronHistorical.storedEmails s with
     | first :: _ => [EvPut "rss_last_email_id" (BText (Email.id first))]
     | [] => []
     end)).
  { intros s'. by destruct (N ++ CronHistorical.storedEmails s). }
  rewrite Hc. cbn [fst snd].
  rewrite bind_run, matchAndStore_run. cbn [fst snd ret].
  unfold log_of. rewrite matchAndStore_run. cbn [snd].
  unfold emailsLog. rewrite app_nil_r. simpl. by rewrite <- !app_assoc.
Qed.

Lemma log_try_catch_ret {A} (m : IO A) (k : string -> A) s :
  log_of (try_catch m (fun e => ret (k e))) s = log_of m s.
Proof.
  unfold log_of. rewrite try_catch_ret. by destruct (m s) as [[a|e|] t].
Qed.

Lemma store_after_try_catch_ret {A} (m : IO A) (k : string -> A) s :
  store_after (try_catch m (fun e => ret (k e))) s = store_after m s.
Proof. unfold store_after. by rewrite log_try_catch_ret. Qed.

Lemma last_write_absent key t :
  (forall k v, (k, v) ∈ puts t -> k <> key) -> last_write key t = None.
Proof.
  intros H. apply last_write_none_puts. intros v Hin. by apply (H key v).
Qed.

Lemma last_write_puts key t v : last_write key t = Some v -> (key, v) ∈ puts t.
Proof.
  induction t as [|e t IH]; [done|]. intros H. simpl in H.
  change (e :: t) with ([e] ++ t). rewrite puts_app, elem_of_app.
  destruct (last_write key t) as [w|].
  - injection H as ->. right. by apply IH.
  - destruct e as [u|ms|k w]; try done.
    destruct (decide (k = key)) as [->|]; [|done].
    injection H as ->. left. by apply list_elem_of_singleton.
Qed.

Lemma elem_of_puts_concat {A} (l : list A) (log : A -> list Event) k v :
  (k, v) ∈ puts (concat (map log l)) -> exists x, x ∈ l /\ (k, v) ∈ puts (log x).
Proof.
  induction l as [|x l IH]; simpl; [by inversion 1|].
  rewrite puts_app, elem_of_app. intros [H|H].
  - exists x. split; [left|done].
  - destruct (IH H) as (y & Hy & Hin). exists y. split; [by right|done].
Qed.

Lemma puts_storeOne turndown up b k v :
  (k, v) ∈ puts (log_of (Cron.storeOne turndown up b) ∅) ->
  k = Cron.infoKey (Broadcast.id b) \/ k = Cron.infoMdKey (Broadcast.id b).
Proof.
  unfold log_of. rewrite storeOne_run. cbn [snd]. rewrite puts_app, elem_of_app.
  intros [H|H]; [by inversion H|].
  destruct (broadcast up (Broadcast.id b)) as [details|st]; [|by inversion H].
  destruct (truthy (Broadcast.html details)); [|by inversion H].
  apply list_elem_of_In in H. simpl in H.
  destruct H as [[= -> _]|[[= -> _]|[]]]; auto.
Qed.

Lemma puts_matchOne turndown up emails b k v :
  (k, v) ∈ puts (log_of (CronHistorical.matchOne turndown up emails b) ∅) ->
  k = CronHistorical.infoKey (Broadcast.id b)
  \/ k = CronHistorical.infoMdKey (Broadcast.id b).
Proof.
  unfold log_of. rewrite matchOne_run. cbn [snd]. rewrite puts_app, elem_of_app.
  intros [H|H]; [by inversion H|].
  destruct (broadcast up (Broadcast.id b)) as [details|st]; [|by inversion H].
  destruct (negb _ || negb _); [by inversion H|].
  destruct (CronHistorical.findMatchingEmail details emails) as [matching|];
    [|by inversion H].
  rewrite puts_app, elem_of_app in H. destruct H as [H|H]; [by inversion H|].
  destruct (email up (Email.id matching)) as [found|st]; [|by inversion H].
  destruct (truthy (Email.html found)); [|by inversion H].
  apply list_elem_of_In in H. simpl in H.
  destruct H as [[= -> _]|[[= -> _]|[]]]; auto.
Qed.

(** The body left under [rss_broadcasts] by steps 1 and 2. *)
Lemma last_write_broadcasts_broadcastsLog B :
  last_write "rss_broadcasts" (broadcastsLog B) = Some (BBroadcasts B).
Proof.
  unfold broadcastsLog. rewrite last_write_app.
  rewrite (last_write_absent _ (map _ B)); [done|].
  intros k v H. apply elem_of_puts_map in H as (b & _ & -> & _).
  simpl. discriminate.
Qed.

(** Nothing after step 2 writes under [rss_broadcasts]. *)
Lemma last_write_broadcasts_emails N All :
  last_write "rss_broadcasts" (emailsLog N All) = None.
Proof.
  apply last_write_absent. intros k v H.
  apply puts_emailsLog in H as [->|[->|(e & _ & ->)]]; simpl; discriminate.
Qed.

Lemma last_write_broadcasts_match turndown up B N :
  last_write "rss_broadcasts"
    (concat (map (fun b => log_of (CronHistorical.matchOne turndown up N b) ∅) B)) = None.
Proof.
  apply last_write_absent. intros k v H.
  apply elem_of_puts_concat in H as (b & _ & H).
  apply puts_matchOne in H as [->| ->]; simpl; discriminate.
Qed.

Lemma last_write_broadcasts_store turndown up B :
  last_write "rss_broadcasts"
    (concat (map (fun b => log_of (Cron.storeOne turndown up b) ∅) B)) = None.
Proof.
  apply last_write_absent. intros k v H.
  apply elem_of_puts_concat in H as (b & _ & H).
  apply puts_storeOne in H as [->| ->]; simpl; discriminate.
Qed.

Lemma last_write_no_puts key t : puts t = [] -> last_write key t = None.
Proof. intros H. apply last_write_absent. intros k v. rewrite H. by inversion 1. Qed.

Lemma forAudience_spec audienceId all b :
  b ∈ forAudience audienceId all <-> b ∈ all /\ Broadcast.audience_id b = audienceId.
Proof.
  unfold forAudience. rewrite !list_elem_of_In, filter_In.
  by rewrite String.eqb_eq.
Qed.

(** ** Enrichment is best effort *)

Lemma fetches_concat_store turndown up B :
  fetches (concat (map (fun b => log_of (Cron.storeOne turndown up b) ∅) B))
  = map (fun b => UBroadcast (Broadcast.id b)) B.
Proof.
  induction B as [|b B IH]; [done|].
  cbn [map concat]. rewrite fetches_app, IH. unfold log_of. rewrite storeOne_run.
  cbn [snd]. rewrite fetches_app.
  destruct (broadcast up (Broadcast.id b)) as [details|st]; [|done].
  by destruct (truthy (Broadcast.html details)).
Qed.

Lemma fetches_audiencesLog A : fetches (audiencesLog A) = [UAudiences].
Proof. unfold audiencesLog. by rewrite fetches_app, fetches_map_put. Qed.

Lemma fetches_broadcastsLog B : fetches (broadcastsLog B) = [UBroadcasts].
Proof. unfold broadcastsLog. by rewrite fetches_app, fetches_map_put. Qed.

Lemma detail_call_of_each_broadcast turndown up N B b :
  b ∈ B ->
  UBroadcast (Broadcast.id b)
  ∈ fetches (concat (map (fun b => log_of (CronHistorical.matchOne turndown up N b) ∅) B)).
Proof.
  induction B as [|b' B IH]; [by inversion 1|].
  cbn [map concat]. rewrite fetches_app, elem_of_app.
  intros [->|Hin]%elem_of_cons; [left|right; by apply IH].
  unfold log_of. rewrite matchOne_run. cbn [snd]. rewrite fetches_app, elem_of_app.
  left. apply list_elem_of_singleton. done.
Qed.

(** ** The email collection and the cursor *)

Lemma puts_matchAndStore_prefix turndown up B N k v :
  (k, v) ∈ puts (log_of (CronHistorical.matchAndStore turndown up B N) ∅) ->
  exists x, k = "rss_broadcast_" +:+ x.
Proof.
  unfold log_of. rewrite matchAndStore_run. cbn [snd]. intros H.
  apply elem_of_puts_concat in H as (b & _ & H).
  apply puts_matchOne in H as [->| ->]; eauto.
Qed.

Lemma last_write_lists_other key A B :
  key <> "rss_audiences" -> key <> "rss_broadcasts" ->
  (forall x, key <> "rss_audience_" +:+ x) ->
  (forall x, key <> "rss_broadcast_" +:+ x) ->
  last_write key (audiencesLog A ++ broadcastsLog B) = None.
Proof.
  intros H1 H2 H3 H4. apply last_write_absent. intros k v.
  rewrite puts_app, elem_of_app. intros [H|H] ->.
  - apply puts_audiencesLog in H as [H|(a & _ & H)]; [done|by eapply H3].
  - apply puts_broadcastsLog in H as [H|(b & _ & H)]; [done|by eapply H4].
Qed.

Lemma last_write_match_other key turndown up B N :
  (forall x, key <> "rss_broadcast_" +:+ x) ->
  last_write key (log_of (CronHistorical.matchAndStore turndown up B N) ∅) = None.
Proof.
  intros H. apply last_write_absent. intros k v Hin ->.
  apply puts_matchAndStore_prefix in Hin as [x Hx]. by eapply H.
Qed.

Lemma last_write_emails_emailsLog N All :
  last_write "rss_emails" (emailsLog N All) = Some (BEmails All).
Proof.
  unfold emailsLog.
  change (EvPut "rss_emails" (BEmails All) :: ?t) with ([EvPut "rss_emails" (BEmails All)] ++ t).
  rewrite last_write_app, (last_write_absent "rss_emails" (map _ N ++ _)); [done|].
  intros k v. rewrite puts_app, elem_of_app. intros [H|H] ->.
  - apply elem_of_puts_map in H as (e & _ & H & _). simpl in H. discriminate.
  - destruct All; [by inversion H|].
    apply list_elem_of_singleton in H. discriminate.
Qed.

Lemma last_write_cursor_emailsLog N All :
  last_write "rss_last_email_id" (emailsLog N All)
  = match All with
    | first :: _ => Some (BText (Email.id first))
    | [] => None
    end.
Proof.
  unfold emailsLog.
  change (EvPut "rss_emails" (BEmails All) :: ?t) with ([EvPut "rss_emails" (BEmails All)] ++ t).
  assert (Hm : last_write "rss_last_email_id"
                 (map (fun e => EvPut ("rss_email_" +:+ Email.id e) (BEmail e)) N) = None).
  { apply last_write_absent. intros k v H ->.
    apply elem_of_puts_map in H as (e & _ & H & _). simpl in H. discriminate. }
  rewrite !last_write_app, Hm. by destruct All as [|first rest].
Qed.

(** ** The two fetch modes *)

(** One iteration of the pagination loop. *)
Lemma emailsLoop_step fuel up lastEmailId currentLastId newEmails s :
  CronHistorical.emailsLoop (S fuel) up lastEmailId currentLastId newEmails s =
  let before := CronHistorical.beforeParam currentLastId in
  match emails up before with
  | NotOk st =>
      (Throw ("Failed to fetch emails: " +:+ pretty st), [EvFetch (UEmails before)])
  | Ok json =>
      match items json with
      | [] => (Return newEmails, [EvFetch (UEmails before)])
      | _ :: _ =>
          if truthy lastEmailId then
            (Return (newEmails ++ items json), [EvFetch (UEmails before); EvSleep 500])
          else if default false (has_more json) then
            let next :=
              CronHistorical.emailsLoop fuel up lastEmailId
                (CronHistorical.lastId (items json)) (newEmails ++ items json) ∅ in
            (fst next, [EvFetch (UEmails before); EvSleep 500] ++ snd next)
          else
            (Return (newEmails ++ items json), [EvFetch (UEmails before); EvSleep 500])
      end
  end.
Proof.
  cbn zeta. simpl. rewrite bind_run. unfold fetch. cbn [fst snd].
  destruct (emails up _) as [json|st]; [|done].
  destruct (items json) as [|e es] eqn:Hi; [done|].
  destruct (truthy lastEmailId); [done|].
  rewrite bind_run. unfold sleep. cbn [fst snd].
  destruct (default false (has_more json)); [|done].
  by rewrite (emailsLoop_oblivious fuel up _ _ _ _ ∅).
Qed.

Lemma FullFetch_head up cursor pages :
  FullFetch up cursor pages -> exists page rest, pages = (cursor, page) :: rest.
Proof. inversion 1; eauto. Qed.

Lemma beforeParam_present (cursor : option string) :
  cursor <> Some "" -> CronHistorical.beforeParam cursor = cursor.
Proof.
  unfold CronHistorical.beforeParam. destruct cursor as [id|]; [|done].
  simpl. destruct (String.eqb_spec id "") as [->|]; done.
Qed.

(** Full mode: the loop follows the pagination of the specification. *)
Lemma emailsLoop_full_fetch up lastEmailId pages :
  truthy lastEmailId = false ->
  cursors_present pages ->
  forall fuel currentLastId newEmails,
    FullFetch up currentLastId pages ->
    (length pages <= fuel)%nat ->
    exists t,
      CronHistorical.emailsLoop fuel up lastEmailId currentLastId newEmails ∅
      = (Return (newEmails ++ concat (map snd pages)), t)
      /\ fetches t = map (fun page => UEmails (fst page)) pages.
Proof.
  intros Hfalsy Hpresent fuel. revert pages Hpresent.
  induction fuel as [|fuel IH];
    intros pages Hpresent currentLastId newEmails Hpages Hfuel.
  { inversion Hpages; subst; simpl in Hfuel; lia. }
  rewrite emailsLoop_step. cbn zeta. rewrite Hfalsy.
  assert (Hcursor : CronHistorical.beforeParam currentLastId = currentLastId).
  { apply beforeParam_present.
    destruct (FullFetch_head _ _ _ Hpages) as (page & rest & ->).
    by inversion Hpresent. }
  rewrite Hcursor.
  inversion Hpages as [cursor json Hjson Hstop|cursor json oldest rest Hjson Hlast Hmore Hrest];
    subst; rewrite Hjson.
  - destruct (items json) as [|e es] eqn:Hitems.
    + eexists. split; [simpl; by rewrite app_nil_r|done].
    + destruct Hstop as [|Hstop]; [done|]. rewrite Hstop.
      eexists. split; [simpl; by rewrite app_nil_r|done].
  - destruct (items json) as [|e es] eqn:Hitems; [done|]. rewrite Hmore.
    simpl in Hfuel.
    assert (Hnext : CronHistorical.lastId (e :: es) = Some (Email.id oldest)).
    { unfold CronHistorical.lastId. by rewrite Hlast. }
    rewrite Hnext.
    destruct (IH rest ltac:(by inversion Hpresent) (Some (Email.id oldest))
                (newEmails ++ e :: es) Hrest)
      as (t & Hrun & Hfetches); [lia|].
    rewrite Hrun. eexists. split.
    + cbn [fst map concat snd]. by rewrite <- app_assoc.
    + cbn [snd]. rewrite fetches_app, Hfetches. done.
Qed.

(** Conversely, whatever the loop returns in full mode is the
    concatenation of such a pagination, when no page of the provider
    ends with an email whose id is empty. *)
Lemma emailsLoop_full_fetch_inv up lastEmailId :
  truthy lastEmailId = false ->
  (forall cursor json oldest,
     emails up cursor = Ok json -> last (items json) = Some oldest ->
     Email.id oldest <> "") ->
  forall fuel currentLastId newEmails N t,
    currentLastId <> Some "" ->
    CronHistorical.emailsLoop fuel up lastEmailId currentLastId newEmails ∅
    = (Return N, t) ->
    exists pages,
      FullFetch up currentLastId pages
      /\ N = newEmails ++ concat (map snd pages)
      /\ fetches t = map (fun page => UEmails (fst page)) pages.
Proof.
  intros Hfalsy Hids fuel.
  induction fuel as [|fuel IH]; intros currentLastId newEmails N t Hcursor; [done|].
  rewrite emailsLoop_step. cbn zeta. rewrite Hfalsy.
  rewrite (beforeParam_present _ Hcursor).
  destruct (emails up _) as [json|st] eqn:Hjson; [|done].
  destruct (items json) as [|e es] eqn:Hitems.
  - intros [= <- <-]. exists [(currentLastId, items json)].
    split; [apply full_fetch_last; auto|]. rewrite Hitems. simpl.
    by rewrite app_nil_r.
  - destruct (default false (has_more json)) eqn:Hmore.
    + destruct (last (e :: es)) as [oldest|] eqn:Hlast.
      2:{ by apply last_None in Hlast. }
      assert (Hnext : CronHistorical.lastId (e :: es) = Some (Email.id oldest)).
      { unfold CronHistorical.lastId. by rewrite Hlast. }
      rewrite Hnext.
      assert (Hid : Email.id oldest <> "").
      { apply (Hids currentLastId json). done. by rewrite Hitems. }
      destruct (CronHistorical.emailsLoop fuel up lastEmailId _ _ ∅) as [r t'] eqn:Hrun.
      cbn [fst snd]. intros [= -> <-].
      apply IH in Hrun as (pages & Hpages & -> & Hfetches); [|congruence].
      exists ((currentLastId, items json) :: pages).
      split; [|split].
      * eapply full_fetch_more; try done. by rewrite Hitems.
      * rewrite Hitems. cbn [map concat snd]. by rewrite <- app_assoc.
      * change (EvFetch ?u :: EvSleep ?ms :: t') with ([EvFetch u; EvSleep ms] ++ t').
        rewrite fetches_app, Hfetches. done.
    + intros [= <- <-]. exists [(currentLastId, items json)].
      split; [apply full_fetch_last; auto|]. rewrite Hitems. simpl.
      by rewrite app_nil_r.
Qed.

Lemma full_mode_run fuel up (s : Store) pages :
  truthy (CronHistorical.storedLastEmailId s) = false ->
  FullFetch up None pages ->
  cursors_present pages ->
  (length pages <= fuel)%nat ->
  fetches (log_of (CronHistorical.fetchEmailsIncrementally fuel up) s)
  = map (fun page => UEmails (fst page)) pages
  /\ result_of (CronHistorical.fetchEmailsIncrementally fuel up) s
     = Return (concat (map snd pages),
               concat (map snd pages) ++ CronHistorical.storedEmails s).
Proof.
  intros Hfalsy Hpages Hpresent Hfuel.
  unfold log_of, result_of. rewrite fetchEmailsIncrementally_run. cbn zeta.
  assert (Hstart : forall newEmails,
    CronHistorical.emailsLoop fuel up (CronHistorical.storedLastEmailId s)
      (CronHistorical.storedLastEmailId s) newEmails ∅
    = CronHistorical.emailsLoop fuel up (CronHistorical.storedLastEmailId s)
        None newEmails ∅).
  { intros newEmails. destruct fuel as [|fuel']; [done|].
    rewrite !emailsLoop_step. cbn zeta. unfold CronHistorical.beforeParam.
    by rewrite Hfalsy. }
  rewrite Hstart.
  destruct (emailsLoop_full_fetch up (CronHistorical.storedLastEmailId s) pages
              Hfalsy Hpresent fuel None [] Hpages Hfuel)
    as (t & Hrun & Hfetches).
  rewrite Hrun. done.
Qed.

(** C5. When a cursor is stored (a non-empty text under
    [rss_last_email_id]; the code tests the text read for truthiness),
    the email fetch requests exactly one page, anchored at that cursor,
    and stops: it never runs out of fuel, and returns that page when the
    call is ok. When no cursor is stored, it requests the pages of the
    full pagination one after the other, each with the id of the last
    email of the page before it for cursor (until a page is empty or
    reports no more pages), and returns their concatenation in the
    order returned, given fuel for that many iterations. The ids that
    serve as cursors are taken to be non-empty, as the provider's are:
    the code sends no cursor at all for an empty id. *)
Theorem one_page_with_cursor_else_full_pagination fuel up (s : Store) :
  (forall cursor,
     s !! "rss_last_email_id" = Some (BText cursor) ->
     cursor <> "" ->
     fetches (log_of (CronHistorical.fetchEmailsIncrementally (S fuel) up) s)
     = [UEmails (Some cursor)]
     /\ result_of (CronHistorical.fetchEmailsIncrementally (S fuel) up) s <> Diverge
     /\ forall json,
          emails up (Some cursor) = Ok json ->
          result_of (CronHistorical.fetchEmailsIncrementally (S fuel) up) s
          = Return (items json, items json ++ CronHistorical.storedEmails s))
  /\ (forall pages,
        s !! "rss_last_email_id" = None ->
        FullFetch up None pages ->
        cursors_present pages ->
        (length pages <= fuel)%nat ->
        fetches (log_of (CronHistorical.fetchEmailsIncrementally fuel up) s)
        = map (fun page => UEmails (fst page)) pages
        /\ result_of (CronHistorical.fetchEmailsIncrementally fuel up) s
           = Return (concat (map snd pages),
                     concat (map snd pages) ++ CronHistorical.storedEmails s)).
Proof.
  split.
  - intros cursor Hstored Hne.
    assert (Hc : CronHistorical.storedLastEmailId s = Some cursor).
    { unfold CronHistorical.storedLastEmailId. by rewrite Hstored. }
    assert (Ht : truthy (Some cursor) = true).
    { simpl. by destruct (String.eqb_spec cursor ""). }
    unfold log_of, result_of. rewrite fetchEmailsIncrementally_run. cbn zeta.
    rewrite Hc, emailsLoop_step. cbn zeta.
    unfold CronHistorical.beforeParam. rewrite Ht.
    destruct (emails up (Some cursor)) as [json|st].
    + destruct (items json) as [|e es] eqn:Hitems.
      * repeat split; try done. by intros ? [= <-]; rewrite Hitems.
      * repeat split; try done. by intros ? [= <-]; rewrite Hitems.
    + repeat split; done.
  - intros pages Hstored. apply full_mode_run.
    unfold CronHistorical.storedLastEmailId. by rewrite Hstored.
Qed.

(** A stored cursor that is the empty text counts as no cursor. *)
Lemma empty_stored_cursor_is_ignored fuel up (s : Store) pages :
  s !! "rss_last_email_id" = Some (BText "") ->
  FullFetch up None pages ->
  cursors_present pages ->
  (length pages <= fuel)%nat ->
  fetches (log_of (CronHistorical.fetchEmailsIncrementally fuel up) s)
  = map (fun page => UEmails (fst page)) pages.
Proof.
  intros Hstored Hpages Hpresent Hfuel. apply full_mode_run; try done.
  unfold CronHistorical.storedLastEmailId. by rewrite Hstored.
Qed.

(** ** Rate limiting *)

Lemma settled_nil up : settled up [].
Proof. by intros t'. Qed.

Lemma settled_app up t1 t2 : settled up t1 -> settled up t2 -> settled up (t1 ++ t2).
Proof. intros H1 H2 t'. by rewrite <- app_assoc, H1, H2. Qed.

Lemma settled_put up key body : settled up [EvPut key body].
Proof. by intros t'. Qed.

Lemma settled_puts {A} up (l : list A) (key : A -> string) (body : A -> Blob) :
  settled up (map (fun x => EvPut (key x) (body x)) l).
Proof.
  induction l as [|x l IH]; [apply settled_nil|].
  apply (settled_app up [_]); [apply settled_put|apply IH].
Qed.

Lemma settled_call up u : pace up u = Sleeps -> settled up [EvFetch u; EvSleep 500].
Proof. intros H t'. simpl. by rewrite H. Qed.

Lemma settled_empty_page up u : pace up u = Unspecified -> settled up [EvFetch u].
Proof. intros H t'. simpl. by rewrite H. Qed.

Lemma settled_concat {A} up (l : list A) (log : A -> list Event) :
  (forall x, settled up (log x)) -> settled up (concat (map log l)).
Proof.
  intros H. induction l as [|x l IH]; [apply settled_nil|].
  simpl. by apply settled_app.
Qed.

Lemma rate_limited_settled up t : settled up t -> rate_limited up t = true.
Proof. intros H. specialize (H []). by rewrite app_nil_r in H. Qed.

Lemma rate_limited_abort up t u :
  settled up t -> pace up u = Aborts -> rate_limited up (t ++ [EvFetch u]) = true.
Proof. intros H Hu. rewrite H. simpl. by rewrite Hu. Qed.

Lemma settled_audiencesLog up pa A : audiences up = Ok pa -> settled up (audiencesLog A).
Proof.
  intros H. unfold audiencesLog.
  apply (settled_app up [_; _; _]); [|apply settled_puts].
  apply (settled_app up [_; _] [_]); [|apply settled_put].
  apply settled_call. simpl. by rewrite H.
Qed.

Lemma settled_broadcastsLog up pb B : broadcasts up = Ok pb -> settled up (broadcastsLog B).
Proof.
  intros H. unfold broadcastsLog.
  apply (settled_app up [_; _; _]); [|apply settled_puts].
  apply (settled_app up [_; _] [_]); [|apply settled_put].
  apply settled_call. simpl. by rewrite H.
Qed.

Lemma settled_emailsLog up N All : settled up (emailsLog N All).
Proof.
  unfold emailsLog. apply (settled_app up [_]); [apply settled_put|].
  apply settled_app; [apply settled_puts|].
  destruct All; [apply settled_nil|apply settled_put].
Qed.

Lemma settled_storeOne up turndown b :
  settled up (log_of (Cron.storeOne turndown up b) ∅).
Proof.
  unfold log_of. rewrite storeOne_run. cbn [snd].
  apply settled_app; [by apply settled_call|].
  destruct (broadcast up _) as [details|st]; [|apply settled_nil].
  destruct (truthy _); [|apply settled_nil].
  apply (settled_app up [_] [_]); apply settled_put.
Qed.

Lemma settled_matchOne up turndown N b :
  settled up (log_of (CronHistorical.matchOne turndown up N b) ∅).
Proof.
  unfold log_of. rewrite matchOne_run. cbn [snd].
  apply settled_app; [by apply settled_call|].
  destruct (broadcast up _) as [details|st]; [|apply settled_nil].
  destruct (negb _ || negb _); [apply settled_nil|].
  destruct (CronHistorical.findMatchingEmail details N) as [matching|];
    [|apply settled_nil].
  apply settled_app; [by apply settled_call|].
  destruct (email up _) as [found|st]; [|apply settled_nil].
  destruct (truthy _); [|apply settled_nil].
  apply (settled_app up [_] [_]); apply settled_put.
Qed.

(** The pagination loop: its log is settled, unless it threw, in which
    case the log is settled up to the failed call that ends it. *)
Lemma emailsLoop_paced up lastEmailId fuel currentLastId newEmails :
  match CronHistorical.emailsLoop fuel up lastEmailId currentLastId newEmails ∅ with
  | (Throw _, t) => exists t0 u, t = t0 ++ [EvFetch u] /\ settled up t0 /\ pace up u = Aborts
  | (_, t) => settled up t
  end.
Proof.
  revert currentLastId newEmails.
  induction fuel as [|fuel IH]; intros currentLastId newEmails; [apply settled_nil|].
  rewrite emailsLoop_step. cbn zeta.
  destruct (emails up _) as [json|st] eqn:Hjson.
  - destruct (items json) as [|e es] eqn:Hitems.
    { apply settled_empty_page. simpl. by rewrite Hjson, Hitems. }
    assert (Hs : settled up
              [EvFetch (UEmails (CronHistorical.beforeParam currentLastId)); EvSleep 500]).
    { apply settled_call. simpl. by rewrite Hjson, Hitems. }
    destruct (truthy lastEmailId); [done|].
    destruct (default false (has_more json)); [|done].
    specialize (IH (CronHistorical.lastId (e :: es)) (newEmails ++ e :: es)).
    destruct (CronHistorical.emailsLoop fuel up _ _ _ ∅) as [[N|msg|] t]; cbn [fst snd].
    + by apply settled_app.
    + destruct IH as (t0 & u & -> & Ht0 & Hu).
      eexists (_ ++ t0), u. rewrite app_assoc. split; [done|].
      split; [by apply settled_app|done].
    + by apply settled_app.
  - exists [], (UEmails (CronHistorical.beforeParam currentLastId)).
    split; [done|]. split; [apply settled_nil|]. simpl. by rewrite Hjson.
Qed.

Lemma GET_historical_paced turndown fuel env up request (s : Store) :
  rate_limited up (log_of (CronHistorical.GET turndown fuel env up request) s) = true.
Proof.
  unfold CronHistorical.GET.
  destruct (authorized env request); [|done]. cbn [negb].
  destruct (negb _ || negb _); [done|].
  rewrite log_try_catch_ret. unfold log_of. rewrite sync_historical_run.
  destruct (audiences up) as [pa|st] eqn:Hpa.
  2:{ cbn [snd]. apply (rate_limited_abort up []); [apply settled_nil|].
      simpl. by rewrite Hpa. }
  destruct (broadcasts up) as [pb|st] eqn:Hpb.
  2:{ cbn [snd]. apply rate_limited_abort; [by eapply settled_audiencesLog|].
      simpl. by rewrite Hpb. }
  cbn zeta.
  assert (H0 : settled up (audiencesLog (items pa)
                           ++ broadcastsLog (forAudience
                                (default "" (RESEND_AUDIENCE_ID env)) (items pb)))).
  { apply settled_app;
      [by eapply settled_audiencesLog|by eapply settled_broadcastsLog]. }
  pose proof (emailsLoop_paced up (CronHistorical.storedLastEmailId s) fuel
                (CronHistorical.storedLastEmailId s) []) as Hloop.
  destruct (CronHistorical.emailsLoop _ _ _ _ _ ∅) as [[N|msg|] tE]; cbn [snd].
  - apply rate_limited_settled.
    apply settled_app; [done|]. apply settled_app; [done|].
    apply settled_app; [apply settled_emailsLog|].
    unfold log_of. rewrite matchAndStore_run. cbn [snd].
    apply settled_concat. intros b. apply settled_matchOne.
  - destruct Hloop as (t0 & u & -> & Ht0 & Hu).
    rewrite app_assoc. apply rate_limited_abort; [by apply settled_app|done].
  - apply rate_limited_settled. by apply settled_app.
Qed.

Lemma GET_current_paced turndown env up request (s : Store) :
  rate_limited up (log_of (Cron.GET turndown env up request) s) = true.
Proof.
  unfold Cron.GET.
  destruct (authorized env request); [|done]. cbn [negb].
  destruct (negb _ || negb _); [done|].
  rewrite log_try_catch_ret. unfold log_of. rewrite sync_current_run.
  destruct (audiences up) as [pa|st] eqn:Hpa.
  2:{ cbn [snd]. apply (rate_limited_abort up []); [apply settled_nil|].
      simpl. by rewrite Hpa. }
  destruct (broadcasts up) as [pb|st] eqn:Hpb.
  2:{ cbn [snd]. apply rate_limited_abort; [by eapply settled_audiencesLog|].
      simpl. by rewrite Hpb. }
  cbn zeta. cbn [snd]. apply rate_limited_settled.
  apply settled_app.
  - apply settled_app;
      [by eapply settled_audiencesLog|by eapply settled_broadcastsLog].
  - apply settled_concat. intros b. apply settled_storeOne.
Qed.

(** ** Spacing of the calls in time *)

Lemma fetches_cons_fetch u t : fetches (EvFetch u :: t) = u :: fetches t.
Proof. done. Qed.

(** In a paced log without an empty emails page, all calls but the last
    are followed by a sleep of 500 ms. *)
Lemma paced_log_spacing up n t :
  (length t <= n)%nat ->
  rate_limited up t = true ->
  (forall u, u ∈ fetches t -> pace up u <> Unspecified) ->
  500 * Z.of_nat (length (fetches t)) <= slept t + 500.
Proof.
  revert t. induction n as [|n IH]; intros t Hlen Hpaced Hspec.
  { destruct t; [simpl; lia|simpl in Hlen; lia]. }
  destruct t as [|[u|ms|key body] rest]; [simpl; lia| | |].
  - rewrite fetches_cons_fetch in *. cbn [rate_limited] in Hpaced.
    destruct (pace up u) eqn:Hu.
    + destruct rest as [|[u'|ms|key body] r]; try done.
      apply andb_true_iff in Hpaced as [Hms Hr]. apply Z.eqb_eq in Hms. subst ms.
      cbn [rate_limited] in Hr.
      assert (Hr' : 500 * Z.of_nat (length (fetches r)) <= slept r + 500).
      { apply IH; [simpl in Hlen; lia|done|].
        intros u' Hu'. apply Hspec. right. exact Hu'. }
      change (fetches (EvSleep 500 :: r)) with (fetches r).
      cbn [length slept]. lia.
    + destruct rest; [simpl; lia|done].
    + exfalso. apply (Hspec u); [left|done].
  - change (fetches (EvSleep ms :: rest)) with (fetches rest) in *.
    cbn [rate_limited] in Hpaced. cbn [slept].
    assert (500 * Z.of_nat (length (fetches rest)) <= slept rest + 500).
    { apply IH; [simpl in Hlen; lia|done|done]. }
    lia.
  - change (fetches (EvPut key body :: rest)) with (fetches rest) in *.
    cbn [rate_limited] in Hpaced. cbn [slept].
    apply IH; [simpl in Hlen; lia|done|done].
Qed.

Lemma fetches_current_no_emails turndown env up request s u :
  u ∈ fetches (log_of (Cron.GET turndown env up request) s) ->
  forall before, u <> UEmails before.
Proof.
  unfold Cron.GET.
  destruct (negb (authorized env request)); [by inversion 1|].
  destruct (negb _ || negb _); [by inversion 1|].
  rewrite log_try_catch_ret. unfold log_of. rewrite sync_current_run.
  destruct (audiences up) as [pa|st].
  2:{ intros ->%list_elem_of_singleton. done. }
  destruct (broadcasts up) as [pb|st]; cbn zeta; cbn [snd];
    rewrite ?fetches_app, fetches_audiencesLog, ?fetches_broadcastsLog,
      ?fetches_concat_store.
  - intros H. simpl in H. rewrite !elem_of_cons in H.
    destruct H as [->|[->|H]]; try done.
    apply list_elem_of_fmap in H as (b & -> & _). done.
  - intros H. simpl in H. rewrite !elem_of_cons in H.
    destruct H as [->|[->|H]]; try done. by inversion H.
Qed.

(** In the current route, [n] upstream calls take at least
    [(n - 1) * 500] ms of sleep, failed calls included. *)
Lemma GET_current_spacing turndown env up request (s : Store) :
  let log := log_of (Cron.GET turndown env up request) s in
  500 * (Z.of_nat (length (fetches log)) - 1) <= slept log.
Proof.
  intros log.
  assert (500 * Z.of_nat (length (fetches log)) <= slept log + 500); [|lia].
  apply (paced_log_spacing up (length log)); [done| |].
  - apply GET_current_paced.
  - intros u Hu Hpace.
    pose proof (fetches_current_no_emails turndown env up request s u Hu) as Hne.
    destruct u as [| |before| |]; simpl in Hpace; try done.
    + by destruct (audiences up).
    + by destruct (broadcasts up).
    + by apply (Hne before).
Qed.

(** C2 (as amended). In every run of either cron route, each detail call
    (broadcast details, email details) whatever its status, each ok
    audiences or broadcasts call and each ok emails call that returns a
    non-empty page is followed at once by a 500 ms sleep; a non-2xx
    audiences, broadcasts or emails call is followed by no sleep and is
    the last effect of the run. Nothing is said of an ok emails call
    that returns an empty page. As a consequence, in the current route
    the [n] upstream calls of a run come with at least [(n - 1) * 500] ms
    of sleep. *)
Theorem calls_are_paced_or_end_the_run turndown fuel env up request (s : Store) :
  rate_limited up (log_of (CronHistorical.GET turndown fuel env up request) s) = true
  /\ rate_limited up (log_of (Cron.GET turndown env up request) s) = true
  /\ (let log := log_of (Cron.GET turndown env up request) s in
      500 * (Z.of_nat (length (fetches log)) - 1) <= slept log).
Proof.
  split; [apply GET_historical_paced|].
  split; [apply GET_current_paced|apply GET_current_spacing].
Qed.

(** ** Running the sync twice *)

Lemma fetchBroadcastDetails_oblivious up id : oblivious (fetchBroadcastDetails up id).
Proof. unfold fetchBroadcastDetails. oblivious_tac. Qed.

(** The current route never reads the store. *)
Lemma GET_current_oblivious turndown env up request :
  oblivious (Cron.GET turndown env up request).
Proof.
  unfold Cron.GET, Cron.sync, Cron.fetchAndStoreBroadcastsWithHtml, Cron.storeOne,
    fetchAudiences, fetchBroadcasts.
  pose proof (fetchBroadcastDetails_oblivious up).
  oblivious_tac.
Qed.

Lemma oblivious_idempotent {A} (m : IO A) s :
  oblivious m -> store_after m (store_after m s) = store_after m s.
Proof.
  intros H. unfold store_after, log_of.
  rewrite (H (replay (snd (m s)) s) s). apply replay_idempotent.
Qed.

Lemma append_cancel (prefix x y : string) : prefix +:+ x = prefix +:+ y -> x = y.
Proof. induction prefix as [|c prefix IH]; simpl; [done|]. intros [= H]. by apply IH. Qed.

Lemma list_ascii_of_string_app (x y : string) :
  String.list_ascii_of_string (x +:+ y)
  = String.list_ascii_of_string x ++ String.list_ascii_of_string y.
Proof. induction x as [|c x IH]; [done|]. cbn. by rewrite <- IH. Qed.

Lemma info_suffixes_differ (x y : string) : x +:+ "_info_md" <> y +:+ "_info".
Proof.
  intros H. apply (f_equal String.list_ascii_of_string) in H.
  rewrite !list_ascii_of_string_app in H.
  apply (f_equal last) in H. rewrite !last_app in H. simpl in H. discriminate.
Qed.

Lemma append_cancel_r (x y suffix : string) : x +:+ suffix = y +:+ suffix -> x = y.
Proof.
  intros H. apply (f_equal String.list_ascii_of_string) in H.
  rewrite !list_ascii_of_string_app in H. apply app_inv_tail in H.
  apply (f_equal String.string_of_list_ascii) in H.
  by rewrite !String.string_of_list_ascii_of_string in H.
Qed.

(** The two info keys of a broadcast are written by the iterations of
    the broadcasts with that very id, and only when the detail call is
    answered ok. *)
Lemma info_key_of_same_id (k id id' : string) :
  k = "rss_broadcast_" +:+ id +:+ "_info" \/ k = "rss_broadcast_" +:+ id +:+ "_info_md" ->
  k = "rss_broadcast_" +:+ id' +:+ "_info" \/ k = "rss_broadcast_" +:+ id' +:+ "_info_md" ->
  id = id'.
Proof.
  intros [->| ->] [H|H]; apply append_cancel in H.
  - by apply append_cancel_r in H.
  - symmetry in H. by apply info_suffixes_differ in H.
  - by apply info_suffixes_differ in H.
  - by apply append_cancel_r in H.
Qed.

Lemma puts_storeOne_answered turndown up b k v :
  (k, v) ∈ puts (log_of (Cron.storeOne turndown up b) ∅) ->
  exists details, broadcast up (Broadcast.id b) = Ok details.
Proof.
  unfold log_of. rewrite storeOne_run. cbn [snd]. rewrite puts_app, elem_of_app.
  intros [H|H]; [by inversion H|].
  destruct (broadcast up (Broadcast.id b)) as [details|st]; [eauto|by inversion H].
Qed.

Lemma puts_matchOne_answered turndown up emails b k v :
  (k, v) ∈ puts (log_of (CronHistorical.matchOne turndown up emails b) ∅) ->
  exists details, broadcast up (Broadcast.id b) = Ok details.
Proof.
  unfold log_of. rewrite matchOne_run. cbn [snd]. rewrite puts_app, elem_of_app.
  intros [H|H]; [by inversion H|].
  destruct (broadcast up (Broadcast.id b)) as [details|st]; [eauto|by inversion H].
Qed.

(** Steps 1 and 2 do not write under the info keys of a kept broadcast
    when the ids are apart. *)
Lemma last_write_info_lists A B failed k :
  info_keys_apart B -> failed ∈ B ->
  k = "rss_broadcast_" +:+ Broadcast.id failed +:+ "_info"
  \/ k = "rss_broadcast_" +:+ Broadcast.id failed +:+ "_info_md" ->
  last_write k (audiencesLog A ++ broadcastsLog B) = None.
Proof.
  intros Hapart Hin Hk. apply last_write_absent. intros k' v.
  rewrite puts_app, elem_of_app. intros [H|H] ->.
  - apply puts_audiencesLog in H as [->|(a & _ & ->)];
      destruct Hk as [Hk|Hk]; simpl in Hk; discriminate.
  - apply puts_broadcastsLog in H as [->|(b & Hb & ->)].
    + destruct Hk as [Hk|Hk]; simpl in Hk; discriminate.
    + destruct (Hapart failed b Hin Hb) as [H1 H2].
      destruct Hk as [Hk|Hk]; apply append_cancel in Hk; done.
Qed.

Lemma last_write_info_emails N All id k :
  k = "rss_broadcast_" +:+ id +:+ "_info" \/ k = "rss_broadcast_" +:+ id +:+ "_info_md" ->
  last_write k (emailsLog N All) = None.
Proof.
  intros Hk. apply last_write_absent. intros k' v H ->.
  apply puts_emailsLog in H as [->|[->|(e & _ & ->)]];
    destruct Hk as [Hk|Hk]; simpl in Hk; discriminate.
Qed.

Lemma last_write_info_store turndown up B failed st k :
  broadcast up (Broadcast.id failed) = NotOk st ->
  k = "rss_broadcast_" +:+ Broadcast.id failed +:+ "_info"
  \/ k = "rss_broadcast_" +:+ Broadcast.id failed +:+ "_info_md" ->
  last_write k (concat (map (fun b => log_of (Cron.storeOne turndown up b) ∅) B)) = None.
Proof.
  intros Hfail Hk. apply last_write_absent. intros k' v H ->.
  apply elem_of_puts_concat in H as (b & _ & H).
  destruct (puts_storeOne_answered turndown up b _ _ H) as [details Hok].
  apply puts_storeOne in H.
  rewrite (info_key_of_same_id k (Broadcast.id failed) (Broadcast.id b) Hk H) in Hfail.
  congruence.
Qed.

Lemma last_write_info_match turndown up N B failed st k :
  broadcast up (Broadcast.id failed) = NotOk st ->
  k = "rss_broadcast_" +:+ Broadcast.id failed +:+ "_info"
  \/ k = "rss_broadcast_" +:+ Broadcast.id failed +:+ "_info_md" ->
  last_write k
    (concat (map (fun b => log_of (CronHistorical.matchOne turndown up N b) ∅) B)) = None.
Proof.
  intros Hfail Hk. apply last_write_absent. intros k' v H ->.
  apply elem_of_puts_concat in H as (b & _ & H).
  destruct (puts_matchOne_answered turndown up N b _ _ H) as [details Hok].
  apply puts_matchOne in H.
  rewrite (info_key_of_same_id k (Broadcast.id failed) (Broadcast.id b) Hk H) in Hfail.
  congruence.
Qed.

(** The keys written by steps 1 and 2. *)
Lemma last_write_lists_key A B key v :
  last_write key (audiencesLog A ++ broadcastsLog B) = Some v ->
  key = "rss_audiences" \/ key = "rss_broadcasts"
  \/ (exists a, key = "rss_audience_" +:+ a)
  \/ (exists b, b ∈ B /\ key = "rss_broadcast_" +:+ Broadcast.id b).
Proof.
  intros H. apply last_write_puts in H. rewrite puts_app, elem_of_app in H.
  destruct H as [H|H].
  - apply puts_audiencesLog in H as [->|(a & _ & ->)]; eauto 6.
  - apply puts_broadcastsLog in H as [->|(b & Hb & ->)]; eauto 6.
Qed.

(** What steps 1 and 2 wrote is still in the store when the run ends,
    provided no info key is the summary key of a kept broadcast. *)
Lemma lists_survive turndown up A B N All tE key v :
  info_keys_apart B ->
  puts tE = [] ->
  last_write key (audiencesLog A ++ broadcastsLog B) = Some v ->
  last_write key
    ((audiencesLog A ++ broadcastsLog B) ++ tE ++ emailsLog N All
     ++ log_of (CronHistorical.matchAndStore turndown up B N) ∅) = Some v.
Proof.
  intros Hapart HtE Hkey.
  rewrite (last_write_app key (audiencesLog A ++ broadcastsLog B)), Hkey.
  rewrite !last_write_app, (last_write_no_puts key tE) by done.
  pose proof (last_write_lists_key A B key v Hkey) as Hclass.
  assert (Hm : last_write key
                 (log_of (CronHistorical.matchAndStore turndown up B N) ∅) = None).
  { apply last_write_absent. intros k w Hin ->.
    unfold log_of in Hin. rewrite matchAndStore_run in Hin. cbn [snd] in Hin.
    apply elem_of_puts_concat in Hin as (b' & Hb' & Hin).
    apply puts_matchOne in Hin.
    destruct Hclass as [->|[->|[(a & ->)|(b & Hb & ->)]]];
      destruct Hin as [Hin|Hin]; simpl in Hin; try discriminate.
    - apply append_cancel in Hin. by destruct (Hapart b' b Hb' Hb).
    - apply append_cancel in Hin. by destruct (Hapart b' b Hb' Hb). }
  assert (He : last_write key (emailsLog N All) = None).
  { apply last_write_absent. intros k w Hin ->.
    apply puts_emailsLog in Hin.
    destruct Hclass as [->|[->|[(a & ->)|(b & Hb & ->)]]];
      destruct Hin as [Hin|[Hin|(e & _ & Hin)]]; simpl in Hin; discriminate. }
  by rewrite Hm, He.
Qed.

Lemma matchOne_no_emails turndown up b :
  puts (log_of (CronHistorical.matchOne turndown up [] b) ∅) = [].
Proof.
  unfold log_of. rewrite matchOne_run. cbn [snd]. rewrite puts_app.
  destruct (broadcast up _) as [details|st]; [|done].
  by destruct (negb _ || negb _).
Qed.

Lemma matchAndStore_no_emails turndown up B :
  puts (log_of (CronHistorical.matchAndStore turndown up B []) ∅) = [].
Proof.
  unfold log_of. rewrite matchAndStore_run. cbn [snd].
  induction B as [|b B IH]; [done|].
  cbn [map concat]. by rewrite puts_app, matchOne_no_emails, IH.
Qed.

Lemma storedEmails_lookup (s : Store) All :
  s !! "rss_emails" = Some (BEmails All) -> CronHistorical.storedEmails s = All.
Proof. unfold CronHistorical.storedEmails. by intros ->. Qed.

(** The second of two historical runs, when its email fetch brings
    nothing new, writes only what the store already holds. *)
Lemma sync_historical_twice turndown fuel up audienceId (s : Store) :
  let run := CronHistorical.sync turndown fuel up audienceId in
  let s1 := replay (snd (run s)) s in
  info_keys_apart
    (match broadcasts up with
     | Ok json => forAudience audienceId (items json)
     | NotOk _ => []
     end) ->
  (forall N All,
     fst (CronHistorical.fetchEmailsIncrementally fuel up s1) = Return (N, All) ->
     N = []) ->
  replay (snd (run s1)) s1 = s1.
Proof.
  intros run s1 Hapart Hnone. subst run.
  rewrite fetchEmailsIncrementally_run in Hnone. cbn zeta in Hnone.
  rewrite (sync_historical_run turndown fuel up audienceId s1).
  unfold s1 in *. clear s1. rewrite (sync_historical_run turndown fuel up audienceId s) in *.
  destruct (audiences up) as [pa|st]; [|done].
  destruct (broadcasts up) as [pb|st].
  2:{ cbn [snd]. apply replay_idempotent. }
  cbn zeta in *.
  set (A := items pa) in *. set (B := forAudience audienceId (items pb)) in *.
  set (c0 := CronHistorical.storedLastEmailId s) in *.
  pose proof (emailsLoop_puts fuel up c0 c0 [] ∅) as Hp1. unfold log_of in Hp1.
  destruct (CronHistorical.emailsLoop fuel up c0 c0 [] ∅) as [[N1|e1|] tE1] eqn:Hloop1;
    cbn [snd] in *.
  - (* the first run completed step 3 *)
    set (All1 := N1 ++ CronHistorical.storedEmails s) in *.
    set (t1 := (audiencesLog A ++ broadcastsLog B) ++ tE1 ++ emailsLog N1 All1
               ++ log_of (CronHistorical.matchAndStore turndown up B N1) ∅) in *.
    assert (He1 : replay t1 s !! "rss_emails" = Some (BEmails All1)).
    { unfold t1. rewrite replay_lookup, !last_write_app.
      rewrite last_write_match_other by (intros x; simpl; discriminate).
      by rewrite last_write_emails_emailsLog. }
    assert (Hc1 : forall first rest, All1 = first :: rest ->
              replay t1 s !! "rss_last_email_id" = Some (BText (Email.id first))).
    { intros first rest HAll. unfold t1. rewrite replay_lookup, !last_write_app.
      rewrite last_write_match_other by (intros x; simpl; discriminate).
      by rewrite last_write_cursor_emailsLog, HAll. }
    assert (Hl1 : forall key v,
              last_write key (audiencesLog A ++ broadcastsLog B) = Some v ->
              replay t1 s !! key = Some v).
    { intros key v Hkey. rewrite replay_lookup. unfold t1.
      by rewrite (lists_survive turndown up A B N1 All1 tE1 key v). }
    rewrite (storedEmails_lookup _ All1 He1) in *.
    set (c1 := CronHistorical.storedLastEmailId (replay t1 s)) in *.
    pose proof (emailsLoop_puts fuel up c1 c1 [] ∅) as Hp2. unfold log_of in Hp2.
    destruct (CronHistorical.emailsLoop fuel up c1 c1 [] ∅) as [[N2|e2|] tE2];
      cbn [fst snd] in *.
    + rewrite (Hnone N2 (N2 ++ All1) eq_refl). cbn [app].
      apply replay_absorbed. intros key v. rewrite !last_write_app.
      rewrite (last_write_no_puts key (log_of _ _))
        by apply matchAndStore_no_emails.
      rewrite (last_write_no_puts key tE2) by done.
      destruct (last_write key (emailsLog [] All1)) as [w|] eqn:Hw.
      * intros [= <-]. apply last_write_puts in Hw.
        unfold emailsLog in Hw. cbn [map app] in Hw.
        destruct All1 as [|first rest] eqn:HAll.
        -- apply list_elem_of_singleton in Hw. injection Hw as -> ->. done.
        -- apply list_elem_of_In in Hw. simpl in Hw.
           destruct Hw as [[= <- <-]|[[= <- <-]|[]]]; [done|].
           by eapply Hc1.
      * intros Hkey. apply Hl1. by rewrite last_write_app.
    + apply replay_absorbed. intros key v. rewrite last_write_app.
      rewrite (last_write_no_puts key tE2) by done. apply Hl1.
    + apply replay_absorbed. intros key v. rewrite last_write_app.
      rewrite (last_write_no_puts key tE2) by done. apply Hl1.
  - (* the first run threw in step 3: the second run repeats it *)
    rewrite replay_app, (replay_no_puts tE1) by done.
    rewrite storedLastEmailId_after_lists. fold c0. rewrite Hloop1. cbn [snd].
    rewrite replay_app, (replay_no_puts tE1) by done. apply replay_idempotent.
  - rewrite replay_app, (replay_no_puts tE1) by done.
    rewrite storedLastEmailId_after_lists. fold c0. rewrite Hloop1. cbn [snd].
    rewrite replay_app, (replay_no_puts tE1) by done. apply replay_idempotent.
Qed.

(** C6 (as amended). Running the current route a second time against
    the same upstream snapshot leaves the store exactly as the first run
    left it. For the historical route the same holds when the email
    fetch of the second run brings no new email and no kept broadcast
    has for id the id of another one followed by [_info] or
    [_info_md]. *)
Theorem second_run_leaves_store_unchanged turndown fuel env up request (s : Store) :
  (let s1 := store_after (Cron.GET turndown env up request) s in
   store_after (Cron.GET turndown env up request) s1 = s1)
  /\ (let s1 := store_after (CronHistorical.GET turndown fuel env up request) s in
      info_keys_apart (kept env up) ->
      (forall N All,
         result_of (CronHistorical.fetchEmailsIncrementally fuel up) s1 = Return (N, All) ->
         N = []) ->
      store_after (CronHistorical.GET turndown fuel env up request) s1 = s1).
Proof.
  split.
  - cbn zeta. apply oblivious_idempotent, GET_current_oblivious.
  - unfold CronHistorical.GET.
    destruct (negb (authorized env request)); [done|].
    destruct (negb _ || negb _); [done|].
    cbn zeta. rewrite !store_after_try_catch_ret.
    intros Hapart Hnone. unfold store_after, log_of.
    by apply sync_historical_twice.
Qed.

(** ** Runs that pass the checks and get both lists

    The statements of this section are about a request that passes the
    authorization check, with the API key and the audience id configured,
    against an upstream that answers the audiences and broadcasts calls
    with [pa] and [pb]. *)

Section ConfiguredRun.

Variables (turndown : string -> string) (fuel : nat).
Variables (env : Env) (up : Upstream) (request : Request).
Variables (audienceId : string) (pa : Page Audience.t) (pb : Page Broadcast.t).

Hypothesis Hauthorized : authorized env request = true.
Hypothesis HapiKey : truthy (RESEND_API_KEY env) = true.
Hypothesis HaudienceId : RESEND_AUDIENCE_ID env = Some audienceId.
Hypothesis Hnonempty : audienceId <> "".
Hypothesis Haudiences : audiences up = Ok pa.
Hypothesis Hbroadcasts : broadcasts up = Ok pb.

Lemma audience_configured : truthy (RESEND_AUDIENCE_ID env) = true.
Proof. rewrite HaudienceId. simpl. by destruct (String.eqb_spec audienceId ""). Qed.

Lemma GET_historical_run s :
  CronHistorical.GET turndown fuel env up request s =
  match CronHistorical.sync turndown fuel up audienceId s with
  | (Throw e, t) => (Return (sync_failed e), t)
  | other => other
  end.
Proof.
  rewrite GET_historical_authorized by auto using audience_configured.
  by rewrite try_catch_ret, HaudienceId.
Qed.

Lemma GET_current_run s :
  Cron.GET turndown env up request s =
  match Cron.sync turndown up audienceId s with
  | (Throw e, t) => (Return (sync_failed e), t)
  | other => other
  end.
Proof.
  rewrite GET_current_authorized by auto using audience_configured.
  by rewrite try_catch_ret, HaudienceId.
Qed.

Lemma log_GET_historical s :
  log_of (CronHistorical.GET turndown fuel env up request) s
  = snd (CronHistorical.sync turndown fuel up audienceId s).
Proof.
  unfold log_of. rewrite GET_historical_run.
  by destruct (CronHistorical.sync _ _ _ _ s) as [[r|e|] t].
Qed.

Lemma log_GET_current s :
  log_of (Cron.GET turndown env up request) s = snd (Cron.sync turndown up audienceId s).
Proof.
  unfold log_of. rewrite GET_current_run.
  by destruct (Cron.sync _ _ _ s) as [[r|e|] t].
Qed.

(** C4 (as amended). Whenever the broadcasts call is answered ok, the
    collection the run leaves under [rss_broadcasts] (in the historical
    and in the current route) is the sub-list, of the broadcasts of that
    one answer, whose [audience_id] is the configured audience id: it
    holds exactly those broadcasts and no others, whatever the answer
    says of further pages (the routes make the one list call with
    [limit=100] and never read [has_more]). *)
Theorem persisted_broadcasts_are_those_of_the_audience (s : Store) :
  let kept :=
    List.filter (fun b => String.eqb (Broadcast.audience_id b) audienceId) (items pb) in
  store_after (CronHistorical.GET turndown fuel env up request) s !! "rss_broadcasts"
    = Some (BBroadcasts kept)
  /\ store_after (Cron.GET turndown env up request) s !! "rss_broadcasts"
     = Some (BBroadcasts kept)
  /\ forall b, b ∈ kept <-> b ∈ items pb /\ Broadcast.audience_id b = audienceId.
Proof.
  intros kept. split; [|split].
  - unfold store_after. rewrite log_GET_historical.
    rewrite sync_historical_run, Haudiences, Hbroadcasts. cbn zeta.
    pose proof (emailsLoop_puts fuel up (CronHistorical.storedLastEmailId s)
                  (CronHistorical.storedLastEmailId s) [] ∅) as Hp.
    unfold log_of in Hp.
    destruct (CronHistorical.emailsLoop _ _ _ _ _ ∅) as [[N|e|] tE]; cbn [snd] in *;
      rewrite replay_lookup, ?last_write_app.
    + unfold log_of. rewrite matchAndStore_run. cbn [snd].
      by rewrite last_write_broadcasts_match, last_write_broadcasts_emails,
        (last_write_no_puts _ tE), last_write_broadcasts_broadcastsLog.
    + by rewrite (last_write_no_puts _ tE), last_write_broadcasts_broadcastsLog.
    + by rewrite (last_write_no_puts _ tE), last_write_broadcasts_broadcastsLog.
  - unfold store_after. rewrite log_GET_current.
    rewrite sync_current_run, Haudiences, Hbroadcasts. cbn zeta.
    cbn [snd]. rewrite replay_lookup, !last_write_app.
    by rewrite last_write_broadcasts_store, last_write_broadcasts_broadcastsLog.
  - intros b. apply forAudience_spec.
Qed.

(** A run leaves under the info keys of a kept broadcast whose detail
    call fails what was there before, when the ids of the kept
    broadcasts are apart. *)
Lemma info_of_failed_broadcast_untouched (s : Store) failed st k :
  info_keys_apart (forAudience audienceId (items pb)) ->
  failed ∈ forAudience audienceId (items pb) ->
  broadcast up (Broadcast.id failed) = NotOk st ->
  k = "rss_broadcast_" +:+ Broadcast.id failed +:+ "_info"
  \/ k = "rss_broadcast_" +:+ Broadcast.id failed +:+ "_info_md" ->
  store_after (Cron.GET turndown env up request) s !! k = s !! k
  /\ store_after (CronHistorical.GET turndown fuel env up request) s !! k = s !! k.
Proof.
  intros Hapart Hin Hfail Hk. split.
  - unfold store_after. rewrite log_GET_current.
    rewrite sync_current_run, Haudiences, Hbroadcasts. cbn zeta. cbn [snd].
    rewrite replay_lookup, last_write_app.
    rewrite (last_write_info_store turndown up _ failed st k) by done.
    by rewrite (last_write_info_lists _ _ failed k).
  - unfold store_after. rewrite log_GET_historical.
    rewrite sync_historical_run, Haudiences, Hbroadcasts. cbn zeta.
    pose proof (emailsLoop_puts fuel up (CronHistorical.storedLastEmailId s)
                  (CronHistorical.storedLastEmailId s) [] ∅) as Hp.
    unfold log_of in Hp.
    destruct (CronHistorical.emailsLoop _ _ _ _ _ ∅) as [[N|e|] tE]; cbn [snd] in *;
      rewrite replay_lookup, last_write_app.
    + rewrite (last_write_app k tE), (last_write_app k (emailsLog _ _)).
      unfold log_of. rewrite matchAndStore_run. cbn [snd].
      rewrite (last_write_info_match turndown up N _ failed st k) by done.
      rewrite (last_write_info_emails N _ (Broadcast.id failed) k) by done.
      rewrite (last_write_no_puts k tE) by done.
      by rewrite (last_write_info_lists _ _ failed k).
    + rewrite (last_write_no_puts k tE) by done.
      by rewrite (last_write_info_lists _ _ failed k).
    + rewrite (last_write_no_puts k tE) by done.
      by rewrite (last_write_info_lists _ _ failed k).
Qed.

(** The store left by a historical run whose steps 1 to 3 went through:
    the merged collection and the cursor. *)
Lemma store_after_historical_emails (s : Store) N All :
  result_of (CronHistorical.fetchEmailsIncrementally fuel up) s = Return (N, All) ->
  let s' := store_after (CronHistorical.GET turndown fuel env up request) s in
  All = N ++ CronHistorical.storedEmails s
  /\ s' !! "rss_emails" = Some (BEmails All)
  /\ s' !! "rss_last_email_id"
     = match All with
       | first :: _ => Some (BText (Email.id first))
       | [] => s !! "rss_last_email_id"
       end.
Proof.
  intros HN s'. unfold s', store_after. rewrite log_GET_historical.
  rewrite sync_historical_run, Haudiences, Hbroadcasts. cbn zeta.
  unfold result_of in HN. rewrite fetchEmailsIncrementally_run in HN. cbn zeta in HN.
  pose proof (emailsLoop_puts fuel up (CronHistorical.storedLastEmailId s)
                (CronHistorical.storedLastEmailId s) [] ∅) as Hp.
  unfold log_of in Hp.
  destruct (CronHistorical.emailsLoop _ _ _ _ _ ∅) as [[N'|e|] tE]; try done.
  cbn [fst snd] in *. injection HN as -> <-.
  split; [done|]. rewrite !replay_lookup, !last_write_app. split.
  - rewrite last_write_match_other by (intros x; simpl; discriminate).
    by rewrite last_write_emails_emailsLog.
  - rewrite last_write_match_other by (intros x; simpl; discriminate).
    rewrite last_write_cursor_emailsLog.
    destruct (N ++ CronHistorical.storedEmails s) as [|first rest]; [|done].
    rewrite (last_write_no_puts _ tE) by done.
    rewrite <- last_write_app, last_write_lists_other;
      try done; intros x; simpl; discriminate.
Qed.

(** C1 (as amended). In a historical run whose email fetch returned the
    new emails [N], with [E] the collection read from the store: the
    collection left under [rss_emails] is [N ++ E]; if [N] is not empty
    the cursor left under [rss_last_email_id] is the id of [N]'s first
    email; if [N] is empty, the cursor is rewritten with the id of the
    first email of [E] when [E] is not empty, and is left as it was when
    [E] is empty too. *)
Theorem merge_prepends_and_cursor_is_first_id (s : Store) N All :
  result_of (CronHistorical.fetchEmailsIncrementally fuel up) s = Return (N, All) ->
  let E := CronHistorical.storedEmails s in
  let s' := store_after (CronHistorical.GET turndown fuel env up request) s in
  s' !! "rss_emails" = Some (BEmails (N ++ E))
  /\ (forall n rest, N = n :: rest ->
        s' !! "rss_last_email_id" = Some (BText (Email.id n)))
  /\ (forall e rest, N = [] -> E = e :: rest ->
        s' !! "rss_last_email_id" = Some (BText (Email.id e)))
  /\ (N = [] -> E = [] -> s' !! "rss_last_email_id" = s !! "rss_last_email_id").
Proof.
  intros HN E s'.
  destruct (store_after_historical_emails s N All HN) as (-> & He & Hc).
  fold s' in He, Hc. fold E in Hc. split; [done|]. split; [|split].
  - intros n rest ->. by rewrite Hc.
  - intros e rest -> HE. by rewrite Hc, HE.
  - intros -> HE. by rewrite Hc, HE.
Qed.

(** A store is consistent when its cursor is the id of its first stored
    email; every run that completes step 3 leaves such a store. *)
Lemma completed_run_leaves_consistent_store (s : Store) N All :
  result_of (CronHistorical.fetchEmailsIncrementally fuel up) s = Return (N, All) ->
  let s' := store_after (CronHistorical.GET turndown fuel env up request) s in
  forall e rest,
    CronHistorical.storedEmails s' = e :: rest ->
    s' !! "rss_last_email_id" = Some (BText (Email.id e)).
Proof.
  intros HN s' e rest.
  destruct (store_after_historical_emails s N All HN) as (_ & He & Hc).
  fold s' in He, Hc. rewrite (storedEmails_lookup s' All He). intros HAll.
  by rewrite Hc, HAll.
Qed.

(** Over a consistent store, a run that fetches no new email leaves the
    cursor with the value it had. *)
Lemma cursor_kept_on_consistent_store (s : Store) All :
  result_of (CronHistorical.fetchEmailsIncrementally fuel up) s = Return ([], All) ->
  (forall e rest, CronHistorical.storedEmails s = e :: rest ->
     s !! "rss_last_email_id" = Some (BText (Email.id e))) ->
  store_after (CronHistorical.GET turndown fuel env up request) s !! "rss_last_email_id"
  = s !! "rss_last_email_id".
Proof.
  intros HN Hinv.
  destruct (store_after_historical_emails s [] All HN) as (-> & _ & Hc).
  rewrite Hc. simpl.
  destruct (CronHistorical.storedEmails s) as [|e rest] eqn:HE; [done|].
  symmetry. by eapply Hinv.
Qed.

End ConfiguredRun.

(** ** Examples *)

(** Counterexample to C1 as stated: over a store whose cursor ([e1]) is not the id
    of its first stored email ([e2]), a run that fetches no new email
    moves the cursor to [e2]. *)
Lemma cursor_rewritten_without_new_emails :
  let up := Sample.upstream Sample.twoAudiences Sample.nothing Sample.notFound in
  let run := CronHistorical.GET Sample.markdown 1 Sample.env up Sample.request in
  result_of (CronHistorical.fetchEmailsIncrementally 1 up) Sample.cutBeforeCursor
  = Return ([], [Sample.email "e2"; Sample.email "e1"])
  /\ Sample.cutBeforeCursor !! "rss_last_email_id" = Some (BText "e1")
  /\ store_after run Sample.cutBeforeCursor !! "rss_last_email_id" = Some (BText "e2")
  /\ store_after run Sample.cutBeforeCursor !! "rss_last_email_id"
     <> Sample.cutBeforeCursor !! "rss_last_email_id".
Proof. vm_compute. repeat split; discriminate. Qed.

Lemma merge_prepends_and_cursor_is_first_id_witness :
  let up := Sample.upstream Sample.twoAudiences Sample.newerThan Sample.ok in
  let run := CronHistorical.GET Sample.markdown 1 Sample.env up Sample.request in
  store_after run Sample.afterFirstEmail !! "rss_emails"
  = Some (BEmails ([Sample.email "e2"] ++ [Sample.email "e1"]))
  /\ store_after run Sample.afterFirstEmail !! "rss_last_email_id" = Some (BText "e2").
Proof.
  intros up run.
  pose proof (merge_prepends_and_cursor_is_first_id Sample.markdown 1%nat Sample.env up
                Sample.request "a1"
                (mkPage (Some [Sample.audience]) None)
                (mkPage (Some Sample.twoAudiences) None)
                eq_refl eq_refl eq_refl ltac:(discriminate) eq_refl eq_refl
                Sample.afterFirstEmail
                [Sample.email "e2"] [Sample.email "e2"; Sample.email "e1"] eq_refl)
    as (He & Hc & _).
  split; [exact He | exact (Hc (Sample.email "e2") [] eq_refl)].
Defined.

(** Counterexample to C2 as stated: a non-2xx audiences call is followed
    by no delay at all (the run ends there), in both routes. *)
Lemma failed_list_call_is_not_delayed :
  let up := mkUpstream (NotOk 503) (NotOk 503) Sample.nothing Sample.notFound
              (fun _ => NotOk 404) in
  let historical :=
    log_of (CronHistorical.GET Sample.markdown 1 Sample.env up Sample.request) ∅ in
  let current := log_of (Cron.GET Sample.markdown Sample.env up Sample.request) ∅ in
  historical = [EvFetch UAudiences]
  /\ current = [EvFetch UAudiences]
  /\ every_call_delayed historical = false
  /\ every_call_delayed current = false.
Proof. vm_compute. done. Qed.

(** The historical route also leaves the loop without sleeping when an
    ok emails call returns an empty page: the next upstream call (the
    first detail call) comes with no sleep in between. *)
Lemma empty_page_is_not_delayed :
  let up := Sample.upstream Sample.twoAudiences Sample.nothing Sample.ok in
  let log := log_of (CronHistorical.GET Sample.markdown 1 Sample.env up Sample.request)
               Sample.afterFirstEmail in
  exists before after,
    log = before
          ++ [EvFetch (UEmails (Some "e1"));
              EvPut "rss_emails" (BEmails [Sample.email "e1"]);
              EvPut "rss_last_email_id" (BText "e1");
              EvFetch (UBroadcast "b1")]
          ++ after
    /\ every_call_delayed log = false.
Proof.
  intros up log. exists (firstn 8 log), (skipn 12 log).
  split; vm_compute; reflexivity.
Qed.

(** Counterexample to C4 as stated: the provider holds 101 broadcasts of
    the configured audience; the list call answers the first 100 and
    reports more; both routes persist those 100, and [b100], which is in
    the upstream set with the configured audience id, is not in the
    persisted collection. *)
Lemma broadcasts_beyond_the_first_page_are_not_persisted :
  let answer := firstPage 100 Sample.manyBroadcasts in
  let up := mkUpstream (Ok (mkPage (Some [Sample.audience]) None)) (Ok answer)
              Sample.nothing Sample.notFound (fun id => Ok (Sample.email id)) in
  let missed := Sample.summary "b100" "a1" in
  Sample.manyBroadcasts !! 100%nat = Some missed
  /\ Broadcast.audience_id missed = default "" (RESEND_AUDIENCE_ID Sample.env)
  /\ has_more answer = Some true
  /\ forall run,
       run = Cron.GET Sample.markdown Sample.env up Sample.request
       \/ run = CronHistorical.GET Sample.markdown 1 Sample.env up Sample.request ->
       exists persisted,
         store_after run ∅ !! "rss_broadcasts" = Some (BBroadcasts persisted)
         /\ length persisted = 100%nat
         /\ existsb (fun b => String.eqb (Broadcast.id b) "b100") persisted = false
         /\ length (List.filter
                      (fun u => match u with UBroadcasts => true | _ => false end)
                      (fetches (log_of run ∅))) = 1%nat.
Proof.
  intros answer up missed.
  split; [vm_compute; reflexivity|]. split; [reflexivity|]. split; [reflexivity|].
  intros run [-> | ->]; exists (take 100 Sample.manyBroadcasts);
    repeat split; vm_compute; reflexivity.
Qed.

Lemma persisted_broadcasts_are_those_of_the_audience_witness :
  let up := Sample.upstream Sample.twoAudiences Sample.newerThan Sample.ok in
  store_after (CronHistorical.GET Sample.markdown 1 Sample.env up Sample.request) ∅
    !! "rss_broadcasts" = Some (BBroadcasts [Sample.summary "b1" "a1"])
  /\ store_after (Cron.GET Sample.markdown Sample.env up Sample.request) ∅
       !! "rss_broadcasts" = Some (BBroadcasts [Sample.summary "b1" "a1"]).
Proof.
  intros up.
  pose proof (persisted_broadcasts_are_those_of_the_audience Sample.markdown 1%nat
                Sample.env up Sample.request "a1"
                (mkPage (Some [Sample.audience]) None)
                (mkPage (Some Sample.twoAudiences) None)
                eq_refl eq_refl eq_refl ltac:(discriminate) eq_refl eq_refl ∅)
    as (Hh & Hc & _).
  split; [exact Hh | exact Hc].
Defined.

Lemma one_page_with_cursor_else_full_pagination_witness :
  let up := Sample.upstream Sample.twoAudiences Sample.twoPages Sample.ok in
  fetches (log_of (CronHistorical.fetchEmailsIncrementally 1 up) Sample.afterFirstEmail)
  = [UEmails (Some "e1")]
  /\ fetches (log_of (CronHistorical.fetchEmailsIncrementally 2 up) ∅)
     = [UEmails None; UEmails (Some "e2")]
  /\ result_of (CronHistorical.fetchEmailsIncrementally 2 up) ∅
     = Return ([Sample.email "e3"; Sample.email "e2"; Sample.email "e1"],
               [Sample.email "e3"; Sample.email "e2"; Sample.email "e1"]).
Proof.
  intros up.
  destruct (one_page_with_cursor_else_full_pagination 0%nat up Sample.afterFirstEmail)
    as [Hone _].
  destruct (Hone "e1" eq_refl ltac:(discriminate)) as (H1 & _).
  destruct (one_page_with_cursor_else_full_pagination 2%nat up ∅) as [_ Hfull].
  destruct (Hfull [(None, [Sample.email "e3"; Sample.email "e2"]);
                   (Some "e2", [Sample.email "e1"])] eq_refl
              (full_fetch_more up None
                 (mkPage (Some [Sample.email "e3"; Sample.email "e2"]) (Some true))
                 (Sample.email "e2") _ eq_refl eq_refl eq_refl
                 (full_fetch_last up (Some "e2")
                    (mkPage (Some [Sample.email "e1"]) (Some false))
                    eq_refl (or_intror eq_refl)))
              ltac:(repeat constructor; discriminate)
              (le_n 2)) as (H2 & H3).
  split; [exact H1|]. split; [exact H2 | exact H3].
Defined.

(** The ids that serve as cursors must not be empty: for an email whose
    id is the empty text the code sends no cursor, and so requests the
    first page again. *)
Lemma empty_id_sends_no_cursor :
  let nameless := Email.mk "" "x@y.com" "Hi" None "2024-01-02T00:00Z" in
  let up := Sample.upstream Sample.twoAudiences
              (fun _ => Ok (mkPage (Some [nameless]) (Some true))) Sample.ok in
  fetches (log_of (CronHistorical.fetchEmailsIncrementally 3 up) ∅)
  = [UEmails None; UEmails None; UEmails None].
Proof. vm_compute. reflexivity. Qed.


(** Counterexample to C6 as stated, in the historical route: with a
    provider that answers [before=<id>] with the emails older than
    [<id>], the second run over an unchanged mailbox fetches [e1] again
    and prepends it. *)
Lemma second_run_duplicates_emails :
  let up := Sample.upstream Sample.twoAudiences Sample.olderThan Sample.ok in
  let run := CronHistorical.GET Sample.markdown 1 Sample.env up Sample.request in
  let s1 := store_after run ∅ in
  s1 !! "rss_emails" = Some (BEmails [Sample.email "e2"; Sample.email "e1"])
  /\ store_after run s1 !! "rss_emails"
     = Some (BEmails [Sample.email "e1"; Sample.email "e2"; Sample.email "e1"])
  /\ store_after run s1 <> s1.
Proof.
  intros up run s1.
  assert (H1 : s1 !! "rss_emails" = Some (BEmails [Sample.email "e2"; Sample.email "e1"]))
    by (vm_compute; reflexivity).
  assert (H2 : store_after run s1 !! "rss_emails"
               = Some (BEmails [Sample.email "e1"; Sample.email "e2"; Sample.email "e1"]))
    by (vm_compute; reflexivity).
  split; [exact H1|]. split; [exact H2|].
  intros Heq. rewrite Heq, H1 in H2. discriminate.
Qed.

(** Nor does it hold, even with no new email, when the id of a kept
    broadcast is the id of another one followed by [_info]: the first
    run leaves the enriched record of [b1] under [rss_broadcast_b1_info],
    the second run leaves there the summary of the broadcast whose id
    is [b1_info]. *)
Lemma second_run_overwrites_info_record :
  let all := [Sample.summary "b1" "a1"; Sample.summary "b1_info" "a1"] in
  let up := Sample.upstream all Sample.newerThan Sample.ok in
  let run := CronHistorical.GET Sample.markdown 1 Sample.env up Sample.request in
  let s1 := store_after run ∅ in
  result_of (CronHistorical.fetchEmailsIncrementally 1 up) s1
  = Return ([], [Sample.email "e2"; Sample.email "e1"])
  /\ s1 !! "rss_broadcast_b1_info"
     = Some (BBroadcast (Broadcast.with_html (Sample.details "b1") "<p>Hi</p>"))
  /\ store_after run s1 !! "rss_broadcast_b1_info"
     = Some (BBroadcast (Sample.summary "b1_info" "a1")).
Proof. vm_compute. done. Qed.

Lemma second_run_leaves_store_unchanged_witness :
  let up := Sample.upstream Sample.twoAudiences Sample.newerThan Sample.ok in
  let current := Cron.GET Sample.markdown Sample.env up Sample.request in
  let historical := CronHistorical.GET Sample.markdown 1 Sample.env up Sample.request in
  store_after current (store_after current ∅) = store_after current ∅
  /\ store_after historical (store_after historical ∅) = store_after historical ∅.
Proof.
  intros up current historical.
  destruct (second_run_leaves_store_unchanged Sample.markdown 1%nat Sample.env up
              Sample.request ∅) as [Hc Hh].
  split; [exact Hc|]. apply Hh.
  - intros b b' Hb Hb'. vm_compute in Hb, Hb'.
    apply list_elem_of_singleton in Hb, Hb'. subst b b'. split; discriminate.
  - intros N All HN. vm_compute in HN. by injection HN as <- _.
Defined.

(** ** Escaping of the feed's text *)

Lemma append_String a (x y : string) : String a x +:+ y = String a (x +:+ y).
Proof. done. Qed.

Lemma append_assoc (x y z : string) : (x +:+ y) +:+ z = x +:+ (y +:+ z).
Proof. induction x as [|a x IH]; [done|]. by rewrite !append_String, IH. Qed.

Lemma append_empty_r (x : string) : x +:+ "" = x.
Proof. induction x as [|a x IH]; [done|]. by rewrite append_String, IH. Qed.

Lemma replaceAll_app c r (x y : string) :
  Feed.replaceAll c r (x +:+ y) = Feed.replaceAll c r x +:+ Feed.replaceAll c r y.
Proof.
  induction x as [|a x IH]; [done|].
  rewrite append_String. cbn [Feed.replaceAll]. rewrite IH.
  destruct (Ascii.eqb a c); [by rewrite append_assoc|done].
Qed.

Lemma escapeXml_app (x y : string) :
  Feed.escapeXml (x +:+ y) = Feed.escapeXml x +:+ Feed.escapeXml y.
Proof. unfold Feed.escapeXml. by rewrite !replaceAll_app. Qed.

Lemma escapeXml_char a : Feed.escapeXml (String a "") = entity a.
Proof.
  unfold Feed.escapeXml, entity. cbn [Feed.replaceAll].
  destruct (Ascii.eqb_spec a "&") as [->|]; [done|]. cbn [Feed.replaceAll].
  destruct (Ascii.eqb_spec a "<") as [->|]; [done|]. cbn [Feed.replaceAll].
  destruct (Ascii.eqb_spec a ">") as [->|]; [done|]. cbn [Feed.replaceAll].
  destruct (Ascii.eqb_spec a "034") as [->|]; [done|]. cbn [Feed.replaceAll].
  destruct (Ascii.eqb_spec a "'") as [->|]; done.
Qed.

Lemma escapeXml_flatMap (str : string) : Feed.escapeXml str = flatMap entity str.
Proof.
  induction str as [|a str IH]; [done|].
  change (String a str) with (String a "" +:+ str).
  rewrite escapeXml_app, escapeXml_char, IH. done.
Qed.

(** X1. The five replacements in a row amount to one pass that replaces
    each character by its entity: no replacement touches the output of
    an earlier one (the ampersand is replaced first), and the escaped
    form of a text is the escaped forms of its parts put together. *)
Theorem escapeXml_is_one_pass (str : string) :
  Feed.escapeXml str = flatMap entity str
  /\ forall x y, str = x +:+ y ->
       Feed.escapeXml str = Feed.escapeXml x +:+ Feed.escapeXml y.
Proof.
  split; [apply escapeXml_flatMap|]. intros x y ->. apply escapeXml_app.
Qed.

Lemma escapeXml_is_one_pass_witness :
  Feed.escapeXml "a&b" = Feed.escapeXml "a" +:+ Feed.escapeXml "&b".
Proof. exact (proj2 (escapeXml_is_one_pass "a&b") "a" "&b" eq_refl). Defined.

Lemma entity_cases a :
  (special a = false /\ entity a = String a "")
  \/ (special a = true /\ exists rest, entity a = String "&" rest
      /\ Forall (fun c => special c = false) (String.list_ascii_of_string rest)
      /\ (0 < String.length rest)%nat).
Proof.
  unfold special, entity.
  destruct (Ascii.eqb a "&"); [right; split; [done|]; eexists; split; [done|];
    split; [by repeat constructor|simpl; lia]|].
  destruct (Ascii.eqb a "<"); [right; split; [done|]; eexists; split; [done|];
    split; [by repeat constructor|simpl; lia]|].
  destruct (Ascii.eqb a ">"); [right; split; [done|]; eexists; split; [done|];
    split; [by repeat constructor|simpl; lia]|].
  destruct (Ascii.eqb a "034"); [right; split; [done|]; eexists; split; [done|];
    split; [by repeat constructor|simpl; lia]|].
  destruct (Ascii.eqb a "'"); [right; split; [done|]; eexists; split; [done|];
    split; [by repeat constructor|simpl; lia]|].
  by left.
Qed.

Lemma delimiter_special a : delimiter a = true -> special a = true.
Proof.
  unfold delimiter, special.
  by destruct (Ascii.eqb a "&"), (Ascii.eqb a "<"), (Ascii.eqb a ">"),
    (Ascii.eqb a "034"), (Ascii.eqb a "'").
Qed.

(** X2. The escaped text holds none of [<], [>], the double quote and the
    apostrophe. *)
Theorem escapeXml_leaves_no_delimiter (str : string) :
  Forall (fun c => delimiter c = false)
    (String.list_ascii_of_string (Feed.escapeXml str)).
Proof.
  rewrite escapeXml_flatMap.
  induction str as [|a str IH]; [constructor|].
  cbn [flatMap]. rewrite list_ascii_of_string_app. apply Forall_app. split; [|done].
  destruct (entity_cases a) as [[Hs ->]|[_ (rest & -> & Hrest & _)]].
  - constructor; [|constructor].
    destruct (delimiter a) eqn:Hd; [|done]. apply delimiter_special in Hd. congruence.
  - constructor; [done|]. eapply Forall_impl; [exact Hrest|].
    intros c Hc. destruct (delimiter c) eqn:Hd; [|done].
    apply delimiter_special in Hd. congruence.
Qed.

Lemma flatMap_entity_nonempty a (str : string) : flatMap entity (String a str) <> "".
Proof.
  cbn [flatMap].
  destruct (entity_cases a) as [[_ ->]|[_ (rest & -> & _)]]; discriminate.
Qed.

Lemma special_ampersand : special "&" = true.
Proof. done. Qed.

Lemma special_inv a :
  special a = true ->
  a = "&"%char \/ a = "<"%char \/ a = ">"%char \/ a = "034"%char \/ a = "'"%char.
Proof.
  unfold special.
  destruct (Ascii.eqb_spec a "&"); [auto|].
  destruct (Ascii.eqb_spec a "<"); [auto|].
  destruct (Ascii.eqb_spec a ">"); [auto|].
  destruct (Ascii.eqb_spec a "034"); [auto|].
  destruct (Ascii.eqb_spec a "'"); [auto 6|done].
Qed.

Lemma escapeXml_inj (x y : string) : Feed.escapeXml x = Feed.escapeXml y -> x = y.
Proof.
  rewrite !escapeXml_flatMap. revert y.
  induction x as [|a x IH]; intros [|b y] H.
  - done.
  - symmetry in H. by apply flatMap_entity_nonempty in H.
  - by apply flatMap_entity_nonempty in H.
  - cbn [flatMap] in H.
    destruct (entity_cases a) as [[Ha Hea]|[Ha _]], (entity_cases b) as [[Hb Heb]|[Hb _]].
    + rewrite Hea, Heb in H. injection H as -> H. f_equal. by apply IH.
    + exfalso. rewrite Hea in H. unfold entity in H. unfold special in Hb.
      repeat (destruct (Ascii.eqb b _); [injection H as -> _; by rewrite special_ampersand in Ha|]).
      discriminate Hb.
    + exfalso. rewrite Heb in H. unfold entity in H. unfold special in Ha.
      repeat (destruct (Ascii.eqb a _); [injection H as <- _; by rewrite special_ampersand in Hb|]).
      discriminate Ha.
    + apply special_inv in Ha, Hb.
      destruct Ha as [->|[->|[->|[->| ->]]]], Hb as [->|[->|[->|[->| ->]]]];
        try discriminate H;
        (apply String.app_inj in H; f_equal; by apply IH).
Qed.

(** X3. Escaping loses nothing: two different texts have different escaped
    forms (a text that already reads as an entity is escaped again, so
    it is not taken for the character). *)
Theorem escapeXml_injective (x y : string) :
  x <> y -> Feed.escapeXml x <> Feed.escapeXml y.
Proof. intros Hne H. by apply Hne, escapeXml_inj. Qed.

Lemma escapeXml_injective_witness : Feed.escapeXml "<" <> Feed.escapeXml "&lt;".
Proof. apply (escapeXml_injective "<" "&lt;"). discriminate. Defined.

Lemma length_append (x y : string) :
  String.length (x +:+ y) = (String.length x + String.length y)%nat.
Proof. induction x as [|a x IH]; [done|]. rewrite append_String. simpl. by rewrite IH. Qed.

Lemma length_flatMap_entity (str : string) :
  (String.length str <= String.length (flatMap entity str))%nat.
Proof.
  induction str as [|a str IH]; [done|].
  cbn [flatMap]. rewrite length_append.
  destruct (entity_cases a) as [[_ ->]|[_ (rest & -> & _)]]; simpl; lia.
Qed.

(** X4. Text without any of the five characters is left as it is, and only
    such text is; so escaping a second time changes the text again
    whenever the first time did. *)
Theorem escapeXml_fixes_only_plain_text (str : string) :
  let plain := Forall (fun c => special c = false) (String.list_ascii_of_string str) in
  (Feed.escapeXml str = str <-> plain)
  /\ (Feed.escapeXml (Feed.escapeXml str) = Feed.escapeXml str <-> plain).
Proof.
  intros plain.
  assert (H1 : Feed.escapeXml str = str <-> plain).
  { unfold plain. rewrite escapeXml_flatMap. clear plain.
    induction str as [|a str IH]; [by split; [constructor|]|].
    cbn [flatMap String.list_ascii_of_string]. rewrite Forall_cons.
    pose proof (length_flatMap_entity str) as Hlen.
    destruct (entity_cases a) as [[Ha ->]|[Ha (rest & -> & _ & Hpos)]].
    - rewrite append_String. split.
      + intros [= H]. split; [done|]. by apply IH.
      + intros [_ H]. f_equal. by apply IH.
    - split.
      + intros H. apply (f_equal String.length) in H.
        rewrite length_append in H. simpl in H. lia.
      + intros [H _]. congruence. }
  split; [done|]. rewrite <- H1. split.
  - apply escapeXml_inj.
  - intros H. by rewrite !H.
Qed.

(** ** The feed route *)

Lemma withContent_run json b s :
  Feed.withContent json b s = (Return (withStoredHtml json s b), []).
Proof.
  unfold Feed.withContent, withStoredHtml. rewrite try_catch_ret, bind_run.
  unfold read. cbn [fst snd replay foldl app].
  destruct (s !! _) as [stored|]; [|done].
  by destruct (BroadcastDetail.htmlField json stored).
Qed.

Lemma all_withContent json l s :
  Feed.all (map (Feed.withContent json) l) s
  = (Return (map (withStoredHtml json s) l), []).
Proof.
  induction l as [|b l IH]; [done|].
  cbn [map Feed.all]. rewrite bind_run, withContent_run. cbn [fst snd replay foldl app].
  by rewrite bind_run, IH.
Qed.

Lemma feed_GET_run json toUTCString config s :
  Feed.GET json toUTCString config s =
  (Return
     match s !! "rss_broadcasts" with
     | None => mkHttp 404 [] (ErrorJson "No broadcasts found. Run the cron job first." None)
     | Some stored =>
         match Feed.asBroadcasts json stored with
         | None => mkHttp 500 [] (ErrorJson "Failed to generate RSS feed" None)
         | Some broadcasts =>
             mkHttp 200 [("Content-Type", "application/xml")]
               (Plain (Feed.generateRSS toUTCString config
                         (map (withStoredHtml json s) broadcasts)))
         end
     end, []).
Proof.
  unfold Feed.GET. rewrite try_catch_ret, bind_run. unfold read.
  cbn [fst snd replay foldl app].
  destruct (s !! "rss_broadcasts") as [stored|]; [|done].
  destruct (Feed.asBroadcasts json stored) as [broadcasts|]; [|done].
  by rewrite bind_run, all_withContent.
Qed.

(** X6. The feed route has no effect and always answers: 404 exactly when
    nothing is stored under [rss_broadcasts], 500 exactly when the body
    stored there is not a JSON array (a JSON object, or a raw text that
    does not parse to an array), and 200 with the [application/xml]
    content type otherwise. *)
Theorem feed_answers_by_stored_collection json toUTCString config (s : Store) :
  exists response,
    Feed.GET json toUTCString config s = (Return response, [])
    /\ (status response = 404 <-> s !! "rss_broadcasts" = None)
    /\ (status response = 500 <->
        exists stored, s !! "rss_broadcasts" = Some stored
                       /\ Feed.asBroadcasts json stored = None)
    /\ (status response = 200 <->
        exists stored broadcasts,
          s !! "rss_broadcasts" = Some stored
          /\ Feed.asBroadcasts json stored = Some broadcasts)
    /\ (status response = 200 -> headers response = [("Content-Type", "application/xml")]).
Proof.
  rewrite feed_GET_run. eexists. split; [done|].
  destruct (s !! "rss_broadcasts") as [stored|];
    [destruct (Feed.asBroadcasts json stored) as [broadcasts|] eqn:Hb|];
    cbn [status headers]; split_and!; try done.
  - split; [done|]. intros (? & [= <-] & ?). congruence.
  - split; [eauto|done].
  - split; [eauto|done].
  - split; [done|]. intros (? & ? & [= <-] & ?). congruence.
  - split; [done|]. intros (? & ? & _). done.
  - split; [done|]. intros (? & ? & ? & _). done.
Qed.

Lemma feed_answers_by_stored_collection_witness :
  (exists response,
     Feed.GET Sample.reader Sample.utc Sample.feedConfig Sample.published
     = (Return response, [])
     /\ headers response = [("Content-Type", "application/xml")])
  /\ (exists response,
        Feed.GET Sample.reader Sample.utc Sample.feedConfig Sample.rawCollection
        = (Return response, [])
        /\ status response = 200).
Proof.
  split.
  - destruct (feed_answers_by_stored_collection Sample.reader Sample.utc
                Sample.feedConfig Sample.published)
      as (response & Hrun & _ & _ & H200 & Hheaders).
    exists response. split; [exact Hrun|].
    apply Hheaders, H200. eexists _, _. split; reflexivity.
  - destruct (feed_answers_by_stored_collection Sample.reader Sample.utc
                Sample.feedConfig Sample.rawCollection)
      as (response & Hrun & _ & _ & H200 & _).
    exists response. split; [exact Hrun|].
    apply H200. exists (BText "[]"), []. split; reflexivity.
Defined.

Lemma withStoredHtml_fields json s b :
  Feed.setHtml (withStoredHtml json s b) None = Feed.setHtml b None.
Proof.
  unfold withStoredHtml. destruct (s !! _) as [stored|]; [|done].
  by destruct (BroadcastDetail.htmlField json stored).
Qed.

(** X7. Every stored broadcast is in the feed, in the stored order and with
    all its fields; only the html shown comes from the record under its
    info key (it is undefined when that record is JSON without an html
    field), and a broadcast with no info record, or with one whose html
    cannot be read, is shown as it is stored. *)
Theorem feed_shows_every_stored_broadcast json toUTCString config (s : Store) stored :
  s !! "rss_broadcasts" = Some (BBroadcasts stored) ->
  exists shown,
    Feed.GET json toUTCString config s
    = (Return (mkHttp 200 [("Content-Type", "application/xml")]
                 (Plain (Feed.generateRSS toUTCString config shown))), [])
    /\ Forall2
         (fun b b' =>
            Feed.setHtml b' None = Feed.setHtml b None
            /\ Broadcast.html b'
               = match s !! ("rss_broadcast_" +:+ Broadcast.id b +:+ "_info") with
                 | Some info =>
                     match BroadcastDetail.htmlField json info with
                     | Some html => html
                     | None => Broadcast.html b
                     end
                 | None => Broadcast.html b
                 end)
         stored shown.
Proof.
  intros Hs. exists (map (withStoredHtml json s) stored). split.
  - rewrite feed_GET_run, Hs. reflexivity.
  - apply Forall2_fmap_r, Forall_Forall2_diag, Forall_forall. intros b _.
    split; [apply withStoredHtml_fields|].
    unfold withStoredHtml.
    destruct (s !! ("rss_broadcast_" +:+ Broadcast.id b +:+ "_info")) as [info|]; [|done].
    by destruct (BroadcastDetail.htmlField json info).
Qed.

Lemma feed_shows_every_stored_broadcast_witness :
  (exists shown,
     Feed.GET Sample.reader Sample.utc Sample.feedConfig Sample.published
     = (Return (mkHttp 200 [("Content-Type", "application/xml")]
                  (Plain (Feed.generateRSS Sample.utc Sample.feedConfig shown))), [])
     /\ length shown = 1%nat)
  /\ (exists shown,
        Feed.GET Sample.reader Sample.utc Sample.feedConfig Sample.rawRecord
        = (Return (mkHttp 200 [("Content-Type", "application/xml")]
                     (Plain (Feed.generateRSS Sample.utc Sample.feedConfig shown))), [])
        /\ map Broadcast.html shown = [None]).
Proof.
  split.
  - destruct (feed_shows_every_stored_broadcast Sample.reader Sample.utc
                Sample.feedConfig Sample.published [Sample.summary "b1" "a1"] eq_refl)
      as (shown & Hrun & Hshown).
    exists shown. split; [exact Hrun|].
    symmetry. exact (Forall2_length _ _ _ Hshown).
  - destruct (feed_shows_every_stored_broadcast Sample.reader Sample.utc
                Sample.feedConfig Sample.rawRecord
                [Broadcast.with_html (Sample.summary "b4" "a1") "<p>own</p>"] eq_refl)
      as (shown & Hrun & Hshown).
    exists shown. split; [exact Hrun|].
    apply Forall2_cons_inv_l in Hshown as (b' & rest & [_ Hhtml] & Hrest & ->).
    apply Forall2_nil_inv_l in Hrest as ->.
    cbn [map]. by rewrite Hhtml.
Defined.

(** X8. The description of a feed item and the page behind its link come
    from the same record: when a JSON record is stored under the info
    key of a broadcast, the html the feed shows for it is the html
    field of that record, and the detail route serves that very html
    with 200, or answers 404 when the field is missing or empty (the
    item then has no description). *)
Theorem feed_item_and_detail_route_agree json (s : Store) broadcast info html :
  s !! ("rss_broadcast_" +:+ Broadcast.id broadcast +:+ "_info") = Some info ->
  BroadcastDetail.htmlField json info = Some html ->
  exists shown,
    Feed.withContent json broadcast s = (Return shown, [])
    /\ Broadcast.html shown = html
    /\ BroadcastDetail.GET json (Broadcast.id broadcast) s
       = (Return (if truthy html
                  then mkHttp 200 [("Content-Type", "text/html")] (Plain (default "" html))
                  else mkHttp 404 [] (Plain "HTML content not available")), []).
Proof.
  intros Hs Hf. eexists. split; [apply withContent_run|].
  unfold withStoredHtml. rewrite Hs, Hf. split; [done|].
  unfold BroadcastDetail.GET, BroadcastDetail.infoKey.
  rewrite try_catch_ret, bind_run. unfold read. cbn [fst snd replay foldl app].
  rewrite Hs, Hf. by destruct (truthy html).
Qed.

Lemma feed_item_and_detail_route_agree_witness :
  BroadcastDetail.GET Sample.reader "b1" Sample.published
  = (Return (mkHttp 200 [("Content-Type", "text/html")] (Plain "<p>Hi</p>")), []).
Proof.
  destruct (feed_item_and_detail_route_agree Sample.reader Sample.published (Sample.summary "b1" "a1")
              (BBroadcast (Broadcast.with_html (Sample.details "b1") "<p>Hi</p>"))
              (Some "<p>Hi</p>") eq_refl eq_refl) as (shown & _ & _ & Hdetail).
  exact Hdetail.
Defined.

(** ** What a run leaves for the readers *)

Lemma last_write_none_inv key t v : last_write key t = None -> (key, v) ∉ puts t.
Proof.
  induction t as [|e t IH]; [intros _; by inversion 1|].
  cbn [last_write]. destruct (last_write key t) as [w|] eqn:E; [done|].
  change (e :: t) with ([e] ++ t). rewrite puts_app, elem_of_app.
  intros He [H|H]; [|by apply IH].
  destruct e as [u|ms|k w]; try by inversion H.
  apply list_elem_of_singleton in H. injection H as -> ->.
  by rewrite decide_True in He.
Qed.

(** A key under which a log only ever writes [v] holds [v] in the end. *)
Lemma last_write_unique key t v :
  (key, v) ∈ puts t ->
  (forall v', (key, v') ∈ puts t -> v' = v) ->
  last_write key t = Some v.
Proof.
  intros Hin Huniq. destruct (last_write key t) as [w|] eqn:E.
  - f_equal. by apply Huniq, last_write_puts.
  - by apply (last_write_none_inv key t v) in E.
Qed.

Lemma puts_concat_elem_of {A} (l : list A) (log : A -> list Event) x k v :
  x ∈ l -> (k, v) ∈ puts (log x) -> (k, v) ∈ puts (concat (map log l)).
Proof.
  induction l as [|y l IH]; [by inversion 1|].
  cbn [map concat]. rewrite puts_app, elem_of_app.
  intros [->|Hin]%elem_of_cons H; [by left|right; by apply IH].
Qed.

(** The enrichment of a broadcast depends on its id only, so every
    iteration for that id writes the same two records. *)
Lemma last_write_enrichment (log : Broadcast.t -> list Event) B b k v :
  (forall b' k' v', (k', v') ∈ puts (log b') ->
     k' = "rss_broadcast_" +:+ Broadcast.id b' +:+ "_info"
     \/ k' = "rss_broadcast_" +:+ Broadcast.id b' +:+ "_info_md") ->
  (forall b', Broadcast.id b' = Broadcast.id b -> log b' = log b) ->
  b ∈ B ->
  (k, v) ∈ puts (log b) ->
  (forall v', (k, v') ∈ puts (log b) -> v' = v) ->
  last_write k (concat (map log B)) = Some v.
Proof.
  intros Hkeys Hid Hin Hput Huniq. apply last_write_unique.
  - by apply (puts_concat_elem_of B log b).
  - intros v' H. apply elem_of_puts_concat in H as (b' & _ & H).
    apply Huniq. rewrite <- (Hid b'); [done|].
    symmetry. eapply info_key_of_same_id; [by eapply Hkeys|by eapply Hkeys].
Qed.

Lemma storeOne_log_id turndown up b b' :
  Broadcast.id b' = Broadcast.id b ->
  log_of (Cron.storeOne turndown up b') ∅ = log_of (Cron.storeOne turndown up b) ∅.
Proof. intros H. unfold log_of. by rewrite !storeOne_run, H. Qed.

Lemma matchOne_log_id turndown up N b b' :
  Broadcast.id b' = Broadcast.id b ->
  log_of (CronHistorical.matchOne turndown up N b') ∅
  = log_of (CronHistorical.matchOne turndown up N b) ∅.
Proof. intros H. unfold log_of. by rewrite !matchOne_run, H. Qed.

Lemma puts_storeOne_written turndown up b details :
  broadcast up (Broadcast.id b) = Ok details ->
  truthy (Broadcast.html details) = true ->
  puts (log_of (Cron.storeOne turndown up b) ∅)
  = [(Cron.infoKey (Broadcast.id b), BBroadcast details);
     (Cron.infoMdKey (Broadcast.id b),
      BContent details (turndown (default "" (Broadcast.html details))))].
Proof. intros Hd Hh. unfold log_of. by rewrite storeOne_run, Hd, Hh. Qed.

Lemma puts_matchOne_written turndown up N b details matching found :
  broadcast up (Broadcast.id b) = Ok details ->
  truthy (Broadcast.subject details) = true ->
  truthy (Broadcast.from details) = true ->
  CronHistorical.findMatchingEmail details N = Some matching ->
  email up (Email.id matching) = Ok found ->
  truthy (Email.html found) = true ->
  puts (log_of (CronHistorical.matchOne turndown up N b) ∅)
  = [(CronHistorical.infoKey (Broadcast.id b),
      BBroadcast (Broadcast.with_html details (default "" (Email.html found))));
     (CronHistorical.infoMdKey (Broadcast.id b),
      BContent details (turndown (default "" (Email.html found))))].
Proof.
  intros Hd Hs Hf Hm He Hh. unfold log_of.
  by rewrite matchOne_run, Hd, Hs, Hf, Hm, He, Hh.
Qed.

(** The two records a pair of writes leaves, when the keys differ. *)
Lemma pair_of_writes_unique (k1 k2 : string) (v1 v2 : Blob) :
  k1 <> k2 ->
  ((k1, v1) ∈ [(k1, v1); (k2, v2)] /\ forall v', (k1, v') ∈ [(k1, v1); (k2, v2)] -> v' = v1)
  /\ ((k2, v2) ∈ [(k1, v1); (k2, v2)]
      /\ forall v', (k2, v') ∈ [(k1, v1); (k2, v2)] -> v' = v2).
Proof.
  intros Hne. split; (split; [set_solver|]).
  - intros v' [[= ->]|[[= ? ?]|[]%elem_of_nil]%elem_of_cons]%elem_of_cons; done.
  - intros v' [[= ? ?]|[[= ->]|[]%elem_of_nil]%elem_of_cons]%elem_of_cons; [|done].
    by subst.
Qed.

Lemma info_keys_differ (id : string) :
  "rss_broadcast_" +:+ id +:+ "_info" <> "rss_broadcast_" +:+ id +:+ "_info_md".
Proof.
  intros H. apply append_cancel in H. symmetry in H. by apply info_suffixes_differ in H.
Qed.

Lemma last_write_store_written turndown up B b details :
  b ∈ B ->
  broadcast up (Broadcast.id b) = Ok details ->
  truthy (Broadcast.html details) = true ->
  let t := concat (map (fun b => log_of (Cron.storeOne turndown up b) ∅) B) in
  last_write (Cron.infoKey (Broadcast.id b)) t = Some (BBroadcast details)
  /\ last_write (Cron.infoMdKey (Broadcast.id b)) t
     = Some (BContent details (turndown (default "" (Broadcast.html details)))).
Proof.
  intros Hin Hd Hh t.
  pose proof (puts_storeOne_written turndown up b details Hd Hh) as Hp.
  destruct (pair_of_writes_unique _ _ (BBroadcast details)
              (BContent details (turndown (default "" (Broadcast.html details))))
              (info_keys_differ (Broadcast.id b))) as [[H1 U1] [H2 U2]].
  split.
  - apply (last_write_enrichment
             (fun b => log_of (Cron.storeOne turndown up b) ∅) B b); try done.
    + intros b' k' v'. apply puts_storeOne.
    + intros b'. apply storeOne_log_id.
    + by rewrite Hp.
    + by rewrite Hp.
  - apply (last_write_enrichment
             (fun b => log_of (Cron.storeOne turndown up b) ∅) B b); try done.
    + intros b' k' v'. apply puts_storeOne.
    + intros b'. apply storeOne_log_id.
    + by rewrite Hp.
    + by rewrite Hp.
Qed.

Lemma last_write_match_written turndown up N B b details matching found :
  b ∈ B ->
  broadcast up (Broadcast.id b) = Ok details ->
  truthy (Broadcast.subject details) = true ->
  truthy (Broadcast.from details) = true ->
  CronHistorical.findMatchingEmail details N = Some matching ->
  email up (Email.id matching) = Ok found ->
  truthy (Email.html found) = true ->
  let t := concat (map (fun b => log_of (CronHistorical.matchOne turndown up N b) ∅) B) in
  let html := default "" (Email.html found) in
  last_write (CronHistorical.infoKey (Broadcast.id b)) t
  = Some (BBroadcast (Broadcast.with_html details html))
  /\ last_write (CronHistorical.infoMdKey (Broadcast.id b)) t
     = Some (BContent details (turndown html)).
Proof.
  intros Hin Hd Hs Hf Hm He Hh t html.
  pose proof (puts_matchOne_written turndown up N b details matching found
                Hd Hs Hf Hm He Hh) as Hp.
  destruct (pair_of_writes_unique _ _ (BBroadcast (Broadcast.with_html details html))
              (BContent details (turndown html))
              (info_keys_differ (Broadcast.id b))) as [[H1 U1] [H2 U2]].
  split.
  - apply (last_write_enrichment
             (fun b => log_of (CronHistorical.matchOne turndown up N b) ∅) B b); try done.
    + intros b' k' v'. apply puts_matchOne.
    + intros b'. apply matchOne_log_id.
    + by rewrite Hp.
    + by rewrite Hp.
  - apply (last_write_enrichment
             (fun b => log_of (CronHistorical.matchOne turndown up N b) ∅) B b); try done.
    + intros b' k' v'. apply puts_matchOne.
    + intros b'. apply matchOne_log_id.
    + by rewrite Hp.
    + by rewrite Hp.
Qed.

Lemma truthy_inv v : truthy v = true -> exists h, v = Some h /\ h <> "".
Proof.
  destruct v as [h|]; [|done]. simpl. intros H. exists h. split; [done|].
  intros ->. done.
Qed.

Lemma last_with_key_prefix {A} (prefix : string) (key : A -> string) l x :
  last_with_key key l x -> last_with_key (fun y => prefix +:+ key y) l x.
Proof.
  intros (before & after & -> & Hafter). exists before, after. split; [done|].
  eapply Forall_impl; [exact Hafter|]. intros y Hy H. by apply append_cancel in H.
Qed.

(** A loop of writes leaves, under the key of an element, the body of
    the last element with that key. *)
Lemma last_write_records {A} (key : A -> string) (body : A -> Blob) l x :
  last_with_key key l x ->
  last_write (key x) (map (fun y => EvPut (key y) (body y)) l) = Some (body x).
Proof.
  intros (before & after & -> & Hafter).
  rewrite map_app. cbn [map].
  change (EvPut (key x) (body x) :: ?t) with ([EvPut (key x) (body x)] ++ t).
  rewrite !last_write_app.
  rewrite (last_write_absent (key x) (map _ after)).
  - simpl. by rewrite decide_True.
  - intros k v H ->. apply elem_of_puts_map in H as (y & Hy & Hk & _).
    rewrite Forall_forall in Hafter. by apply (Hafter y Hy).
Qed.

Lemma last_write_audiences_outside key A :
  (forall x, key <> "rss_audience" +:+ x) -> last_write key (audiencesLog A) = None.
Proof.
  intros H. apply last_write_absent. intros k v Hin ->.
  apply puts_audiencesLog in Hin as [->|(a & _ & ->)].
  - by apply (H "s").
  - by apply (H ("_" +:+ Audience.id a)).
Qed.

Lemma last_write_broadcasts_outside key B :
  (forall x, key <> "rss_broadcast" +:+ x) -> last_write key (broadcastsLog B) = None.
Proof.
  intros H. apply last_write_absent. intros k v Hin ->.
  apply puts_broadcastsLog in Hin as [->|(b & _ & ->)].
  - by apply (H "s").
  - by apply (H ("_" +:+ Broadcast.id b)).
Qed.

Lemma last_write_store_outside key turndown up B :
  (forall x, key <> "rss_broadcast" +:+ x) ->
  last_write key (concat (map (fun b => log_of (Cron.storeOne turndown up b) ∅) B)) = None.
Proof.
  intros H. apply last_write_absent. intros k v Hin ->.
  apply elem_of_puts_concat in Hin as (b & _ & Hin).
  apply puts_storeOne in Hin as [->| ->].
  - by apply (H ("_" +:+ Broadcast.id b +:+ "_info")).
  - by apply (H ("_" +:+ Broadcast.id b +:+ "_info_md")).
Qed.

Lemma last_write_match_outside key turndown up N B :
  (forall x, key <> "rss_broadcast" +:+ x) ->
  last_write key
    (concat (map (fun b => log_of (CronHistorical.matchOne turndown up N b) ∅) B)) = None.
Proof.
  intros H. apply last_write_absent. intros k v Hin ->.
  apply elem_of_puts_concat in Hin as (b & _ & Hin).
  apply puts_matchOne in Hin as [->| ->].
  - by apply (H ("_" +:+ Broadcast.id b +:+ "_info")).
  - by apply (H ("_" +:+ Broadcast.id b +:+ "_info_md")).
Qed.

Lemma last_write_emails_outside key N All :
  (forall x, key <> "rss_email" +:+ x) -> key <> "rss_last_email_id" ->
  last_write key (emailsLog N All) = None.
Proof.
  intros H Hc. apply last_write_absent. intros k v Hin ->.
  apply puts_emailsLog in Hin as [->|[->|(e & _ & ->)]].
  - by apply (H "s").
  - done.
  - by apply (H ("_" +:+ Email.id e)).
Qed.

(** What the log of a completed historical run leaves under a key: the
    correlation comes last, then step 3, then steps 1 and 2. *)
Lemma last_write_completed key t0 tE tS tM :
  puts tE = [] ->
  last_write key (t0 ++ tE ++ tS ++ tM)
  = match last_write key tM with
    | Some v => Some v
    | None =>
        match last_write key tS with
        | Some v => Some v
        | None => last_write key t0
        end
    end.
Proof.
  intros HtE.
  rewrite (last_write_app key t0), (last_write_app key tE), (last_write_app key tS).
  rewrite (last_write_no_puts key tE HtE).
  by destruct (last_write key tM), (last_write key tS).
Qed.

Lemma last_write_cut key t0 tE :
  puts tE = [] -> last_write key (t0 ++ tE) = last_write key t0.
Proof. intros HtE. by rewrite last_write_app, (last_write_no_puts key tE HtE). Qed.

Section PublishedRun.

Variables (turndown : string -> string) (fuel : nat).
Variables (env : Env) (up : Upstream) (request : Request).
Variables (audienceId : string) (pa : Page Audience.t) (pb : Page Broadcast.t).
Variable json : JsonReader.

Hypothesis Hauthorized : authorized env request = true.
Hypothesis HapiKey : truthy (RESEND_API_KEY env) = true.
Hypothesis HaudienceId : RESEND_AUDIENCE_ID env = Some audienceId.
Hypothesis Hnonempty : audienceId <> "".
Hypothesis Haudiences : audiences up = Ok pa.
Hypothesis Hbroadcasts : broadcasts up = Ok pb.

Lemma log_current (s : Store) :
  log_of (Cron.GET turndown env up request) s
  = (audiencesLog (items pa) ++ broadcastsLog (forAudience audienceId (items pb)))
    ++ concat (map (fun b => log_of (Cron.storeOne turndown up b) ∅)
                 (forAudience audienceId (items pb))).
Proof.
  rewrite (log_GET_current _ _ _ _ audienceId) by done.
  by rewrite sync_current_run, Haudiences, Hbroadcasts.
Qed.

(** The log of a historical run: steps 1 and 2, the calls of the email
    loop, and, when the loop returns, the writes of step 3 and the
    correlation. *)
Lemma log_historical (s : Store) :
  let kept := forAudience audienceId (items pb) in
  let t0 := audiencesLog (items pa) ++ broadcastsLog kept in
  exists tE,
    puts tE = []
    /\ ((log_of (CronHistorical.GET turndown fuel env up request) s = t0 ++ tE
         /\ forall fetched,
              result_of (CronHistorical.fetchEmailsIncrementally fuel up) s
              <> Return fetched)
        \/ exists N,
             result_of (CronHistorical.fetchEmailsIncrementally fuel up) s
             = Return (N, N ++ CronHistorical.storedEmails s)
             /\ log_of (CronHistorical.GET turndown fuel env up request) s
                = t0 ++ tE ++ emailsLog N (N ++ CronHistorical.storedEmails s)
                  ++ concat (map (fun b =>
                                    log_of (CronHistorical.matchOne turndown up N b) ∅)
                               kept)).
Proof.
  intros kept t0.
  rewrite (log_GET_historical _ _ _ _ _ audienceId) by done.
  rewrite sync_historical_run, Haudiences, Hbroadcasts. cbn zeta.
  unfold result_of. rewrite fetchEmailsIncrementally_run. cbn zeta.
  pose proof (emailsLoop_puts fuel up (CronHistorical.storedLastEmailId s)
                (CronHistorical.storedLastEmailId s) [] ∅) as Hp.
  unfold log_of in Hp.
  destruct (CronHistorical.emailsLoop _ _ _ _ _ ∅) as [[N|e|] tE];
    cbn [fst snd] in *; exists tE; (split; [done|]).
  - right. exists N. split; [done|].
    unfold log_of. by rewrite matchAndStore_run.
  - by left.
  - by left.
Qed.

Lemma store_after_current_broadcasts (s : Store) :
  store_after (Cron.GET turndown env up request) s !! "rss_broadcasts"
  = Some (BBroadcasts (forAudience audienceId (items pb))).
Proof.
  unfold store_after. rewrite log_current, replay_lookup, !last_write_app.
  by rewrite last_write_broadcasts_store, last_write_broadcasts_broadcastsLog.
Qed.

Lemma store_after_current_info (s : Store) b details :
  b ∈ forAudience audienceId (items pb) ->
  broadcast up (Broadcast.id b) = Ok details ->
  truthy (Broadcast.html details) = true ->
  let s' := store_after (Cron.GET turndown env up request) s in
  s' !! Cron.infoKey (Broadcast.id b) = Some (BBroadcast details)
  /\ s' !! Cron.infoMdKey (Broadcast.id b)
     = Some (BContent details (turndown (default "" (Broadcast.html details)))).
Proof.
  intros Hin Hd Hh s'. unfold s', store_after.
  destruct (last_write_store_written turndown up _ b details Hin Hd Hh) as [H1 H2].
  rewrite log_current, !replay_lookup.
  rewrite (last_write_app (Cron.infoKey _)), H1.
  by rewrite (last_write_app (Cron.infoMdKey _)), H2.
Qed.

Lemma store_after_historical_info (s : Store) N All b details matching found :
  result_of (CronHistorical.fetchEmailsIncrementally fuel up) s = Return (N, All) ->
  b ∈ forAudience audienceId (items pb) ->
  broadcast up (Broadcast.id b) = Ok details ->
  truthy (Broadcast.subject details) = true ->
  truthy (Broadcast.from details) = true ->
  CronHistorical.findMatchingEmail details N = Some matching ->
  email up (Email.id matching) = Ok found ->
  truthy (Email.html found) = true ->
  let s' := store_after (CronHistorical.GET turndown fuel env up request) s in
  let html := default "" (Email.html found) in
  s' !! CronHistorical.infoKey (Broadcast.id b)
  = Some (BBroadcast (Broadcast.with_html details html))
  /\ s' !! CronHistorical.infoMdKey (Broadcast.id b)
     = Some (BContent details (turndown html)).
Proof.
  intros HN Hin Hd Hs Hf Hm He Hh s' html. unfold s', store_after.
  destruct (log_historical s) as (tE & _ & [[_ Hno]|(N' & HN' & ->)]);
    [by destruct (Hno (N, All))|].
  rewrite HN in HN'. injection HN' as <- _.
  destruct (last_write_match_written turndown up N _ b details matching found
              Hin Hd Hs Hf Hm He Hh) as [H1 H2].
  rewrite !replay_lookup.
  rewrite !(last_write_app (CronHistorical.infoKey _)), H1.
  by rewrite !(last_write_app (CronHistorical.infoMdKey _)), H2.
Qed.

(** X10. After a run of the current route, the detail route serves the html
    the provider gave for every kept broadcast whose detail call was
    answered with one: the info record is the provider's answer as it
    came, and the markdown record is the same answer with the html
    converted. Broadcasts sharing an id get the same records, so no
    condition on the ids is needed. *)
Theorem current_run_publishes_upstream_html (s : Store) b details :
  b ∈ forAudience audienceId (items pb) ->
  broadcast up (Broadcast.id b) = Ok details ->
  truthy (Broadcast.html details) = true ->
  let s' := store_after (Cron.GET turndown env up request) s in
  s' !! Cron.infoKey (Broadcast.id b) = Some (BBroadcast details)
  /\ s' !! Cron.infoMdKey (Broadcast.id b)
     = Some (BContent details (turndown (default "" (Broadcast.html details))))
  /\ BroadcastDetail.GET json (Broadcast.id b) s'
     = (Return (mkHttp 200 [("Content-Type", "text/html")]
                  (Plain (default "" (Broadcast.html details)))), []).
Proof.
  intros Hin Hd Hh s'.
  destruct (store_after_current_info s b details Hin Hd Hh) as [H1 H2].
  fold s' in H1, H2. split; [done|]. split; [done|].
  destruct (truthy_inv _ Hh) as (h & Hhtml & Hne).
  rewrite Hhtml. apply (detail_route_serves_html _ _ _ (BBroadcast details)); [done| |done].
  simpl. by rewrite Hhtml.
Qed.

(** X11. After a run of the historical route that got its emails, the detail
    route serves, for a kept broadcast whose details name a subject and
    a sender, the html of the first new email with that subject and
    sender, as the email detail call gave it; the markdown record holds
    the broadcast's details with that html converted. *)
Theorem historical_run_publishes_matched_html
    (s : Store) N All b details matching found :
  result_of (CronHistorical.fetchEmailsIncrementally fuel up) s = Return (N, All) ->
  b ∈ forAudience audienceId (items pb) ->
  broadcast up (Broadcast.id b) = Ok details ->
  truthy (Broadcast.subject details) = true ->
  truthy (Broadcast.from details) = true ->
  CronHistorical.findMatchingEmail details N = Some matching ->
  email up (Email.id matching) = Ok found ->
  truthy (Email.html found) = true ->
  let s' := store_after (CronHistorical.GET turndown fuel env up request) s in
  let html := default "" (Email.html found) in
  s' !! CronHistorical.infoKey (Broadcast.id b)
  = Some (BBroadcast (Broadcast.with_html details html))
  /\ s' !! CronHistorical.infoMdKey (Broadcast.id b)
     = Some (BContent details (turndown html))
  /\ BroadcastDetail.GET json (Broadcast.id b) s'
     = (Return (mkHttp 200 [("Content-Type", "text/html")] (Plain html)), []).
Proof.
  intros HN Hin Hd Hs Hf Hm He Hh s' html.
  destruct (store_after_historical_info s N All b details matching found
              HN Hin Hd Hs Hf Hm He Hh) as [H1 H2].
  fold s' in H1, H2. fold html in H1, H2. split; [done|]. split; [done|].
  destruct (truthy_inv _ Hh) as (h & Hhtml & Hne).
  apply (detail_route_serves_html _ _ _
           (BBroadcast (Broadcast.with_html details html))); [done|done|].
  unfold html. by rewrite Hhtml.
Qed.

(** X12. After a run of the current route the feed answers 200 and lists the
    kept broadcasts, in the provider's order and with the fields of the
    list call; the html of an item is the one the detail call of its
    broadcast gave, whenever that call gave one. *)
Theorem feed_after_current_run toUTCString config (s : Store) :
  let kept := forAudience audienceId (items pb) in
  let s' := store_after (Cron.GET turndown env up request) s in
  exists shown,
    Feed.GET json toUTCString config s'
    = (Return (mkHttp 200 [("Content-Type", "application/xml")]
                 (Plain (Feed.generateRSS toUTCString config shown))), [])
    /\ Forall2
         (fun b b' =>
            Feed.setHtml b' None = Feed.setHtml b None
            /\ forall details,
                 broadcast up (Broadcast.id b) = Ok details ->
                 truthy (Broadcast.html details) = true ->
                 Broadcast.html b' = Broadcast.html details)
         kept shown.
Proof.
  intros kept s'. exists (map (withStoredHtml json s') kept). split.
  - rewrite feed_GET_run. unfold s'. by rewrite store_after_current_broadcasts.
  - apply Forall2_fmap_r, Forall_Forall2_diag, Forall_forall. intros b Hb.
    split; [apply withStoredHtml_fields|]. intros details Hd Hh.
    destruct (store_after_current_info s b details Hb Hd Hh) as [H1 _].
    unfold withStoredHtml. fold s' in H1. unfold Cron.infoKey in H1.
    by rewrite H1.
Qed.

Lemma audience_record_after_lists (s : Store) a :
  last_with_key Audience.id (items pa) a ->
  store_after (Cron.GET turndown env up request) s
    !! ("rss_audience_" +:+ Audience.id a) = Some (BAudience a)
  /\ store_after (CronHistorical.GET turndown fuel env up request) s
       !! ("rss_audience_" +:+ Audience.id a) = Some (BAudience a).
Proof.
  intros Hlast.
  pose proof (last_write_records (fun a => "rss_audience_" +:+ Audience.id a) BAudience
                (items pa) a (last_with_key_prefix _ _ _ _ Hlast)) as Hrec.
  assert (Hb : forall x, "rss_audience_" +:+ Audience.id a <> "rss_broadcast" +:+ x)
    by (intros x; simpl; discriminate).
  assert (He : forall x, "rss_audience_" +:+ Audience.id a <> "rss_email" +:+ x)
    by (intros x; simpl; discriminate).
  assert (Hc : "rss_audience_" +:+ Audience.id a <> "rss_last_email_id")
    by (simpl; discriminate).
  assert (H0 : forall B,
    last_write ("rss_audience_" +:+ Audience.id a) (audiencesLog (items pa) ++ broadcastsLog B)
    = Some (BAudience a)).
  { intros B. rewrite last_write_app, last_write_broadcasts_outside by done.
    unfold audiencesLog. by rewrite last_write_app, Hrec. }
  split; unfold store_after.
  - rewrite log_current, replay_lookup, last_write_app.
    by rewrite last_write_store_outside, H0.
  - destruct (log_historical s) as (tE & HtE & [[-> _]|(N & _ & ->)]);
      rewrite replay_lookup.
    + by rewrite last_write_cut, H0.
    + rewrite last_write_completed by done.
      by rewrite last_write_match_outside, last_write_emails_outside, H0.
Qed.

(** X14. Each kept broadcast is recorded under its own key by both routes
    (the last one of the list with that id), provided no kept
    broadcast has for id the id of another one followed by [_info] or
    [_info_md]: such an id makes the enrichment write over the record. *)
Theorem last_broadcast_with_an_id_is_recorded (s : Store) b :
  let kept := forAudience audienceId (items pb) in
  info_keys_apart kept ->
  last_with_key Broadcast.id kept b ->
  store_after (Cron.GET turndown env up request) s
    !! ("rss_broadcast_" +:+ Broadcast.id b) = Some (BBroadcast b)
  /\ store_after (CronHistorical.GET turndown fuel env up request) s
       !! ("rss_broadcast_" +:+ Broadcast.id b) = Some (BBroadcast b).
Proof.
  intros kept Hapart Hlast.
  pose proof (last_write_records (fun b => "rss_broadcast_" +:+ Broadcast.id b) BBroadcast
                kept b (last_with_key_prefix _ _ _ _ Hlast)) as Hrec.
  assert (Hin : b ∈ kept).
  { destruct Hlast as (before & after & -> & _). set_solver. }
  assert (He : forall x, "rss_broadcast_" +:+ Broadcast.id b <> "rss_email" +:+ x)
    by (intros x; simpl; discriminate).
  assert (Hc : "rss_broadcast_" +:+ Broadcast.id b <> "rss_last_email_id")
    by (simpl; discriminate).
  assert (H0 :
    last_write ("rss_broadcast_" +:+ Broadcast.id b) (audiencesLog (items pa) ++ broadcastsLog kept)
    = Some (BBroadcast b)).
  { rewrite last_write_app. unfold broadcastsLog. by rewrite last_write_app, Hrec. }
  split; unfold store_after.
  - rewrite log_current, replay_lookup, last_write_app. fold kept.
    rewrite H0. rewrite last_write_absent; [done|].
    intros k v H ->. apply elem_of_puts_concat in H as (b' & Hb' & H).
    apply puts_storeOne in H. destruct (Hapart b' b Hb' Hin) as [H1 H2].
    destruct H as [H|H]; apply append_cancel in H; done.
  - destruct (log_historical s) as (tE & HtE & [[-> _]|(N & _ & ->)]);
      rewrite replay_lookup; fold kept.
    + by rewrite last_write_cut, H0.
    + rewrite last_write_completed by done.
      rewrite last_write_emails_outside, H0 by done.
      rewrite last_write_absent; [done|].
      intros k v H ->. apply elem_of_puts_concat in H as (b' & Hb' & H).
      apply puts_matchOne in H. destruct (Hapart b' b Hb' Hin) as [H1 H2].
      destruct H as [H|H]; apply append_cancel in H; done.
Qed.

(** X15. A historical run that got its emails records each new email under
    its own key (the last of the new emails with that id) and leaves
    the records of all other email ids as they were. *)
Theorem new_emails_are_recorded (s : Store) N All :
  result_of (CronHistorical.fetchEmailsIncrementally fuel up) s = Return (N, All) ->
  let s' := store_after (CronHistorical.GET turndown fuel env up request) s in
  (forall e, last_with_key Email.id N e ->
     s' !! ("rss_email_" +:+ Email.id e) = Some (BEmail e))
  /\ (forall id, (forall e, e ∈ N -> Email.id e <> id) ->
        s' !! ("rss_email_" +:+ id) = s !! ("rss_email_" +:+ id)).
Proof.
  intros HN s'. unfold s', store_after.
  destruct (log_historical s) as (tE & HtE & [[_ Hno]|(N' & HN' & ->)]);
    [by destruct (Hno (N, All))|].
  rewrite HN in HN'. injection HN' as <- _.
  assert (Ha : forall id x, "rss_email_" +:+ id <> "rss_audience" +:+ x)
    by (intros id x; simpl; discriminate).
  assert (Hb : forall id x, "rss_email_" +:+ id <> "rss_broadcast" +:+ x)
    by (intros id x; simpl; discriminate).
  assert (Hlater : forall id,
    last_write ("rss_email_" +:+ id)
      (concat (map (fun b => log_of (CronHistorical.matchOne turndown up N b) ∅)
                 (forAudience audienceId (items pb)))) = None).
  { intros id. by apply last_write_match_outside. }
  assert (Hearlier : forall id,
    last_write ("rss_email_" +:+ id)
      (audiencesLog (items pa) ++ broadcastsLog (forAudience audienceId (items pb))) = None).
  { intros id. rewrite last_write_app.
    by rewrite last_write_broadcasts_outside, last_write_audiences_outside. }
  split.
  - intros e Hlast.
    pose proof (last_write_records (fun e => "rss_email_" +:+ Email.id e) BEmail
                  N e (last_with_key_prefix _ _ _ _ Hlast)) as Hrec.
    rewrite replay_lookup, last_write_completed, Hlater by done.
    unfold emailsLog.
    change (EvPut "rss_emails" (BEmails ?l) :: ?t) with ([EvPut "rss_emails" (BEmails l)] ++ t).
    rewrite !last_write_app, Hrec.
    by destruct (N ++ CronHistorical.storedEmails s).
  - intros id Hid.
    rewrite replay_lookup, last_write_completed, Hlater, Hearlier by done.
    rewrite last_write_absent; [done|].
    intros k v H ->. apply puts_emailsLog in H as [H|[H|(e & He & H)]].
    + simpl in H. discriminate.
    + simpl in H. discriminate.
    + apply append_cancel in H. by apply (Hid e He).
Qed.

(** X16. The counts of the 200 answer: the audiences of the list call and
    the broadcasts kept (never more than the provider listed); in the
    historical route also the new emails and the total, which is the
    new emails plus the emails that were stored before the run. *)
Theorem success_answer_counts (s : Store) N All :
  result_of (CronHistorical.fetchEmailsIncrementally fuel up) s = Return (N, All) ->
  let kept := forAudience audienceId (items pb) in
  result_of (Cron.GET turndown env up request) s
  = Return (mkHttp 200 [] (SuccessJson (length (items pa)) (length kept) None))
  /\ result_of (CronHistorical.GET turndown fuel env up request) s
     = Return (mkHttp 200 []
                 (SuccessJson (length (items pa)) (length kept)
                    (Some (length N,
                           (length N + length (CronHistorical.storedEmails s))%nat))))
  /\ (length kept <= length (items pb))%nat.
Proof.
  intros HN kept. split; [|split].
  - unfold result_of. rewrite (GET_current_run _ _ _ _ audienceId) by done.
    by rewrite sync_current_run, Haudiences, Hbroadcasts.
  - unfold result_of in *. rewrite (GET_historical_run _ _ _ _ _ audienceId) by done.
    rewrite sync_historical_run, Haudiences, Hbroadcasts. cbn zeta.
    rewrite fetchEmailsIncrementally_run in HN. cbn zeta in HN.
    destruct (CronHistorical.emailsLoop _ _ _ _ _ ∅) as [[N'|e|] tE]; try done.
    cbn [fst] in *. injection HN as -> _. by rewrite length_app.
  - apply List.filter_length_le.
Qed.

(** C7. A non-2xx answer to the detail call of one broadcast is not
    fatal. In both routes the iteration for that broadcast makes its call,
    sleeps and writes nothing; the loop goes on: the detail call of every
    kept broadcast is still made, and every other kept broadcast whose
    calls are answered with html is enriched as if nothing had failed
    (its info and markdown records are written); the run ends with the
    200 success response (in the historical route, once the email fetch
    has returned); and, provided no kept broadcast has for id the id of
    another one followed by [_info] or [_info_md], the run leaves under
    the two info keys of the skipped broadcast what was there before. *)
Theorem failed_detail_call_skips_the_broadcast (s : Store) failed st :
  failed ∈ forAudience audienceId (items pb) ->
  broadcast up (Broadcast.id failed) = NotOk st ->
  let kept := forAudience audienceId (items pb) in
  let skip := [EvFetch (UBroadcast (Broadcast.id failed)); EvSleep 500] in
  (* the current route *)
  ((forall s', Cron.storeOne turndown up failed s' = (Return tt, skip))
   /\ fetches (log_of (Cron.GET turndown env up request) s)
      = [UAudiences; UBroadcasts] ++ map (fun b => UBroadcast (Broadcast.id b)) kept
   /\ result_of (Cron.GET turndown env up request) s
      = Return (mkHttp 200 [] (SuccessJson (length (items pa)) (length kept) None))
   /\ (forall b details,
         b ∈ kept ->
         broadcast up (Broadcast.id b) = Ok details ->
         truthy (Broadcast.html details) = true ->
         let s' := store_after (Cron.GET turndown env up request) s in
         s' !! Cron.infoKey (Broadcast.id b) = Some (BBroadcast details)
         /\ s' !! Cron.infoMdKey (Broadcast.id b)
            = Some (BContent details (turndown (default "" (Broadcast.html details)))))
   /\ (info_keys_apart kept ->
       let s' := store_after (Cron.GET turndown env up request) s in
       s' !! Cron.infoKey (Broadcast.id failed) = s !! Cron.infoKey (Broadcast.id failed)
       /\ s' !! Cron.infoMdKey (Broadcast.id failed)
          = s !! Cron.infoMdKey (Broadcast.id failed)))
  (* the historical route *)
  /\ ((forall emails s',
         CronHistorical.matchOne turndown up emails failed s' = (Return tt, skip))
      /\ (info_keys_apart kept ->
          let s' := store_after (CronHistorical.GET turndown fuel env up request) s in
          s' !! CronHistorical.infoKey (Broadcast.id failed)
          = s !! CronHistorical.infoKey (Broadcast.id failed)
          /\ s' !! CronHistorical.infoMdKey (Broadcast.id failed)
             = s !! CronHistorical.infoMdKey (Broadcast.id failed))
      /\ forall N All,
           result_of (CronHistorical.fetchEmailsIncrementally fuel up) s
           = Return (N, All) ->
           (forall b, b ∈ kept ->
              UBroadcast (Broadcast.id b)
              ∈ fetches (log_of (CronHistorical.GET turndown fuel env up request) s))
           /\ (forall b details matching found,
                 b ∈ kept ->
                 broadcast up (Broadcast.id b) = Ok details ->
                 truthy (Broadcast.subject details) = true ->
                 truthy (Broadcast.from details) = true ->
                 CronHistorical.findMatchingEmail details N = Some matching ->
                 email up (Email.id matching) = Ok found ->
                 truthy (Email.html found) = true ->
                 let s' :=
                   store_after (CronHistorical.GET turndown fuel env up request) s in
                 let html := default "" (Email.html found) in
                 s' !! CronHistorical.infoKey (Broadcast.id b)
                 = Some (BBroadcast (Broadcast.with_html details html))
                 /\ s' !! CronHistorical.infoMdKey (Broadcast.id b)
                    = Some (BContent details (turndown html)))
           /\ result_of (CronHistorical.GET turndown fuel env up request) s
              = Return (mkHttp 200 []
                          (SuccessJson (length (items pa)) (length kept)
                             (Some (length N, length All))))).
Proof.
  intros Hin Hfail kept skip.
  pose proof (info_of_failed_broadcast_untouched turndown fuel env up request
                audienceId pa pb Hauthorized HapiKey HaudienceId Hnonempty
                Haudiences Hbroadcasts s failed st) as Huntouched.
  split; [split; [|split; [|split; [|split]]]|split; [|split]].
  - intros s'. rewrite storeOne_run, Hfail. done.
  - rewrite log_current. rewrite !fetches_app, fetches_audiencesLog, fetches_broadcastsLog.
    by rewrite fetches_concat_store.
  - unfold result_of. rewrite (GET_current_run _ _ _ _ audienceId) by done.
    by rewrite sync_current_run, Haudiences, Hbroadcasts.
  - intros b details Hb Hd Hh. by apply store_after_current_info.
  - intros Hapart s'. split; by apply Huntouched; auto.
  - intros emails s'. rewrite matchOne_run, Hfail. done.
  - intros Hapart s'. split; by apply Huntouched; auto.
  - intros N All HN. split; [|split].
    + intros b Hb.
      destruct (log_historical s) as (tE & _ & [[_ Hno]|(N' & _ & ->)]);
        [by destruct (Hno (N, All))|].
      rewrite !fetches_app, !elem_of_app. right. right. right.
      by apply detail_call_of_each_broadcast.
    + intros b details matching found Hb Hd Hs Hf Hm He Hh.
      by apply (store_after_historical_info s N All b details matching found).
    + unfold result_of in *. rewrite (GET_historical_run _ _ _ _ _ audienceId) by done.
      rewrite sync_historical_run, Haudiences, Hbroadcasts. cbn zeta.
      rewrite fetchEmailsIncrementally_run in HN. cbn zeta in HN.
      destruct (CronHistorical.emailsLoop _ _ _ _ _ ∅) as [[N'|e|] tE]; try done.
      cbn [fst] in *. by injection HN as -> <-.
Qed.

End PublishedRun.

(** X13. Each audience of the list is recorded under its own key by both
    routes, whatever happens later in the run (the broadcasts call or
    the email fetch may fail); when several audiences of the list share
    an id, the record is the last of them. *)
Theorem last_audience_with_an_id_is_recorded
    turndown fuel env up request (s : Store) pa a :
  authorized env request = true ->
  truthy (RESEND_API_KEY env) = true ->
  truthy (RESEND_AUDIENCE_ID env) = true ->
  audiences up = Ok pa ->
  last_with_key Audience.id (items pa) a ->
  store_after (Cron.GET turndown env up request) s
    !! ("rss_audience_" +:+ Audience.id a) = Some (BAudience a)
  /\ store_after (CronHistorical.GET turndown fuel env up request) s
       !! ("rss_audience_" +:+ Audience.id a) = Some (BAudience a).
Proof.
  intros Ha Hk Hi Hpa Hlast.
  destruct (broadcasts up) as [pb|st] eqn:Hpb.
  - destruct (truthy_inv _ Hi) as (audienceId & Hid & Hne).
    by apply (audience_record_after_lists turndown fuel env up request audienceId pa pb).
  - pose proof (last_write_records (fun a => "rss_audience_" +:+ Audience.id a) BAudience
                  (items pa) a (last_with_key_prefix _ _ _ _ Hlast)) as Hrec.
    assert (Hlog : last_write ("rss_audience_" +:+ Audience.id a)
                     (audiencesLog (items pa) ++ [EvFetch UBroadcasts])
                   = Some (BAudience a)).
    { rewrite last_write_cut by done. unfold audiencesLog.
      by rewrite last_write_app, Hrec. }
    unfold store_after, log_of. split.
    + rewrite GET_current_authorized by done.
      rewrite try_catch_ret, sync_current_run, Hpa, Hpb. cbn [snd].
      by rewrite replay_lookup, Hlog.
    + rewrite GET_historical_authorized by done.
      rewrite try_catch_ret, sync_historical_run, Hpa, Hpb. cbn [snd].
      by rewrite replay_lookup, Hlog.
Qed.

Lemma failed_detail_call_skips_the_broadcast_witness :
  let up := Sample.upstream Sample.oneAudience Sample.newerThan Sample.firstFails in
  let current := Cron.GET Sample.markdown Sample.env up Sample.request in
  let historical := CronHistorical.GET Sample.markdown 1 Sample.env up Sample.request in
  let enriched := BBroadcast (Broadcast.with_html (Sample.details "b2") "<p>Hi</p>") in
  (result_of current ∅ = Return (mkHttp 200 [] (SuccessJson 1 2 None))
   /\ store_after current ∅ !! "rss_broadcast_b1_info" = None
   /\ store_after current ∅ !! "rss_broadcast_b2_info" = Some enriched)
  /\ (result_of historical ∅
      = Return (mkHttp 200 [] (SuccessJson 1 2 (Some (2%nat, 2%nat))))
      /\ store_after historical ∅ !! "rss_broadcast_b1_info" = None
      /\ store_after historical ∅ !! "rss_broadcast_b2_info" = Some enriched).
Proof.
  intros up current historical enriched.
  assert (Hapart : info_keys_apart Sample.oneAudience).
  { intros b b' Hb Hb'. unfold Sample.oneAudience in Hb, Hb'.
    rewrite !elem_of_cons, elem_of_nil in Hb, Hb'.
    destruct Hb as [->|[->|[]]], Hb' as [->|[->|[]]]; split; discriminate. }
  pose proof (failed_detail_call_skips_the_broadcast Sample.markdown 1%nat Sample.env up
                Sample.request "a1"
                (mkPage (Some [Sample.audience]) None)
                (mkPage (Some Sample.oneAudience) None)
                eq_refl eq_refl eq_refl ltac:(discriminate) eq_refl eq_refl
                ∅ (Sample.summary "b1" "a1") 404
                ltac:(vm_compute; left) eq_refl)
    as [(_ & _ & Hc & Hothers & Hskipped) (_ & Hskipped' & Hh)].
  split; [split; [|split]|split; [|split]].
  - exact Hc.
  - exact (proj1 (Hskipped Hapart)).
  - exact (proj1 (Hothers (Sample.summary "b2" "a1")
                    (Broadcast.with_html (Sample.details "b2") "<p>Hi</p>")
                    ltac:(vm_compute; right; left) eq_refl eq_refl)).
  - exact (proj2 (proj2 (Hh [Sample.email "e2"; Sample.email "e1"]
                           [Sample.email "e2"; Sample.email "e1"] eq_refl))).
  - exact (proj1 (Hskipped' Hapart)).
  - exact (proj1 (proj1 (proj2 (Hh [Sample.email "e2"; Sample.email "e1"]
                                  [Sample.email "e2"; Sample.email "e1"] eq_refl))
                    (Sample.summary "b2" "a1")
                    (Broadcast.with_html (Sample.details "b2") "<p>Hi</p>")
                    (Sample.email "e2") (Sample.email "e2")
                    ltac:(vm_compute; right; left)
                    eq_refl eq_refl eq_refl eq_refl eq_refl eq_refl)).
Defined.

Lemma current_run_publishes_upstream_html_witness :
  let up := Sample.upstream Sample.twoAudiences Sample.nothing Sample.okHtml in
  BroadcastDetail.GET Sample.reader "b1"
    (store_after (Cron.GET Sample.markdown Sample.env up Sample.request) ∅)
  = (Return (mkHttp 200 [("Content-Type", "text/html")] (Plain "<p>Hi</p>")), []).
Proof.
  intros up.
  exact (proj2 (proj2
    (current_run_publishes_upstream_html Sample.markdown Sample.env up Sample.request
       "a1" (mkPage (Some [Sample.audience]) None)
       (mkPage (Some Sample.twoAudiences) None)
       Sample.reader
       eq_refl eq_refl eq_refl ltac:(discriminate) eq_refl eq_refl
       ∅ (Sample.summary "b1" "a1")
       (Broadcast.with_html (Sample.details "b1") "<p>Hi</p>")
       ltac:(vm_compute; left) eq_refl eq_refl))).
Defined.

Lemma historical_run_publishes_matched_html_witness :
  let up := Sample.upstream Sample.twoAudiences Sample.newerThan Sample.ok in
  BroadcastDetail.GET Sample.reader "b1"
    (store_after (CronHistorical.GET Sample.markdown 1 Sample.env up Sample.request) ∅)
  = (Return (mkHttp 200 [("Content-Type", "text/html")] (Plain "<p>Hi</p>")), []).
Proof.
  intros up.
  exact (proj2 (proj2
    (historical_run_publishes_matched_html Sample.markdown 1%nat Sample.env up
       Sample.request "a1" (mkPage (Some [Sample.audience]) None)
       (mkPage (Some Sample.twoAudiences) None)
       Sample.reader
       eq_refl eq_refl eq_refl ltac:(discriminate) eq_refl eq_refl
       ∅ [Sample.email "e2"; Sample.email "e1"] [Sample.email "e2"; Sample.email "e1"]
       (Sample.summary "b1" "a1") (Sample.details "b1")
       (Sample.email "e2") (Sample.email "e2")
       eq_refl ltac:(vm_compute; left) eq_refl eq_refl eq_refl eq_refl eq_refl eq_refl))).
Defined.

Lemma feed_after_current_run_witness :
  let up := Sample.upstream Sample.twoAudiences Sample.nothing Sample.okHtml in
  exists shown,
    Feed.GET Sample.reader Sample.utc Sample.feedConfig
      (store_after (Cron.GET Sample.markdown Sample.env up Sample.request) ∅)
    = (Return (mkHttp 200 [("Content-Type", "application/xml")]
                 (Plain (Feed.generateRSS Sample.utc Sample.feedConfig shown))), [])
    /\ length shown = 1%nat.
Proof.
  intros up.
  destruct (feed_after_current_run Sample.markdown Sample.env up Sample.request
              "a1" (mkPage (Some [Sample.audience]) None)
              (mkPage (Some Sample.twoAudiences) None)
              Sample.reader
              eq_refl eq_refl eq_refl ltac:(discriminate) eq_refl eq_refl
              Sample.utc Sample.feedConfig ∅) as (shown & Hrun & Hshown).
  exists shown. split; [exact Hrun|].
  symmetry. exact (Forall2_length _ _ _ Hshown).
Defined.

Lemma last_audience_with_an_id_is_recorded_witness :
  let failing := mkUpstream (Ok (mkPage (Some [Sample.audience]) None)) (NotOk 503)
                   Sample.nothing Sample.notFound (fun _ => NotOk 404) in
  let answering := Sample.upstream Sample.twoAudiences Sample.nothing Sample.okHtml in
  store_after (Cron.GET Sample.markdown Sample.env failing Sample.request) ∅
    !! "rss_audience_a1" = Some (BAudience Sample.audience)
  /\ store_after (CronHistorical.GET Sample.markdown 1 Sample.env answering Sample.request) ∅
       !! "rss_audience_a1" = Some (BAudience Sample.audience).
Proof.
  intros failing answering.
  assert (Hlast : last_with_key Audience.id [Sample.audience] Sample.audience).
  { exists [], []. split; [reflexivity|constructor]. }
  split.
  - exact (proj1 (last_audience_with_an_id_is_recorded Sample.markdown 1%nat Sample.env
                    failing Sample.request ∅ (mkPage (Some [Sample.audience]) None)
                    Sample.audience eq_refl eq_refl eq_refl eq_refl Hlast)).
  - exact (proj2 (last_audience_with_an_id_is_recorded Sample.markdown 1%nat Sample.env
                    answering Sample.request ∅ (mkPage (Some [Sample.audience]) None)
                    Sample.audience eq_refl eq_refl eq_refl eq_refl Hlast)).
Defined.

Lemma last_broadcast_with_an_id_is_recorded_witness :
  let up := Sample.upstream Sample.twoAudiences Sample.nothing Sample.okHtml in
  store_after (Cron.GET Sample.markdown Sample.env up Sample.request) ∅
    !! "rss_broadcast_b1" = Some (BBroadcast (Sample.summary "b1" "a1")).
Proof.
  intros up.
  refine (proj1
    (last_broadcast_with_an_id_is_recorded Sample.markdown 1%nat Sample.env up
       Sample.request "a1" (mkPage (Some [Sample.audience]) None)
       (mkPage (Some Sample.twoAudiences) None)
       eq_refl eq_refl eq_refl ltac:(discriminate) eq_refl eq_refl
       ∅ (Sample.summary "b1" "a1") _ _)).
  - intros b b' Hb Hb'. vm_compute in Hb, Hb'.
    apply list_elem_of_singleton in Hb, Hb'. subst b b'. split; discriminate.
  - exists [], []. split; [reflexivity|constructor].
Defined.

Lemma new_emails_are_recorded_witness :
  let up := Sample.upstream Sample.twoAudiences Sample.newerThan Sample.ok in
  store_after (CronHistorical.GET Sample.markdown 1 Sample.env up Sample.request)
    Sample.afterFirstEmail !! "rss_email_e2" = Some (BEmail (Sample.email "e2"))
  /\ store_after (CronHistorical.GET Sample.markdown 1 Sample.env up Sample.request)
       Sample.afterFirstEmail !! "rss_email_e1" = Sample.afterFirstEmail !! "rss_email_e1".
Proof.
  intros up.
  destruct (new_emails_are_recorded Sample.markdown 1%nat Sample.env up
              Sample.request "a1" (mkPage (Some [Sample.audience]) None)
              (mkPage (Some Sample.twoAudiences) None)
              eq_refl eq_refl eq_refl ltac:(discriminate) eq_refl eq_refl
              Sample.afterFirstEmail
              [Sample.email "e2"] [Sample.email "e2"; Sample.email "e1"] eq_refl)
    as [Hnew Hold].
  split.
  - apply (Hnew (Sample.email "e2")).
    exists [], []. split; [reflexivity|constructor].
  - apply (Hold "e1"). intros e He.
    apply list_elem_of_singleton in He. subst e. discriminate.
Defined.

Lemma success_answer_counts_witness :
  let up := Sample.upstream Sample.twoAudiences Sample.newerThan Sample.ok in
  result_of (CronHistorical.GET Sample.markdown 1 Sample.env up Sample.request)
    Sample.afterFirstEmail
  = Return (mkHttp 200 [] (SuccessJson 1 1 (Some (1%nat, 2%nat)))).
Proof.
  intros up.
  exact (proj1 (proj2
    (success_answer_counts Sample.markdown 1%nat Sample.env up Sample.request "a1"
       (mkPage (Some [Sample.audience]) None) (mkPage (Some Sample.twoAudiences) None)
       eq_refl eq_refl eq_refl ltac:(discriminate) eq_refl eq_refl
       Sample.afterFirstEmail [Sample.email "e2"]
       [Sample.email "e2"; Sample.email "e1"] eq_refl))).
Defined.

(** ** Runs that fail *)

(** X17. An authorized request is answered 500 by both routes, with no
    upstream call and no write, when the API key or the audience id is
    not set or is the empty string. *)
Theorem missing_configuration_is_reported_without_effects
    turndown fuel env up request (s : Store) :
  authorized env request = true ->
  truthy (RESEND_API_KEY env) = false \/ truthy (RESEND_AUDIENCE_ID env) = false ->
  Cron.GET turndown env up request s = (Return missing_config, [])
  /\ CronHistorical.GET turndown fuel env up request s = (Return missing_config, []).
Proof.
  intros Ha Hmissing. unfold Cron.GET, CronHistorical.GET. rewrite Ha.
  destruct Hmissing as [-> | ->]; [done|].
  by destruct (truthy (RESEND_API_KEY env)).
Qed.

Lemma missing_configuration_is_reported_without_effects_witness :
  let env := mkEnv (Some "s3cret") (Some "re_key") (Some "") in
  let up := Sample.upstream Sample.twoAudiences Sample.nothing Sample.ok in
  Cron.GET Sample.markdown env up Sample.request ∅ = (Return missing_config, []).
Proof.
  intros env up.
  exact (proj1 (missing_configuration_is_reported_without_effects Sample.markdown 1%nat
                  env up Sample.request ∅ eq_refl (or_intror eq_refl))).
Defined.

(** X18. When the audiences call is answered with a non-2xx status, both
    routes answer 500 with the status in the details; the call is the
    only effect of the run and the store is left as it was. *)
Theorem failed_audiences_call_ends_the_run turndown fuel env up request (s : Store) st :
  authorized env request = true ->
  truthy (RESEND_API_KEY env) = true ->
  truthy (RESEND_AUDIENCE_ID env) = true ->
  audiences up = NotOk st ->
  let answer :=
    (Return (sync_failed ("Failed to fetch audiences: " +:+ pretty st)),
     [EvFetch UAudiences]) in
  Cron.GET turndown env up request s = answer
  /\ CronHistorical.GET turndown fuel env up request s = answer
  /\ store_after (Cron.GET turndown env up request) s = s
  /\ store_after (CronHistorical.GET turndown fuel env up request) s = s.
Proof.
  intros Ha Hk Hi Hfail answer.
  assert (Hc : Cron.GET turndown env up request s = answer).
  { rewrite GET_current_authorized by done.
    by rewrite try_catch_ret, sync_current_run, Hfail. }
  assert (Hh : CronHistorical.GET turndown fuel env up request s = answer).
  { rewrite GET_historical_authorized by done.
    by rewrite try_catch_ret, sync_historical_run, Hfail. }
  unfold store_after, log_of. by rewrite Hc, Hh.
Qed.

Lemma failed_audiences_call_ends_the_run_witness :
  let up := mkUpstream (NotOk 503) (NotOk 503) Sample.nothing Sample.notFound
              (fun _ => NotOk 404) in
  Cron.GET Sample.markdown Sample.env up Sample.request ∅
  = (Return (sync_failed ("Failed to fetch audiences: " +:+ pretty 503%Z)),
     [EvFetch UAudiences]).
Proof.
  intros up.
  exact (proj1 (failed_audiences_call_ends_the_run Sample.markdown 1%nat Sample.env up
                  Sample.request ∅ 503 eq_refl eq_refl eq_refl eq_refl)).
Defined.

(** X19. When the broadcasts call is answered with a non-2xx status, both
    routes answer 500 with the status in the details, after the
    audiences have been written: the store holds the new audience list,
    and every key that does not start with [rss_audience] (the
    broadcast list among them) holds what it held before. *)
Theorem failed_broadcasts_call_keeps_the_audiences
    turndown fuel env up request (s : Store) pa st :
  authorized env request = true ->
  truthy (RESEND_API_KEY env) = true ->
  truthy (RESEND_AUDIENCE_ID env) = true ->
  audiences up = Ok pa ->
  broadcasts up = NotOk st ->
  let answer :=
    (Return (sync_failed ("Failed to fetch broadcasts: " +:+ pretty st)),
     audiencesLog (items pa) ++ [EvFetch UBroadcasts]) in
  Cron.GET turndown env up request s = answer
  /\ CronHistorical.GET turndown fuel env up request s = answer
  /\ replay (snd answer) s !! "rss_audiences" = Some (BAudiences (items pa))
  /\ forall key, (forall x, key <> "rss_audience" +:+ x) ->
       replay (snd answer) s !! key = s !! key.
Proof.
  intros Ha Hk Hi Hpa Hfail answer. split; [|split; [|split]].
  - rewrite GET_current_authorized by done.
    by rewrite try_catch_ret, sync_current_run, Hpa, Hfail.
  - rewrite GET_historical_authorized by done.
    by rewrite try_catch_ret, sync_historical_run, Hpa, Hfail.
  - cbn [snd answer]. rewrite replay_lookup, last_write_cut by done.
    unfold audiencesLog. rewrite last_write_app.
    rewrite (last_write_absent _ (map _ _)); [done|].
    intros k v H ->. apply elem_of_puts_map in H as (a & _ & H & _).
    simpl in H. discriminate.
  - intros key Hkey. cbn [snd answer].
    by rewrite replay_lookup, last_write_cut, last_write_audiences_outside.
Qed.

Lemma failed_broadcasts_call_keeps_the_audiences_witness :
  let up := mkUpstream (Ok (mkPage (Some [Sample.audience]) None)) (NotOk 503)
              Sample.nothing Sample.notFound (fun _ => NotOk 404) in
  store_after (Cron.GET Sample.markdown Sample.env up Sample.request) Sample.published
    !! "rss_broadcasts" = Sample.published !! "rss_broadcasts".
Proof.
  intros up.
  destruct (failed_broadcasts_call_keeps_the_audiences Sample.markdown 1%nat Sample.env
              up Sample.request Sample.published (mkPage (Some [Sample.audience]) None)
              503 eq_refl eq_refl eq_refl eq_refl eq_refl) as (Hrun & _ & _ & Hkeep).
  unfold store_after, log_of. rewrite Hrun.
  apply (Hkeep "rss_broadcasts"). intros x. discriminate.
Defined.

Lemma log_GET_historical_cases turndown fuel env up request (s : Store) :
  log_of (CronHistorical.GET turndown fuel env up request) s = []
  \/ (authorized env request = true
      /\ CronHistorical.GET turndown fuel env up request s
         = match CronHistorical.sync turndown fuel up
                   (default "" (RESEND_AUDIENCE_ID env)) s with
           | (Throw e, t) => (Return (sync_failed e), t)
           | other => other
           end).
Proof.
  unfold log_of, CronHistorical.GET.
  destruct (authorized env request); [|by left].
  destruct (negb _ || negb _); [by left|].
  right. split; [done|]. cbn [negb]. by rewrite try_catch_ret.
Qed.

Lemma log_GET_current_cases turndown env up request (s : Store) :
  log_of (Cron.GET turndown env up request) s = []
  \/ (authorized env request = true
      /\ Cron.GET turndown env up request s
         = match Cron.sync turndown up (default "" (RESEND_AUDIENCE_ID env)) s with
           | (Throw e, t) => (Return (sync_failed e), t)
           | other => other
           end).
Proof.
  unfold log_of, Cron.GET.
  destruct (authorized env request); [|by left].
  destruct (negb _ || negb _); [by left|].
  right. split; [done|]. cbn [negb]. by rewrite try_catch_ret.
Qed.

(** X20. A run of the historical route that does not end with the 200
    answer (it is rejected, or a list call or an emails call fails, or
    the pagination does not end) leaves the email collection, the
    cursor and the email records as they were: every key that starts
    neither with [rss_audience] nor with [rss_broadcast] is untouched. *)
Theorem failed_run_keeps_emails_and_cursor turndown fuel env up request (s : Store) :
  (forall response,
     result_of (CronHistorical.GET turndown fuel env up request) s = Return response ->
     status response <> 200) ->
  let s' := store_after (CronHistorical.GET turndown fuel env up request) s in
  s' !! "rss_emails" = s !! "rss_emails"
  /\ s' !! "rss_last_email_id" = s !! "rss_last_email_id"
  /\ forall key,
       (forall x, key <> "rss_audience" +:+ x) ->
       (forall x, key <> "rss_broadcast" +:+ x) ->
       s' !! key = s !! key.
Proof.
  intros Hfailed s'.
  assert (Hkeys : forall key,
            (forall x, key <> "rss_audience" +:+ x) ->
            (forall x, key <> "rss_broadcast" +:+ x) ->
            s' !! key = s !! key).
  { intros key Hka Hkb. unfold s', store_after.
    destruct (log_GET_historical_cases turndown fuel env up request s) as [->|[_ Hrun]];
      [done|].
    unfold result_of in Hfailed. unfold log_of. rewrite Hrun in *.
    rewrite sync_historical_run in *. rewrite replay_lookup.
    destruct (audiences up) as [pa|st]; [|done].
    destruct (broadcasts up) as [pb|st].
    2:{ cbn [snd]. by rewrite last_write_cut, last_write_audiences_outside. }
    cbn zeta in *.
    pose proof (emailsLoop_puts fuel up (CronHistorical.storedLastEmailId s)
                  (CronHistorical.storedLastEmailId s) [] ∅) as Hp.
    unfold log_of in Hp.
    destruct (CronHistorical.emailsLoop _ _ _ _ _ ∅) as [[N|e|] tE]; cbn [fst snd] in *.
    - by destruct (Hfailed _ eq_refl).
    - rewrite last_write_cut, last_write_app by done.
      by rewrite last_write_broadcasts_outside, last_write_audiences_outside.
    - rewrite last_write_cut, last_write_app by done.
      by rewrite last_write_broadcasts_outside, last_write_audiences_outside. }
  split; [|split; [|done]]; apply Hkeys; intros x; simpl; discriminate.
Qed.

Lemma failed_run_keeps_emails_and_cursor_witness :
  let up := Sample.upstream Sample.twoAudiences (fun _ => NotOk 429) Sample.ok in
  let run := CronHistorical.GET Sample.markdown 1 Sample.env up Sample.request in
  result_of run Sample.afterFirstEmail
  = Return (sync_failed ("Failed to fetch emails: " +:+ pretty 429%Z))
  /\ store_after run Sample.afterFirstEmail !! "rss_emails"
     = Sample.afterFirstEmail !! "rss_emails".
Proof.
  intros up run. split; [reflexivity|].
  refine (proj1 (failed_run_keeps_emails_and_cursor Sample.markdown 1%nat Sample.env up
                   Sample.request Sample.afterFirstEmail _)).
  intros response Hresponse. vm_compute in Hresponse.
  injection Hresponse as <-. discriminate.
Defined.

(** ** What the routes never do *)

(** X21. When no email of the collection has the subject and sender of any
    broadcast's details, the correlation makes one detail call per
    broadcast, each followed by its delay, and nothing else: no email
    detail call and no write. *)
Theorem no_matching_email_no_enrichment turndown up B N (s : Store) :
  (forall b details,
     b ∈ B -> broadcast up (Broadcast.id b) = Ok details ->
     CronHistorical.findMatchingEmail details N = None) ->
  CronHistorical.matchAndStore turndown up B N s
  = (Return tt,
     concat (map (fun b => [EvFetch (UBroadcast (Broadcast.id b)); EvSleep 500]) B)).
Proof.
  intros Hnone. rewrite matchAndStore_run. f_equal. f_equal.
  induction B as [|b B IH]; [done|]. cbn [map]. f_equal.
  - unfold log_of. rewrite matchOne_run. cbn [snd].
    destruct (broadcast up (Broadcast.id b)) as [details|st] eqn:Hd; [|done].
    destruct (negb _ || negb _); [done|].
    by rewrite (Hnone b details) by (done || left).
  - apply IH. intros b' details Hb'. apply Hnone. by right.
Qed.

Lemma no_matching_email_no_enrichment_witness :
  let up := Sample.upstream Sample.twoAudiences Sample.nothing Sample.ok in
  CronHistorical.matchAndStore Sample.markdown up [Sample.summary "b1" "a1"] [] ∅
  = (Return tt, [EvFetch (UBroadcast "b1"); EvSleep 500]).
Proof.
  intros up.
  apply (no_matching_email_no_enrichment Sample.markdown up
           [Sample.summary "b1" "a1"] [] ∅).
  intros b details _ _. reflexivity.
Defined.

Lemma emailsLoop_endless fuel up lastEmailId currentLastId newEmails (s : Store) :
  truthy lastEmailId = false ->
  (forall before, exists json,
     emails up before = Ok json /\ items json <> []
     /\ default false (has_more json) = true) ->
  let run := CronHistorical.emailsLoop fuel up lastEmailId currentLastId newEmails in
  result_of run s = Diverge /\ length (fetches (log_of run s)) = fuel.
Proof.
  intros Hcursor Hmore. revert currentLastId newEmails s.
  induction fuel as [|fuel IH]; intros currentLastId newEmails s run; [done|].
  unfold run, result_of, log_of. rewrite emailsLoop_step. cbn zeta.
  destruct (Hmore (CronHistorical.beforeParam currentLastId)) as (json & -> & Hne & ->).
  destruct (items json) as [|e es] eqn:Hitems; [done|].
  rewrite Hcursor.
  destruct (IH (CronHistorical.lastId (e :: es)) (newEmails ++ e :: es) ∅) as [Hr Hl].
  unfold result_of, log_of in Hr, Hl. cbn [fst snd].
  split; [done|]. rewrite fetches_app, length_app, Hl. done.
Qed.

(** X22. The first-run pagination ends only on a page that is empty or does
    not report more: against a provider that answers every request with
    a non-empty page reporting more, the fetch with no stored cursor has
    not returned after any number of calls. *)
Theorem full_pagination_needs_a_last_page fuel up (s : Store) :
  truthy (CronHistorical.storedLastEmailId s) = false ->
  (forall before, exists json,
     emails up before = Ok json /\ items json <> []
     /\ default false (has_more json) = true) ->
  result_of (CronHistorical.fetchEmailsIncrementally fuel up) s = Diverge
  /\ length (fetches (log_of (CronHistorical.fetchEmailsIncrementally fuel up) s)) = fuel.
Proof.
  intros Hcursor Hmore.
  destruct (emailsLoop_endless fuel up (CronHistorical.storedLastEmailId s)
              (CronHistorical.storedLastEmailId s) [] ∅ Hcursor Hmore) as [Hr Hl].
  unfold result_of, log_of in *. rewrite fetchEmailsIncrementally_run. cbn zeta.
  destruct (CronHistorical.emailsLoop _ _ _ _ _ ∅) as [[N|e|] tE]; done.
Qed.

Lemma full_pagination_needs_a_last_page_witness :
  let up := Sample.upstream Sample.twoAudiences Sample.endless Sample.ok in
  result_of (CronHistorical.fetchEmailsIncrementally 7 up) ∅ = Diverge.
Proof.
  intros up.
  refine (proj1 (full_pagination_needs_a_last_page 7%nat up ∅ eq_refl _)).
  intros before. eexists. split; [reflexivity|]. split; [discriminate|reflexivity].
Defined.

Lemma puts_sync_current turndown up audienceId (s : Store) key body :
  (key, body) ∈ puts (snd (Cron.sync turndown up audienceId s)) ->
  key = "rss_audiences" \/ key = "rss_broadcasts"
  \/ (exists id, key = "rss_audience_" +:+ id)
  \/ (exists id, key = "rss_broadcast_" +:+ id).
Proof.
  rewrite sync_current_run.
  destruct (audiences up) as [pa|st]; [|by inversion 1].
  destruct (broadcasts up) as [pb|st]; cbn zeta; cbn [snd];
    rewrite !puts_app, !elem_of_app.
  - intros [[H|H]|H].
    + apply puts_audiencesLog in H as [->|(a & _ & ->)]; eauto 6.
    + apply puts_broadcastsLog in H as [->|(b & _ & ->)]; eauto 6.
    + apply elem_of_puts_concat in H as (b & _ & H).
      apply puts_storeOne in H as [->| ->]; right; right; right; eexists; reflexivity.
  - intros [H|H]; [|by inversion H].
    apply puts_audiencesLog in H as [->|(a & _ & ->)]; eauto 6.
Qed.

Lemma puts_sync_historical turndown fuel up audienceId (s : Store) key body :
  (key, body) ∈ puts (snd (CronHistorical.sync turndown fuel up audienceId s)) ->
  key = "rss_audiences" \/ key = "rss_broadcasts"
  \/ (exists id, key = "rss_audience_" +:+ id)
  \/ (exists id, key = "rss_broadcast_" +:+ id)
  \/ key = "rss_emails" \/ key = "rss_last_email_id"
  \/ (exists id, key = "rss_email_" +:+ id).
Proof.
  rewrite sync_historical_run.
  destruct (audiences up) as [pa|st]; [|by inversion 1].
  destruct (broadcasts up) as [pb|st]; cbn zeta.
  2:{ cbn [snd]. rewrite puts_app, elem_of_app. intros [H|H]; [|by inversion H].
      apply puts_audiencesLog in H as [->|(a & _ & ->)]; eauto 6. }
  pose proof (emailsLoop_puts fuel up (CronHistorical.storedLastEmailId s)
                (CronHistorical.storedLastEmailId s) [] ∅) as Hp.
  unfold log_of in Hp.
  assert (H0 : forall A B,
    (key, body) ∈ puts (audiencesLog A ++ broadcastsLog B) ->
    key = "rss_audiences" \/ key = "rss_broadcasts"
    \/ (exists id, key = "rss_audience_" +:+ id)
    \/ (exists id, key = "rss_broadcast_" +:+ id)).
  { intros A B. rewrite puts_app, elem_of_app. intros [H|H].
    - apply puts_audiencesLog in H as [->|(a & _ & ->)]; eauto 6.
    - apply puts_broadcastsLog in H as [->|(b & _ & ->)]; eauto 6. }
  destruct (CronHistorical.emailsLoop _ _ _ _ _ ∅) as [[N|e|] tE]; cbn [snd] in *;
    rewrite puts_app, elem_of_app.
  - intros [H|H]; [apply H0 in H as [->|[->|[[id ->]|[id ->]]]]; eauto 10|].
    rewrite !puts_app, Hp, !elem_of_app in H. destruct H as [H|[H|H]].
    + by inversion H.
    + apply puts_emailsLog in H as [->|[->|(e & _ & ->)]]; eauto 10.
    + apply puts_matchAndStore_prefix in H as [id ->]. eauto 10.
  - rewrite Hp. intros [H|H]; [apply H0 in H as [->|[->|[[id ->]|[id ->]]]]; eauto 10|by inversion H].
  - rewrite Hp. intros [H|H]; [apply H0 in H as [->|[->|[[id ->]|[id ->]]]]; eauto 10|by inversion H].
Qed.

(** X23. Every key a run writes is one of the four collection keys or a
    record key made of a fixed prefix and an id; in particular it starts
    with [rss_], and the current route writes no email key. *)
Theorem written_keys_are_in_the_rss_namespace
    turndown fuel env up request (s : Store) key body :
  (key, body) ∈ puts (log_of (Cron.GET turndown env up request) s)
  \/ (key, body) ∈ puts (log_of (CronHistorical.GET turndown fuel env up request) s) ->
  (exists rest, key = "rss_" +:+ rest)
  /\ ((key, body) ∈ puts (log_of (Cron.GET turndown env up request) s) ->
      key = "rss_audiences" \/ key = "rss_broadcasts"
      \/ (exists id, key = "rss_audience_" +:+ id)
      \/ (exists id, key = "rss_broadcast_" +:+ id)).
Proof.
  assert (Hc : (key, body) ∈ puts (log_of (Cron.GET turndown env up request) s) ->
               key = "rss_audiences" \/ key = "rss_broadcasts"
               \/ (exists id, key = "rss_audience_" +:+ id)
               \/ (exists id, key = "rss_broadcast_" +:+ id)).
  { destruct (log_GET_current_cases turndown env up request s) as [->|[_ Hrun]];
      [by inversion 1|].
    unfold log_of. rewrite Hrun. intros H. apply (puts_sync_current turndown up
      (default "" (RESEND_AUDIENCE_ID env)) s key body).
    by destruct (Cron.sync _ _ _ s) as [[r|e|] t]. }
  assert (Hh : (key, body) ∈ puts (log_of (CronHistorical.GET turndown fuel env up request) s) ->
               key = "rss_audiences" \/ key = "rss_broadcasts"
               \/ (exists id, key = "rss_audience_" +:+ id)
               \/ (exists id, key = "rss_broadcast_" +:+ id)
               \/ key = "rss_emails" \/ key = "rss_last_email_id"
               \/ (exists id, key = "rss_email_" +:+ id)).
  { destruct (log_GET_historical_cases turndown fuel env up request s) as [->|[_ Hrun]];
      [by inversion 1|].
    unfold log_of. rewrite Hrun. intros H. apply (puts_sync_historical turndown fuel up
      (default "" (RESEND_AUDIENCE_ID env)) s key body).
    by destruct (CronHistorical.sync _ _ _ _ s) as [[r|e|] t]. }
  intros H. split; [|exact Hc].
  destruct H as [H|H].
  - apply Hc in H as [->|[->|[[id ->]|[id ->]]]]; eexists; reflexivity.
  - apply Hh in H as [->|[->|[[id ->]|[[id ->]|[->|[->|[id ->]]]]]]];
      eexists; reflexivity.
Qed.

Lemma written_keys_are_in_the_rss_namespace_witness :
  exists rest, "rss_audiences" = "rss_" +:+ rest.
Proof.
  refine (proj1 (written_keys_are_in_the_rss_namespace Sample.markdown 1%nat Sample.env
                   (Sample.upstream Sample.twoAudiences Sample.nothing Sample.okHtml)
                   Sample.request ∅ "rss_audiences" (BAudiences [Sample.audience]) _)).
  left. vm_compute. left.
Defined.

(** X24. The current route never reads the store: its answer and its effects
    are the same over any two stores. The historical route reads two
    keys only: over two stores that agree on the email collection and
    on the cursor, its answer and its effects are the same. *)
Theorem runs_read_the_email_keys_only turndown fuel env up request (s s' : Store) :
  Cron.GET turndown env up request s = Cron.GET turndown env up request s'
  /\ (s !! "rss_emails" = s' !! "rss_emails" ->
      s !! "rss_last_email_id" = s' !! "rss_last_email_id" ->
      CronHistorical.GET turndown fuel env up request s
      = CronHistorical.GET turndown fuel env up request s').
Proof.
  split; [apply GET_current_oblivious|]. intros He Hc.
  unfold CronHistorical.GET.
  destruct (negb (authorized env request)); [done|].
  destruct (negb _ || negb _); [done|]. cbv zeta.
  rewrite !try_catch_ret, !sync_historical_run.
  unfold CronHistorical.storedLastEmailId, CronHistorical.storedEmails.
  by rewrite He, Hc.
Qed.

Lemma runs_read_the_email_keys_only_witness :
  let up := Sample.upstream Sample.twoAudiences Sample.newerThan Sample.ok in
  CronHistorical.GET Sample.markdown 1 Sample.env up Sample.request Sample.published
  = CronHistorical.GET Sample.markdown 1 Sample.env up Sample.request ∅.
Proof.
  intros up.
  exact (proj2 (runs_read_the_email_keys_only Sample.markdown 1%nat Sample.env up
                  Sample.request Sample.published ∅) eq_refl eq_refl).
Defined.

(** ** The items of the feed *)

Lemma orElse_nonempty a b : b <> "" -> Feed.orElse a b <> "".
Proof.
  intros Hb. unfold Feed.orElse. destruct (truthy a) eqn:Ha; [|done].
  by destruct (truthy_inv a Ha) as (h & -> & Hne).
Qed.

(** X5. An item of the feed always has a title, written escaped: the
    subject of the broadcast, or its name when the subject is missing
    or empty, or [Broadcast <id>] when the name is missing or empty
    too; so the title element is never empty. *)
Theorem item_title_is_never_empty toUTCString config broadcast :
  exists title rest,
    Feed.renderItem toUTCString config broadcast
    = "    <item>" +:+ Feed.newline +:+ "      <title>" +:+ Feed.escapeXml title
      +:+ "</title>" +:+ rest
    /\ title <> ""
    /\ Feed.escapeXml title <> ""
    /\ title
       = (if truthy (Broadcast.subject broadcast)
          then default "" (Broadcast.subject broadcast)
          else if truthy (Broadcast.name broadcast)
               then default "" (Broadcast.name broadcast)
               else "Broadcast " +:+ Broadcast.id broadcast).
Proof.
  assert (Hne : Feed.orElse (Broadcast.subject broadcast)
                  (Feed.orElse (Broadcast.name broadcast)
                     ("Broadcast " +:+ Broadcast.id broadcast)) <> "").
  { apply orElse_nonempty, orElse_nonempty. simpl. discriminate. }
  eexists _, _. split; [|split; [exact Hne|split]].
  - unfold Feed.renderItem. cbv zeta. rewrite !append_assoc. reflexivity.
  - intros H. apply Hne. by apply escapeXml_inj.
  - unfold Feed.orElse.
    destruct (Broadcast.subject broadcast) as [subject|],
      (Broadcast.name broadcast) as [name|]; simpl;
      repeat (destruct (negb _)); done.
Qed.

(** ** The answers of the detail route *)

(** X9. The detail route has no effect and always answers: 200 exactly when
    the record under the info key is JSON with a non-empty html field,
    500 exactly when a body is stored there whose html cannot be read
    (it is not JSON, or it is [null]), and 404 in every other case (no
    record, or a record whose html is missing or empty, be it an
    object, an array or a raw text that is JSON). *)
Theorem detail_route_answers_by_stored_record json (id : string) (s : Store) :
  exists response,
    BroadcastDetail.GET json id s = (Return response, [])
    /\ (status response = 200 <->
        exists stored html,
          s !! BroadcastDetail.infoKey id = Some stored
          /\ BroadcastDetail.htmlField json stored = Some (Some html) /\ html <> "")
    /\ (status response = 500 <->
        exists stored,
          s !! BroadcastDetail.infoKey id = Some stored
          /\ BroadcastDetail.htmlField json stored = None)
    /\ (status response = 200 \/ status response = 500 \/ status response = 404).
Proof.
  unfold BroadcastDetail.GET.
  rewrite try_catch_ret, bind_run. unfold read. cbn [fst snd replay foldl app].
  destruct (s !! BroadcastDetail.infoKey id) as [stored|].
  2:{ eexists. split; [done|]. cbn [status]. split_and!; [| |auto].
      - split; [done|]. by intros (? & ? & ? & _).
      - split; [done|]. by intros (? & ? & _). }
  destruct (BroadcastDetail.htmlField json stored) as [[html|]|] eqn:Hf.
  - cbn [truthy]. destruct (String.eqb_spec html "") as [->|Hne];
      (eexists; split; [done|]); cbn [status]; split_and!; auto.
    + split; [done|]. intros (? & ? & [= <-] & H & Hne). congruence.
    + split; [done|]. intros (? & [= <-] & H). congruence.
    + split; [eauto 6|done].
    + split; [done|]. intros (? & [= <-] & H). congruence.
  - eexists. split; [done|]. cbn [status]. split_and!; auto.
    + split; [done|]. intros (? & ? & [= <-] & H & _). congruence.
    + split; [done|]. intros (? & [= <-] & H). congruence.
  - eexists. split; [done|]. cbn [status]. split_and!; auto.
    + split; [done|]. intros (? & ? & [= <-] & H & _). congruence.
    + split; [eauto|done].
Qed.
